(** * Match-finding and image-comparison pipeline of the LocateLost backend

    A shallow embedding of
      - [src/services/imageMatchingService.js]
        (generateSimpleImageFeatures, calculateSimilarity,
        processImageForMatching),
      - [src/services/faceMatchingService.js]
        (compareTwoFaces, compareMultipleFaces, compareReportImages),
      - [src/services/caseService.js] (findMatches),
      - [src/controllers/faceMatchController.js]
        (findMatchesForParentReport, findMatchesForFinderReport,
        compareSpecificReports).

    JavaScript numbers are IEEE 754 binary64 values; they are embedded as
    Rocq's primitive floats, whose operations are the same binary64
    operations (round to nearest, ties to even), so every arithmetic step of
    the source is evaluated bit for bit. *)

From Stdlib Require Import ZArith List Bool Lia String Ascii Floats Sorted Permutation.
From Stdlib Require Strings.Byte.
Import Strings.Byte.
Import ListNotations.

(* A decimal literal denotes the nearest binary64 value, as in JavaScript. *)
Set Warnings "-inexact-float".

(** ** JavaScript numbers and values *)

Module JS.

Definition number := float.

(** [Number(z)] for an integer that binary64 represents exactly. *)
Definition of_Z (z : Z) : number := PrimFloat.of_uint63 (Uint63.of_Z z).

Definition of_byte (b : byte) : number := of_Z (Z.of_N (Byte.to_N b)).

(** [Math.max(a, b)]: NaN if either is NaN, and +0 is larger than -0. *)
Definition Math_max (a b : number) : number :=
  if (PrimFloat.is_nan a || PrimFloat.is_nan b)%bool then PrimFloat.nan
  else if (a <? b)%float then b
  else if (b <? a)%float then a
  else if PrimFloat.get_sign a then b else a.

Definition Math_sqrt (x : number) : number := PrimFloat.sqrt x.


(** A number in the closed interval from 0 to 1. *)
Definition in_unit_interval (x : number) : bool :=
  ((0 <=? x) && (x <=? 1))%float.

(** The values an embedding argument can take: an array of numbers, or
    something that [Array.isArray] rejects. *)
Inductive value :=
| JUndefined
| JNull
| JNumber (x : number)
| JString (s : string)
| JArray (xs : list number).

Definition Array_isArray (v : value) : bool :=
  match v with JArray _ => true | _ => false end.

(** [String.prototype.toUpperCase], character by character: the code
    units 97 to 122 (a to z) move down by 32, and the other characters of
    the types the service is called with (capitals and [_]) stay. *)
Definition ascii_toUpperCase (c : ascii) : ascii :=
  let code := nat_of_ascii c in
  if (Nat.leb 97 code && Nat.leb code 122)%bool then ascii_of_nat (code - 32) else c.

Fixpoint String_toUpperCase (s : string) : string :=
  match s with
  | EmptyString => EmptyString
  | String c s' => String (ascii_toUpperCase c) (String_toUpperCase s')
  end.

(** The outcome of a block that may throw. *)
Inductive completion (A : Type) :=
| Normal (a : A)
| Throw (e : string).
Arguments Normal {A} a.
Arguments Throw {A} e.

End JS.

Import JS.

(** ** imageMatchingService.js *)

Module ImageMatching.

Local Open Scope float_scope.

(** A [Buffer] argument, or [undefined]. *)
Inductive buffer_arg :=
| NoBuffer
| Buffer (bytes : list byte).

(** [imageBuffer[index] / 255]: an index outside the buffer reads
    [undefined], which the division turns into NaN. *)
Definition sample (bytes : list byte) (index : Z) : number :=
  match (if (index <? 0)%Z then None else nth_error bytes (Z.to_nat index)) with
  | Some b => of_byte b / 255
  | None => nan / 255
  end.

(** [Math.floor((i / 128) * imageBuffer.length)].  [i / 128] is exact
    (a division by a power of two) and so is its product with the length
    for every buffer shorter than 2^46 bytes; the index is therefore
    computed on integers. *)
Definition sample_index (i : nat) (len : nat) : Z :=
  (Z.of_nat i * Z.of_nat len / 128)%Z.

(** The [try] block of generateSimpleImageFeatures: reading
    [imageBuffer.length] of [undefined] throws a TypeError. *)
Definition generateSimpleImageFeatures_try (imageBuffer : buffer_arg)
  : completion (list number) :=
  match imageBuffer with
  | NoBuffer => Throw "TypeError: Cannot read properties of undefined (reading 'length')"
  | Buffer bytes =>
      let len := List.length bytes in
      let features := [of_Z (Z.of_nat len mod 1000) / 1000] in
      Normal (features ++ map (fun i => sample bytes (sample_index i len)) (seq 0 128))
  end.

Definition generateSimpleImageFeatures (imageBuffer : buffer_arg) : list number :=
  match generateSimpleImageFeatures_try imageBuffer with
  | Normal features => features
  | Throw _ => repeat 0 128
  end.

(** The accumulators of the similarity loop. *)
Record sums := { dotProduct : number; norm1 : number; norm2 : number }.

(** [for (let i = 0; i < embedding1.length; i++)], entered only when the
    two arrays have the same length. *)
Fixpoint similarity_loop (embedding1 embedding2 : list number) (acc : sums) : sums :=
  match embedding1, embedding2 with
  | x :: e1, y :: e2 =>
      similarity_loop e1 e2
        {| dotProduct := dotProduct acc + x * y;
           norm1 := norm1 acc + x * x;
           norm2 := norm2 acc + y * y |}
  | _, _ => acc
  end.

Definition cosine_of_sums (acc : sums) : number :=
  let norm1 := Math_sqrt (norm1 acc) in
  let norm2 := Math_sqrt (norm2 acc) in
  if ((norm1 =? 0) || (norm2 =? 0))%bool then 0
  else
    let similarity := dotProduct acc / (norm1 * norm2) in
    Math_max 0 ((similarity + 1) / 2).

Definition similarity_of_arrays (embedding1 embedding2 : list number) : number :=
  if negb (Nat.eqb (List.length embedding1) (List.length embedding2)) then 0
  else
    cosine_of_sums
      (similarity_loop embedding1 embedding2
         {| dotProduct := 0; norm1 := 0; norm2 := 0 |}).

Definition calculateSimilarity (embedding1 embedding2 : value) : number :=
  match embedding1, embedding2 with
  | JArray e1, JArray e2 => similarity_of_arrays e1 e2
  | _, _ => 0
  end.

End ImageMatching.

Import ImageMatching.

(** *** processImageForMatching

    What the outside world does during one call: loading the models from
    disk ([models_on_disk]), fetching the image and reading its body
    ([fetch_buffer]), decoding it and drawing it on a canvas, up to and
    including the wait for [onload] ([decode_image]), and running the face
    detector ([detect_faces]; each detection carries a 128-entry
    descriptor).  Each step completes or throws. *)

Module ImageProcessing.

Record image_env := {
  models_on_disk : bool;
  fetch_buffer : completion (list byte);
  decode_image : list byte -> completion unit;
  detect_faces : list byte -> completion (list (list number))
}.

(** [loadModels]: sets the module-level flag [modelsLoaded]; a load
    failure is logged and swallowed, leaving the flag false. *)
Definition loadModels (env : image_env) (modelsLoaded : bool) : bool :=
  if modelsLoaded then true else models_on_disk env.

(** The [try] block.  [const buffer] is declared here and is visible
    only inside this block. *)
Definition processImageForMatching_try (env : image_env) (modelsLoaded : bool)
  : completion (list number) :=
  match fetch_buffer env with
  | Throw e => Throw e
  | Normal buffer =>
      match decode_image env buffer with
      | Throw e => Throw e
      | Normal _ =>
          if negb modelsLoaded then
            Normal (generateSimpleImageFeatures (Buffer buffer))
          else
            match detect_faces env buffer with
            | Throw e => Throw e
            | Normal detections =>
                match detections with
                | [] => Normal (generateSimpleImageFeatures (Buffer buffer))
                | descriptor :: _ => Normal descriptor
                end
            end
      end
  end.

(** The [catch] block evaluates [generateSimpleImageFeatures(buffer)].
    The identifier [buffer] is bound by a [const] inside the [try] block
    and by nothing else in the function or the module, so resolving it in
    the handler throws a ReferenceError before the fallback is called. *)
Definition processImageForMatching_catch (error : string) : completion (list number) :=
  Throw "ReferenceError: buffer is not defined".

Definition processImageForMatching (env : image_env) (modelsLoaded : bool)
  : completion (list number) * bool :=
  let modelsLoaded := loadModels env modelsLoaded in
  match processImageForMatching_try env modelsLoaded with
  | Normal features => (Normal features, modelsLoaded)
  | Throw error => (processImageForMatching_catch error, modelsLoaded)
  end.

End ImageProcessing.

Import ImageProcessing.

(** ** The relational store (prisma) *)

Module CaseStatus.
Inductive t := ACTIVE | CLOSED | RESOLVED | CANCELLED.
Definition eqb (a b : t) : bool :=
  match a, b with
  | ACTIVE, ACTIVE | CLOSED, CLOSED | RESOLVED, RESOLVED | CANCELLED, CANCELLED => true
  | _, _ => false
  end.
End CaseStatus.

Module MatchStatus.
Inductive t := PENDING | MATCHED | CLOSED | REJECTED.
End MatchStatus.

Record CaseImage := {
  image_id : string;
  imageUrl : string;
  embeddingVector : option (list number)
}.

(** A parent report or a finder report; [ownerId] is the [parentId] of the
    former and the [finderId] of the latter. *)
Record Report := {
  report_id : string;
  report_status : CaseStatus.t;
  ownerId : string;
  images : list CaseImage
}.

Record MatchedCase := {
  id : nat;
  parentCaseId : string;
  finderCaseId : string;
  status : MatchStatus.t;
  matchConfidence : number;
  notificationSent : bool
}.

Record Notification := {
  userId : option string;
  title : string;
  type : string;
  matchId : nat;
  confidence : number
}.

Record world := {
  parentReports : list Report;
  finderReports : list Report;
  matchedCases : list MatchedCase;
  nextId : nat;
  notifications : list Notification;
  console : list string
}.

Definition set_matchedCases (w : world) (ms : list MatchedCase) (next : nat) : world :=
  {| parentReports := parentReports w; finderReports := finderReports w;
     matchedCases := ms; nextId := next;
     notifications := notifications w; console := console w |}.

Definition add_notification (w : world) (n : Notification) : world :=
  {| parentReports := parentReports w; finderReports := finderReports w;
     matchedCases := matchedCases w; nextId := nextId w;
     notifications := notifications w ++ [n]; console := console w |}.

Definition add_console (w : world) (line : string) : world :=
  {| parentReports := parentReports w; finderReports := finderReports w;
     matchedCases := matchedCases w; nextId := nextId w;
     notifications := notifications w; console := console w ++ [line] |}.

(** ** faceMatchingService.js *)

Module FaceMatching.

Local Open Scope float_scope.

(** What happens when two images are sent to the face matcher.  Before
    anything else the directory of the temporary files is created if it
    does not exist ([fs.mkdirSync], outside the [try] block). *)
Inductive oracle_outcome :=
| DownloadFails (message : string)
| ServiceFails (message : string)
| ServiceReplies (match_ : bool) (error : option string)
| TempDirFails (message : string).

Definition oracle := string -> string -> oracle_outcome.

Record face_result := {
  success : bool;
  is_match : bool;
  face_confidence : number;
  face_error : option string
}.

(** The [try] block, entered once the directory exists. *)
Definition compareTwoFaces_try (o : oracle) (image1Url image2Url : string)
  : completion face_result :=
  match o image1Url image2Url with
  | DownloadFails message => Throw ("Failed to download image: " ++ message)
  | ServiceFails message => Throw message
  | ServiceReplies match_ error =>
      let confidence := if match_ then 95 else 30 in
      Normal {| success := true; is_match := match_;
                face_confidence := confidence; face_error := error |}
  | TempDirFails message => Throw message
  end.

(** compareTwoFaces: a failure to create the directory is thrown to the
    caller; a failure inside the [try] block is logged and turned into a
    result. *)
Definition compareTwoFaces (o : oracle) (image1Url image2Url : string)
  : completion face_result :=
  match o image1Url image2Url with
  | TempDirFails message => Throw message
  | _ =>
      match compareTwoFaces_try o image1Url image2Url with
      | Normal result => Normal result
      | Throw message =>
          Normal {| success := false; face_error := Some message;
                    is_match := false; face_confidence := 0 |}
      end
  end.

Record face_entry := {
  index : nat;
  image_url : string;
  entry_match : bool;
  entry_confidence : number;
  entry_error : option string
}.

(** The entry pushed for one target image. *)
Definition entry_of (minConfidence : number) (idx : nat) (targetImageUrl : string)
    (result : face_result) : face_entry :=
  if success result then
    {| index := idx; image_url := targetImageUrl;
       entry_match := is_match result && (minConfidence <=? face_confidence result);
       entry_confidence := face_confidence result;
       entry_error := face_error result |}
  else
    {| index := idx; image_url := targetImageUrl;
       entry_match := false; entry_confidence := 0;
       entry_error := match face_error result with
                      | Some EmptyString | None => Some "Failed to compare"%string
                      | Some e => Some e
                      end |}.

Definition compare_entry (o : oracle) (sourceImageUrl : string) (minConfidence : number)
    (idx : nat) (targetImageUrl : string) : completion face_entry :=
  match compareTwoFaces o sourceImageUrl targetImageUrl with
  | Normal result => Normal (entry_of minConfidence idx targetImageUrl result)
  | Throw error => Throw error
  end.

(** The loop over the targets: it ends at the first comparison that
    throws. *)
Fixpoint compare_entries (o : oracle) (sourceImageUrl : string) (minConfidence : number)
    (idx : nat) (targetImageUrls : list string) : completion (list face_entry) :=
  match targetImageUrls with
  | [] => Normal []
  | url :: rest =>
      match compare_entry o sourceImageUrl minConfidence idx url with
      | Throw error => Throw error
      | Normal entry =>
          match compare_entries o sourceImageUrl minConfidence (S idx) rest with
          | Throw error => Throw error
          | Normal entries => Normal (entry :: entries)
          end
      end
  end.

(** [validMatches.sort((a, b) => b.confidence - a.confidence)]: a stable
    sort by decreasing confidence. *)
Fixpoint insert_by_confidence (x : face_entry) (l : list face_entry) : list face_entry :=
  match l with
  | [] => [x]
  | y :: l' =>
      if entry_confidence x <? entry_confidence y then y :: insert_by_confidence x l'
      else x :: y :: l'
  end.

Definition sort_by_confidence (l : list face_entry) : list face_entry :=
  fold_right insert_by_confidence [] l.

(** The answer of compareMultipleFaces; the answer of its error handler
    has no [total_compared] and no [all_results]. *)
Record faces_result := {
  faces_success : bool;
  faces_error : option string;
  total_compared : option nat;
  matches_found : nat;
  matches : list face_entry;
  all_results : option (list face_entry)
}.

Definition compareMultipleFaces (o : oracle) (sourceImageUrl : string)
    (targetImageUrls : list string) (minConfidence : number) : faces_result :=
  match compare_entries o sourceImageUrl minConfidence 0 targetImageUrls with
  | Normal matches =>
      let validMatches := sort_by_confidence (filter entry_match matches) in
      {| faces_success := true; faces_error := None;
         total_compared := Some (List.length targetImageUrls);
         matches_found := List.length validMatches;
         matches := validMatches;
         all_results := Some matches |}
  | Throw error =>
      {| faces_success := false; faces_error := Some error;
         total_compared := None; matches_found := 0; matches := [];
         all_results := None |}
  end.

Record report_match := {
  matched : bool;
  match_confidence : number;
  parentImageId : option string;
  finderImageId : option string;
  parentImageUrl : option string;
  finderImageUrl : option string
}.

Definition no_match : report_match :=
  {| matched := false; match_confidence := 0;
     parentImageId := None; finderImageId := None;
     parentImageUrl := None; finderImageUrl := None |}.

(** One round of the loop over the parent images; [finderImages[index]]
    of a missing entry would throw a TypeError on [finderImage.id]. *)
Definition compare_parent_image (o : oracle) (finderImages : list CaseImage)
    (minConfidence : number) (bestMatch : report_match) (parentImage : CaseImage)
  : completion report_match :=
  let finderImageUrls := map imageUrl finderImages in
  let result := compareMultipleFaces o (imageUrl parentImage) finderImageUrls minConfidence in
  if faces_success result && Nat.ltb 0 (matches_found result) then
    match matches result with
    | [] => Throw "TypeError: Cannot read properties of undefined (reading 'confidence')"
    | topMatch :: _ =>
        if match_confidence bestMatch <? entry_confidence topMatch then
          match nth_error finderImages (index topMatch) with
          | None => Throw "TypeError: Cannot read properties of undefined (reading 'id')"
          | Some finderImage =>
              Normal {| matched := true;
                        match_confidence := entry_confidence topMatch;
                        parentImageId := Some (image_id parentImage);
                        finderImageId := Some (image_id finderImage);
                        parentImageUrl := Some (imageUrl parentImage);
                        finderImageUrl := Some (imageUrl finderImage) |}
          end
        else Normal bestMatch
    end
  else Normal bestMatch.

Fixpoint compare_parent_images (o : oracle) (finderImages : list CaseImage)
    (minConfidence : number) (bestMatch : report_match) (parentImages : list CaseImage)
  : completion report_match :=
  match parentImages with
  | [] => Normal bestMatch
  | parentImage :: rest =>
      match compare_parent_image o finderImages minConfidence bestMatch parentImage with
      | Throw e => Throw e
      | Normal bestMatch' => compare_parent_images o finderImages minConfidence bestMatch' rest
      end
  end.

Definition compareReportImages (o : oracle) (parentImages finderImages : list CaseImage)
    (minConfidence : number) : report_match :=
  match compare_parent_images o finderImages minConfidence no_match parentImages with
  | Normal bestMatch => bestMatch
  | Throw _ => no_match
  end.

End FaceMatching.

Import FaceMatching.

(** ** Effects: store calls, notifications and the console

    A computation reads and writes the [world] and either completes with a
    value or throws.  Writes made before a throw stay: the store has no
    enclosing transaction in these functions. *)

Module Effects.

Inductive db_call :=
| FindUniqueParent (reportId : string)
| FindUniqueFinder (reportId : string)
| FindManyParents
| FindManyFinders
| FindFirstMatch (parentCaseId finderCaseId : string)
| CreateMatch (parentCaseId finderCaseId : string)
| UpdateMatch (matchId : nat).

(** The behaviour of the collaborators during one run: which store calls
    reject (connection loss and the like), which calls of sendNotification
    fail, whether such a call fails after its notification was stored (the
    lookup of the user, or the removal of an invalid token, rejects) or
    before (the insert of the notification rejects), and what the face
    matcher answers. *)
Record env := {
  db_fails : db_call -> bool;
  notify_fails : Notification -> bool;
  stored_before_failure : Notification -> bool;
  face_oracle : oracle
}.

Definition M (A : Type) : Type := world -> completion A * world.

Definition ret {A} (a : A) : M A := fun w => (Normal a, w).

Definition bind {A B} (c : M A) (k : A -> M B) : M B :=
  fun w =>
    match c w with
    | (Normal a, w') => k a w'
    | (Throw e, w') => (Throw e, w')
    end.

Definition throw {A} (e : string) : M A := fun w => (Throw e, w).

Definition try_catch {A} (c : M A) (handler : string -> M A) : M A :=
  fun w =>
    match c w with
    | (Normal a, w') => (Normal a, w')
    | (Throw e, w') => handler e w'
    end.

Definition console_error (line : string) : M unit :=
  fun w => (Normal tt, add_console w line).

Definition console_log (line : string) : M unit :=
  fun w => (Normal tt, add_console w line).

End Effects.

Import Effects.

Declare Scope effect_scope.
Delimit Scope effect_scope with effect.
Notation "x <- c ;; k" := (bind c (fun x => k))
  (at level 61, c at next level, right associativity) : effect_scope.
Notation "c ;;; k" := (bind c (fun _ => k))
  (at level 61, right associativity) : effect_scope.

Module Prisma.

Local Open Scope effect_scope.

Section WithEnv.
Variable e : env.

Definition db (call : db_call) : M unit :=
  if db_fails e call then throw "PrismaClientKnownRequestError" else ret tt.

Definition report_findUnique (table : world -> list Report) (call : db_call)
    (reportId : string) : M (option Report) :=
  db call ;;;
  fun w => (Normal (find (fun r => String.eqb (report_id r) reportId) (table w)), w).

(** [findMany({ where: { status: 'ACTIVE', id: { not: reportId } } })];
    the controllers leave the [id] condition out. *)
Definition report_findMany_active (table : world -> list Report) (call : db_call)
    (notId : option string) : M (list Report) :=
  db call ;;;
  fun w =>
    (Normal (filter (fun r =>
               CaseStatus.eqb (report_status r) CaseStatus.ACTIVE
               && match notId with
                  | Some reportId => negb (String.eqb (report_id r) reportId)
                  | None => true
                  end) (table w)), w).

Definition same_pair (p f : string) (m : MatchedCase) : bool :=
  String.eqb (parentCaseId m) p && String.eqb (finderCaseId m) f.

(** [prisma.matchedCase.findFirst({ where: { parentCaseId, finderCaseId } })] *)
Definition matchedCase_findFirst (p f : string) : M (option MatchedCase) :=
  db (FindFirstMatch p f) ;;;
  fun w => (Normal (find (same_pair p f) (matchedCases w)), w).

(** [prisma.matchedCase.create({ data })]: the store assigns the id. *)
Definition matchedCase_create (p f : string) (conf : number)
    (st : MatchStatus.t) : M MatchedCase :=
  db (CreateMatch p f) ;;;
  fun w =>
    let m := {| id := nextId w; parentCaseId := p; finderCaseId := f;
                status := st; matchConfidence := conf;
                notificationSent := false |} in
    (Normal m, set_matchedCases w (matchedCases w ++ [m]) (S (nextId w))).

Fixpoint update_first (matchId : nat) (change : MatchedCase -> MatchedCase)
    (ms : list MatchedCase) : option (MatchedCase * list MatchedCase) :=
  match ms with
  | [] => None
  | m :: rest =>
      if Nat.eqb (id m) matchId then Some (change m, change m :: rest)
      else
        match update_first matchId change rest with
        | Some (m', rest') => Some (m', m :: rest')
        | None => None
        end
  end.

(** [prisma.matchedCase.update({ where: { id }, data })]: rejects when
    no record has the id. *)
Definition matchedCase_update (matchId : nat) (change : MatchedCase -> MatchedCase)
  : M MatchedCase :=
  db (UpdateMatch matchId) ;;;
  fun w =>
    match update_first matchId change (matchedCases w) with
    | Some (m, ms) => (Normal m, set_matchedCases w ms (nextId w))
    | None => (Throw "PrismaClientKnownRequestError: Record to update not found", w)
    end.

(** The row of [prisma.notification.create]: the type is stored in
    upper case. *)
Definition stored_notification (n : Notification) : Notification :=
  {| userId := userId n; title := title n; type := String_toUpperCase (type n);
     matchId := matchId n; confidence := confidence n |}.

(** A failing call has stored its notification when it failed after the
    insert; a notification without a user (an admin notification) is
    returned right after the insert. *)
Definition stored_on_failure (n : Notification) : bool :=
  match userId n with
  | Some _ => stored_before_failure e n
  | None => false
  end.

(** notificationService.sendNotification: stores the notification, then
    looks the user up and dispatches; a failure at any point is logged and
    thrown again, and the stored notification is not taken back. *)
Definition sendNotification (n : Notification) : M unit :=
  fun w =>
    if notify_fails e n
    then (Throw "notification dispatch failed",
          add_console
            (if stored_on_failure n then add_notification w (stored_notification n) else w)
            "Error sending notification:")
    else (Normal tt, add_notification w (stored_notification n)).

End WithEnv.

End Prisma.

Import Prisma.

(** ** caseService.js *)

Module CaseService.

Local Open Scope float_scope.
Local Open Scope effect_scope.

Definition SIMILARITY_THRESHOLD : number := 0.7.

(** [!image.embeddingVector || image.embeddingVector.length === 0] skips
    the image; otherwise its vector is compared. *)
Definition usable_vector (image : CaseImage) : option (list number) :=
  match embeddingVector image with
  | None => None
  | Some [] => None
  | Some v => Some v
  end.

Definition better (bestSimilarity similarity : number) : number :=
  if bestSimilarity <? similarity then similarity else bestSimilarity.

(** The inner loop over the images of the target report. *)
Definition against_target_images (sourceVector : list number)
    (targetImages : list CaseImage) (bestSimilarity : number) : number :=
  fold_left
    (fun best targetImage =>
       match usable_vector targetImage with
       | None => best
       | Some targetVector =>
           better best (calculateSimilarity (JArray sourceVector) (JArray targetVector))
       end)
    targetImages bestSimilarity.

(** The loop over the images of the source report, from
    [let bestSimilarity = 0]. *)
Definition bestSimilarity (sourceImages targetImages : list CaseImage) : number :=
  fold_left
    (fun best sourceImage =>
       match usable_vector sourceImage with
       | None => best
       | Some sourceVector => against_target_images sourceVector targetImages best
       end)
    sourceImages 0.

(** [if (bestSimilarity >= SIMILARITY_THRESHOLD)] *)
Definition accepted (sourceImages targetImages : list CaseImage) : bool :=
  SIMILARITY_THRESHOLD <=? bestSimilarity sourceImages targetImages.

(** The scores of all pairs of a source image and a target image that
    both carry a non-empty vector, in the order the loops visit them. *)
Definition comparable_scores (sourceImages targetImages : list CaseImage) : list number :=
  flat_map
    (fun sourceImage =>
       match usable_vector sourceImage with
       | None => []
       | Some sourceVector =>
           flat_map
             (fun targetImage =>
                match usable_vector targetImage with
                | None => []
                | Some targetVector =>
                    [calculateSimilarity (JArray sourceVector) (JArray targetVector)]
                end)
             targetImages
       end)
    sourceImages.

Section WithEnv.
Variable e : env.

(** The body of [for (const targetReport of targetReports)]. *)
Definition process_target (reportId reportType : string)
    (sourceReport targetReport : Report) (matches : list MatchedCase)
  : M (list MatchedCase) :=
  let best := bestSimilarity (images sourceReport) (images targetReport) in
  if accepted (images sourceReport) (images targetReport) then
    let isParent := String.eqb reportType "PARENT" in
    let p := if isParent then reportId else report_id targetReport in
    let f := if isParent then report_id targetReport else reportId in
    let parentCase := if isParent then sourceReport else targetReport in
    let finderCase := if isParent then targetReport else sourceReport in
    existingMatch <- matchedCase_findFirst e p f ;;
    match existingMatch with
    | Some _ => ret matches
    | None =>
        newMatch <- matchedCase_create e p f best MatchStatus.PENDING ;;
        let matches := matches ++ [newMatch] in
        sendNotification e
          {| userId := Some (ownerId parentCase);
             title := "Potential Match Found!"; type := "MATCH_FOUND";
             matchId := id newMatch; confidence := best |} ;;;
        sendNotification e
          {| userId := Some (ownerId finderCase);
             title := "Potential Match Found!"; type := "MATCH_FOUND";
             matchId := id newMatch; confidence := best |} ;;;
        sendNotification e
          {| userId := None;
             title := "New Match Found"; type := "ADMIN_ALERT";
             matchId := id newMatch; confidence := best |} ;;;
        ret matches
    end
  else ret matches.

Fixpoint process_targets (reportId reportType : string) (sourceReport : Report)
    (targetReports : list Report) (matches : list MatchedCase)
  : M (list MatchedCase) :=
  match targetReports with
  | [] => ret matches
  | targetReport :: rest =>
      matches' <- process_target reportId reportType sourceReport targetReport matches ;;
      process_targets reportId reportType sourceReport rest matches'
  end.

(** Loading the source report and the active reports of the other role. *)
Definition load_reports (reportId reportType : string) : M (Report * list Report) :=
  if String.eqb reportType "PARENT" then
    sourceReport <- report_findUnique e parentReports (FindUniqueParent reportId) reportId ;;
    match sourceReport with
    | None => throw "Parent report not found"
    | Some sourceReport =>
        targetReports <- report_findMany_active e finderReports FindManyFinders (Some reportId) ;;
        ret (sourceReport, targetReports)
    end
  else if String.eqb reportType "FINDER" then
    sourceReport <- report_findUnique e finderReports (FindUniqueFinder reportId) reportId ;;
    match sourceReport with
    | None => throw "Finder report not found"
    | Some sourceReport =>
        targetReports <- report_findMany_active e parentReports FindManyParents (Some reportId) ;;
        ret (sourceReport, targetReports)
    end
  else throw "Invalid report type".

Definition findMatches (reportId reportType : string) : M (list MatchedCase) :=
  try_catch
    (loaded <- load_reports reportId reportType ;;
     matches <- process_targets reportId reportType (fst loaded) (snd loaded) [] ;;
     console_log "Found new matches" ;;;
     ret matches)
    (fun error => console_error "Error finding matches:" ;;; throw error).

End WithEnv.

End CaseService.

Import CaseService.

(** ** faceMatchController.js *)

Module FaceMatchController.

Local Open Scope float_scope.
Local Open Scope effect_scope.

(** An entry of the [matches] array of the JSON reply. *)
Record match_summary := {
  summary_matchId : nat;
  otherReportId : string;
  summary_confidence : number;
  summary_status : MatchStatus.t
}.

Inductive response :=
| NotFound (message : string)
| BadRequest (message : string)
| MatchesFound (matches : list match_summary)
| Compared (matched : bool) (matchId : option nat) (confidence : number).

Section WithEnv.
Variable e : env.

(** The create-or-update block that the three handlers share word for
    word (lines 126-156, 295-323 and 435-463). *)
Definition upsert_match (p f : string) (matchResult : report_match) : M MatchedCase :=
  existingMatch <- matchedCase_findFirst e p f ;;
  match existingMatch with
  | Some existing =>
      matchedCase_update e (id existing)
        (fun m => {| id := id m; parentCaseId := parentCaseId m;
                     finderCaseId := finderCaseId m;
                     status := MatchStatus.MATCHED;
                     matchConfidence := match_confidence matchResult;
                     notificationSent := notificationSent m |})
  | None =>
      matchedCase_create e p f (match_confidence matchResult) MatchStatus.MATCHED
  end.

Definition mark_notified (m : MatchedCase) : MatchedCase :=
  {| id := id m; parentCaseId := parentCaseId m; finderCaseId := finderCaseId m;
     status := status m; matchConfidence := matchConfidence m;
     notificationSent := true |}.

(** The [try { ... } catch (notifError) { console.error(...) }] block
    of the two list handlers. *)
Definition notify_both (parentReport finderReport : Report)
    (matchRecord : MatchedCase) (matchResult : report_match) : M unit :=
  try_catch
    (sendNotification e
       {| userId := Some (ownerId parentReport);
          title := "Potential Match Found!"; type := "MATCH_FOUND";
          matchId := id matchRecord; confidence := match_confidence matchResult |} ;;;
     sendNotification e
       {| userId := Some (ownerId finderReport);
          title := "Potential Match Found!"; type := "MATCH_FOUND";
          matchId := id matchRecord; confidence := match_confidence matchResult |} ;;;
     matchedCase_update e (id matchRecord) mark_notified ;;;
     ret tt)
    (fun notifError => console_error "Error sending notifications:").

(** The loop body of both list handlers: [parentReport] and
    [finderReport] are the two sides, [p] and [f] the ids the record is
    stored under, [other] the id reported back. *)
Definition match_reports (p f : string) (parentReport finderReport : Report)
    (other : string) (minConfidence : number) (matches : list match_summary)
  : M (list match_summary) :=
  let matchResult :=
    compareReportImages (face_oracle e) (images parentReport) (images finderReport)
      minConfidence in
  if matched matchResult then
    matchRecord <- upsert_match p f matchResult ;;
    notify_both parentReport finderReport matchRecord matchResult ;;;
    ret (matches ++ [{| summary_matchId := id matchRecord;
                        otherReportId := other;
                        summary_confidence := match_confidence matchResult;
                        summary_status := status matchRecord |}])
  else ret matches.

Fixpoint parent_against_finders (parentReportId : string) (parentReport : Report)
    (finderReports : list Report) (minConfidence : number)
    (matches : list match_summary) : M (list match_summary) :=
  match finderReports with
  | [] => ret matches
  | finderReport :: rest =>
      match images finderReport with
      | [] => parent_against_finders parentReportId parentReport rest minConfidence matches
      | _ :: _ =>
          matches' <- match_reports parentReportId (report_id finderReport)
                        parentReport finderReport (report_id finderReport)
                        minConfidence matches ;;
          parent_against_finders parentReportId parentReport rest minConfidence matches'
      end
  end.

Definition findMatchesForParentReport (parentReportId : string) (minConfidence : number)
  : M response :=
  parentReport <- report_findUnique e parentReports (FindUniqueParent parentReportId)
                    parentReportId ;;
  match parentReport with
  | None => ret (NotFound "Parent report not found")
  | Some parentReport =>
      match images parentReport with
      | [] => ret (BadRequest "Parent report has no images to match")
      | _ :: _ =>
          finderReports <- report_findMany_active e finderReports FindManyFinders None ;;
          matches <- parent_against_finders parentReportId parentReport finderReports
                       minConfidence [] ;;
          ret (MatchesFound matches)
      end
  end.

Fixpoint finder_against_parents (finderReportId : string) (finderReport : Report)
    (parentReports : list Report) (minConfidence : number)
    (matches : list match_summary) : M (list match_summary) :=
  match parentReports with
  | [] => ret matches
  | parentReport :: rest =>
      match images parentReport with
      | [] => finder_against_parents finderReportId finderReport rest minConfidence matches
      | _ :: _ =>
          matches' <- match_reports (report_id parentReport) finderReportId
                        parentReport finderReport (report_id parentReport)
                        minConfidence matches ;;
          finder_against_parents finderReportId finderReport rest minConfidence matches'
      end
  end.

Definition findMatchesForFinderReport (finderReportId : string) (minConfidence : number)
  : M response :=
  finderReport <- report_findUnique e finderReports (FindUniqueFinder finderReportId)
                    finderReportId ;;
  match finderReport with
  | None => ret (NotFound "Finder report not found")
  | Some finderReport =>
      match images finderReport with
      | [] => ret (BadRequest "Finder report has no images to match")
      | _ :: _ =>
          parentReports <- report_findMany_active e parentReports FindManyParents None ;;
          matches <- finder_against_parents finderReportId finderReport parentReports
                       minConfidence [] ;;
          ret (MatchesFound matches)
      end
  end.

Definition compareSpecificReports (parentReportId finderReportId : string)
    (minConfidence : number) : M response :=
  if String.eqb parentReportId "" || String.eqb finderReportId "" then
    ret (BadRequest "Both parentReportId and finderReportId are required")
  else
  parentReport <- report_findUnique e parentReports (FindUniqueParent parentReportId)
                    parentReportId ;;
  finderReport <- report_findUnique e finderReports (FindUniqueFinder finderReportId)
                    finderReportId ;;
  match parentReport, finderReport with
  | Some parentReport, Some finderReport =>
      match images parentReport, images finderReport with
      | _ :: _, _ :: _ =>
          let matchResult :=
            compareReportImages (face_oracle e) (images parentReport)
              (images finderReport) minConfidence in
          if matched matchResult then
            matchRecord <- upsert_match parentReportId finderReportId matchResult ;;
            ret (Compared true (Some (id matchRecord)) (match_confidence matchResult))
          else ret (Compared false None (match_confidence matchResult))
      | _, _ => ret (BadRequest "Both reports must have at least one image")
      end
  | _, _ => ret (NotFound "One or both reports not found")
  end.

End WithEnv.

End FaceMatchController.

Import FaceMatchController.

(** ** The match records of the store, by pair *)

Module Pairs.

Definition pair_key (m : MatchedCase) : string * string :=
  (parentCaseId m, finderCaseId m).

Definition pair_keys (w : world) : list (string * string) :=
  map pair_key (matchedCases w).

(** The records stored for the parent report [p] and the finder report [f]. *)
Definition records_for (p f : string) (w : world) : list MatchedCase :=
  filter (same_pair p f) (matchedCases w).

Definition is_report_id (table : list Report) (i : string) : bool :=
  existsb (fun r => String.eqb (report_id r) i) table.

(** A key in canonical order: the id of a parent report first, the id of
    a finder report second. *)
Definition canonical (w : world) (k : string * string) : Prop :=
  is_report_id (parentReports w) (fst k) = true /\
  is_report_id (finderReports w) (snd k) = true.

(** The key a candidate is stored under by findMatches. *)
Definition candidate_key (reportId reportType : string) (targetReport : Report)
  : string * string :=
  if String.eqb reportType "PARENT" then (reportId, report_id targetReport)
  else (report_id targetReport, reportId).

(** The table findMatches loads the source report from, and the table
    of its candidates. *)
Definition source_table (reportType : string) (w : world) : list Report :=
  if String.eqb reportType "PARENT" then parentReports w else finderReports w.

Definition target_table (reportType : string) (w : world) : list Report :=
  if String.eqb reportType "PARENT" then finderReports w else parentReports w.

Definition is_candidate (reportId : string) (r : Report) : bool :=
  CaseStatus.eqb (report_status r) CaseStatus.ACTIVE
  && negb (String.eqb (report_id r) reportId).

Definition is_normal {A} (c : completion A) : bool :=
  match c with Normal _ => true | Throw _ => false end.



(** The contract of the persistence gateway for the pair ([p], [f]) and
    the confidence [conf], between the store before and after: afterwards
    the pair has one record, with that confidence and status MATCHED, and
    it is the record the pair had before if there was one. *)
Definition upsert_contract (w w' : world) (p f : string) (conf : number) : Prop :=
  exists m,
    records_for p f w' = [m] /\ matchConfidence m = conf /\
    status m = MatchStatus.MATCHED /\
    match records_for p f w with
    | old :: _ => id m = id old /\ map id (matchedCases w') = map id (matchedCases w)
    | [] => matchedCases w' = matchedCases w ++ [m]
    end.

(** A record without its notification flag. *)
Definition core (m : MatchedCase) : nat * string * string * MatchStatus.t * number :=
  (id m, parentCaseId m, finderCaseId m, status m, matchConfidence m).

End Pairs.

Import Pairs.

(** ** Example worlds *)

Module Examples.

Local Open Scope float_scope.

Definition image (i : string) (vector : list number) : CaseImage :=
  {| image_id := i; imageUrl := "https://images.example/" ++ i;
     embeddingVector := Some vector |}.

Definition active_report (i owner : string) (imgs : list CaseImage) : Report :=
  {| report_id := i; report_status := CaseStatus.ACTIVE; ownerId := owner;
     images := imgs |}.

(** Collaborators that never fail, with a face matcher that reports a
    match for every pair of images. *)
Definition reliable : env :=
  {| db_fails := fun _ => false;
     notify_fails := fun _ => false;
     stored_before_failure := fun _ => false;
     face_oracle := fun _ _ => ServiceReplies true None |}.

(** One parent report A and the finder reports B (same direction as A),
    C (orthogonal to A) and D (same direction as A); no match yet. *)
Definition reports_only : world :=
  {| parentReports :=
       [active_report "A" "parent-1" [image "a1" [1; 0; 0]]];
     finderReports :=
       [active_report "B" "finder-1" [image "b1" [1; 0; 0]];
        active_report "C" "finder-2" [image "c1" [0; 1; 0]];
        active_report "D" "finder-3" [image "d1" [2; 0; 0]]];
     matchedCases := []; nextId := 0; notifications := []; console := [] |}.

(** The same reports with a PENDING record for (A, B) of confidence 0.8. *)
Definition with_pending_match : world :=
  set_matchedCases reports_only
    [{| id := 0; parentCaseId := "A"; finderCaseId := "B";
        status := MatchStatus.PENDING; matchConfidence := 0.8;
        notificationSent := false |}] 1.

(** Collaborators under which the store rejects the lookup of (A, B). *)
Definition lookup_of_B_fails : env :=
  {| db_fails := fun call =>
       match call with
       | FindFirstMatch p f => String.eqb p "A" && String.eqb f "B"
       | _ => false
       end;
     notify_fails := fun _ => false;
     stored_before_failure := fun _ => false;
     face_oracle := fun _ _ => ServiceReplies true None |}.

(** Collaborators under which every notification is stored and then
    fails to dispatch. *)
Definition notifications_fail : env :=
  {| db_fails := fun _ => false;
     notify_fails := fun _ => true;
     stored_before_failure := fun _ => true;
     face_oracle := fun _ _ => ServiceReplies true None |}.

End Examples.

Import Examples.

(** ** imageMatchingService.js: searching and normalizing embeddings *)

Module EmbeddingSearch.

Local Open Scope float_scope.

(** [Math.sqrt(embedding.reduce((sum, val) => sum + val * val, 0))] *)
Definition magnitude_of (embedding : list number) : number :=
  Math_sqrt (fold_left (fun sum val => sum + val * val) embedding 0).

(** normalizeEmbedding: an argument that is not an array, or an empty
    array, gives 128 zeros; a vector of magnitude 0 is returned as it is. *)
Definition normalizeEmbedding (embedding : value) : list number :=
  match embedding with
  | JArray [] => repeat 0 128
  | JArray xs =>
      let magnitude := magnitude_of xs in
      if magnitude =? 0 then xs else map (fun val => val / magnitude) xs
  | _ => repeat 0 128
  end.

(** An entry of the database of embeddings, and an entry of the answer
    (the [metadata] field, copied as it is, is left out). *)
Record db_item := { item_id : string; item_embedding : value }.

Record found_match := { found_id : string; found_similarity : number }.

(** [Array.prototype.sort(compare)] is a stable sort: an element moves
    behind another only when [compare] of the two is positive.  For a
    comparator that orders the elements consistently every stable sort
    gives this list. *)
Fixpoint sort_insert {A} (compare : A -> A -> number) (x : A) (l : list A) : list A :=
  match l with
  | [] => [x]
  | y :: l' =>
      if 0 <? compare x y then y :: sort_insert compare x l' else x :: y :: l'
  end.

Definition Array_sort {A} (compare : A -> A -> number) (l : list A) : list A :=
  fold_right (sort_insert compare) [] l.

(** [array.slice(0, end)] for an integer [end]: a negative [end] counts
    from the end of the array. *)
Definition Array_slice_from_0 {A} (l : list A) (end_ : Z) : list A :=
  if (end_ <? 0)%Z then firstn (Z.to_nat (Z.of_nat (List.length l) + end_)) l
  else firstn (Z.to_nat end_) l.

(** [(a, b) => b.similarity - a.similarity] *)
Definition by_similarity_descending (a b : found_match) : number :=
  found_similarity b - found_similarity a.

(** The loop of findBestMatches: the items whose similarity with the query
    reaches the threshold, in database order. *)
Definition matches_above (queryEmbedding : value) (databaseEmbeddings : list db_item)
    (threshold : number) : list found_match :=
  flat_map
    (fun dbItem =>
       let similarity := calculateSimilarity queryEmbedding (item_embedding dbItem) in
       if threshold <=? similarity
       then [{| found_id := item_id dbItem; found_similarity := similarity |}]
       else [])
    databaseEmbeddings.

Definition findBestMatches (queryEmbedding : value) (databaseEmbeddings : list db_item)
    (threshold : number) (topK : Z) : list found_match :=
  Array_slice_from_0
    (Array_sort by_similarity_descending
       (matches_above queryEmbedding databaseEmbeddings threshold))
    topK.

(** compareImages: both images are processed ([Promise.all]); a failure
    of either rejects the [Promise.all] and the handler answers 0.  The
    two calls load the models from the same directory, so in a run of the
    program [models_on_disk] is the same for both, and the flag each of
    them finds after its own [loadModels] is then the same whichever call
    is served first. *)
Definition compareImages (env1 env2 : image_env) (modelsLoaded : bool) : number * bool :=
  let (r1, loaded1) := processImageForMatching env1 modelsLoaded in
  let (r2, loaded2) := processImageForMatching env2 loaded1 in
  match r1, r2 with
  | Normal embedding1, Normal embedding2 =>
      (calculateSimilarity (JArray embedding1) (JArray embedding2), loaded2)
  | _, _ => (0, loaded2)
  end.

(** batchProcessImages: [Promise.all] over the images, in order; every
    call runs, and the failure of one rejects the whole batch (the handler
    logs the error and throws it again). *)
Fixpoint batchProcessImages (envs : list image_env) (modelsLoaded : bool)
  : completion (list (list number)) * bool :=
  match envs with
  | [] => (Normal [], modelsLoaded)
  | env :: rest =>
      let (r, loaded) := processImageForMatching env modelsLoaded in
      let (rs, loaded') := batchProcessImages rest loaded in
      (match r, rs with
       | Normal embedding, Normal embeddings => Normal (embedding :: embeddings)
       | Throw error, _ => Throw error
       | Normal _, Throw error => Throw error
       end, loaded')
  end.

End EmbeddingSearch.

Import EmbeddingSearch.

(** ** notificationService.js: sendBulkNotification *)

Module BulkNotification.

Local Open Scope effect_scope.

(** An entry of the result: the stored notification, or
    [{ error, userId }] for a call that failed. *)
Inductive bulk_result :=
| Delivered (n : Notification)
| NotDelivered (error : string) (user : string).

(** The notification of one user: the fields of the call with that
    user's id. *)
Definition notification_for (template : Notification) (user : string) : Notification :=
  {| userId := Some user; title := title template; type := type template;
     matchId := matchId template; confidence := confidence template |}.

(** [userIds.slice(i, j)] *)
Definition Array_slice {A} (l : list A) (i j : nat) : list A :=
  firstn (j - i) (skipn i l).

Section WithEnv.
Variable e : env.

(** [sendNotification({...}).catch(error => ...)] *)
Definition notify_user (template : Notification) (user : string) : M bulk_result :=
  try_catch
    (sendNotification e (notification_for template user) ;;;
     ret (Delivered (stored_notification (notification_for template user))))
    (fun error =>
       console_error "Error sending notification to user" ;;;
       ret (NotDelivered error user)).

(** [await Promise.all(batch.map(...))]: the dispatches of a batch, in
    the order of the batch. *)
Fixpoint notify_batch (template : Notification) (batch : list string)
  : M (list bulk_result) :=
  match batch with
  | [] => ret []
  | user :: rest =>
      r <- notify_user template user ;;
      rs <- notify_batch template rest ;;
      ret (r :: rs)
  end.

(** [for (let i = 0; i < userIds.length; i += batchSize)] with
    [batchSize = 50]; [fuel] bounds the number of rounds. *)
Fixpoint bulk_loop (template : Notification) (userIds : list string)
    (fuel i : nat) (results : list bulk_result) : M (list bulk_result) :=
  match fuel with
  | O => ret results
  | S fuel' =>
      if Nat.ltb i (List.length userIds) then
        batchResults <- notify_batch template (Array_slice userIds i (i + 50)) ;;
        bulk_loop template userIds fuel' (i + 50) (results ++ batchResults)
      else ret results
  end.

(** The loop needs at most one round per user. *)
Definition sendBulkNotification (template : Notification) (userIds : list string)
  : M (list bulk_result) :=
  try_catch
    (results <- bulk_loop template userIds (List.length userIds) 0 [] ;;
     console_log "Bulk notification sent" ;;;
     ret results)
    (fun error => console_error "Error sending bulk notifications:" ;;; throw error).

End WithEnv.

End BulkNotification.

Import BulkNotification.

(** ** What the face matcher decides, stated directly

    Reference definitions for the answers of compareMultipleFaces and
    compareReportImages; the facts below compare the functions of
    faceMatchingService.js with them. *)

Module MatchingPairs.

Local Open Scope float_scope.

(** The face matcher replies, and its reply is a match. *)
Definition oracle_matches (o : oracle) (image1Url image2Url : string) : bool :=
  match o image1Url image2Url with
  | ServiceReplies true _ => true
  | _ => false
  end.

(** A reported match carries the confidence 95, which has to reach
    [minConfidence]. *)
Definition urls_match (o : oracle) (minConfidence : number)
    (sourceImageUrl targetImageUrl : string) : bool :=
  oracle_matches o sourceImageUrl targetImageUrl && (minConfidence <=? 95).

Definition images_match (o : oracle) (minConfidence : number)
    (parentImage finderImage : CaseImage) : bool :=
  urls_match o minConfidence (imageUrl parentImage) (imageUrl finderImage).

(** The comparison of the two images is thrown back to the caller: the
    directory of the temporary files cannot be created. *)
Definition oracle_rejects (o : oracle) (image1Url image2Url : string) : bool :=
  match o image1Url image2Url with
  | TempDirFails _ => true
  | _ => false
  end.

(** The comparison of a source image with all the targets completes:
    none of the single comparisons is thrown back. *)
Definition comparison_completes (o : oracle) (sourceImageUrl : string)
    (targetImageUrls : list string) : bool :=
  forallb (fun url => negb (oracle_rejects o sourceImageUrl url)) targetImageUrls.

(** The error of the first comparison that is thrown back. *)
Definition first_rejection (o : oracle) (sourceImageUrl : string)
    (targetImageUrls : list string) : option string :=
  match find (oracle_rejects o sourceImageUrl) targetImageUrls with
  | Some url =>
      match o sourceImageUrl url with
      | TempDirFails message => Some message
      | _ => None
      end
  | None => None
  end.

(** A parent image counts when its comparison with the finder images
    completes and it matches one of them. *)
Definition parent_image_matches (o : oracle) (minConfidence : number)
    (finderImages : list CaseImage) (parentImage : CaseImage) : bool :=
  comparison_completes o (imageUrl parentImage) (map imageUrl finderImages)
  && existsb (images_match o minConfidence parentImage) finderImages.

(** The first parent image that counts, with the first finder image it
    matches. *)
Definition first_matching_pair (o : oracle) (minConfidence : number)
    (parentImages finderImages : list CaseImage) : option (CaseImage * CaseImage) :=
  match find (parent_image_matches o minConfidence finderImages) parentImages with
  | Some p => option_map (pair p) (find (images_match o minConfidence p) finderImages)
  | None => None
  end.

Definition report_match_of (found : option (CaseImage * CaseImage)) : report_match :=
  match found with
  | Some (p, f) =>
      {| matched := true; match_confidence := 95;
         parentImageId := Some (image_id p); finderImageId := Some (image_id f);
         parentImageUrl := Some (imageUrl p); finderImageUrl := Some (imageUrl f) |}
  | None => no_match
  end.

(** Two reports match when some image of the parent report counts
    against the images of the finder report. *)
Definition reports_match (o : oracle) (minConfidence : number)
    (parentReport finderReport : Report) : bool :=
  existsb (parent_image_matches o minConfidence (images finderReport))
    (images parentReport).

(** The reports a list handler compares its report with: the ACTIVE ones
    that have an image. *)
Definition has_images (r : Report) : bool :=
  match images r with [] => false | _ :: _ => true end.

Definition active_with_images (r : Report) : bool :=
  CaseStatus.eqb (report_status r) CaseStatus.ACTIVE && has_images r.

(** The store holds a record with id [i] for the pair ([p], [f]), MATCHED
    with confidence 95. *)
Definition matched_record (w : world) (i : nat) (p f : string) : Prop :=
  exists m, In m (matchedCases w) /\ id m = i /\ pair_key m = (p, f) /\
            status m = MatchStatus.MATCHED /\ matchConfidence m = 95.

(** The id is the primary key of the table of match records, and the
    store assigns it from a counter. *)
Definition ids_are_keys (w : world) : Prop :=
  NoDup (map id (matchedCases w)) /\
  Forall (fun m => (id m < nextId w)%nat) (matchedCases w).

(** The notification of a match for the owner of one of the two
    reports, as notify_both sends it and as it is stored. *)
Definition match_notification (owner : string) (s : match_summary) : Notification :=
  {| userId := Some owner; title := "Potential Match Found!";
     type := "MATCH_FOUND"; matchId := summary_matchId s;
     confidence := summary_confidence s |}.

Definition both_owners_notified (parentReport finderReport : Report)
    (s : match_summary) : list Notification :=
  [match_notification (ownerId parentReport) s;
   match_notification (ownerId finderReport) s].

(** What a loop of a list handler leaves behind, from the store [w] to
    the store [w'], for the summaries it adds to its answer and the
    reports [others] they are about, in order.  [sides] gives the parent
    report and the finder report of the comparison with a report of the
    list, [pair_of] the pair its record is stored under.  The reports are
    untouched; every summary carries the id of its report, is MATCHED at
    confidence 95 and names a record of its pair; records that were
    MATCHED at 95 still are; and, when no call of sendNotification fails,
    the notifications sent are, summary by summary, one to the owner of
    the parent report and one to the owner of the finder report. *)
Definition loop_result (e : env) (pair_of : string -> string * string)
    (sides : Report -> Report * Report) (w w' : world)
    (added : list match_summary) (others : list Report) : Prop :=
  parentReports w' = parentReports w /\ finderReports w' = finderReports w /\
  ids_are_keys w' /\
  Forall2 (fun s other =>
             otherReportId s = report_id other /\
             summary_confidence s = 95 /\
             summary_status s = MatchStatus.MATCHED /\
             matched_record w' (summary_matchId s)
               (fst (pair_of (otherReportId s))) (snd (pair_of (otherReportId s))))
    added others /\
  (forall i p0 f0, matched_record w i p0 f0 -> matched_record w' i p0 f0) /\
  ((forall n, notify_fails e n = false) ->
   notifications w'
   = notifications w
     ++ flat_map (fun so => both_owners_notified (fst (sides (snd so)))
                              (snd (sides (snd so))) (fst so))
          (combine added others)).

(** The replies 404 and 400 of the handlers. *)
Definition is_rejection (r : completion response) : bool :=
  match r with
  | Normal (NotFound _) | Normal (BadRequest _) => true
  | _ => false
  end.

End MatchingPairs.

Import MatchingPairs.

(** ** What findMatches announces

    The notifications of a new match, without their recipients: two
    MATCH_FOUND notifications (the owner of the parent report, then the
    owner of the finder report) and one ADMIN_ALERT, each with the id and
    the confidence of the record. *)

Module Announcements.

Definition announcement (n : Notification) : nat * string * number :=
  (matchId n, type n, confidence n).

Definition announcements_of (m : MatchedCase) : list (nat * string * number) :=
  [(id m, "MATCH_FOUND"%string, matchConfidence m);
   (id m, "MATCH_FOUND"%string, matchConfidence m);
   (id m, "ADMIN_ALERT"%string, matchConfidence m)].

(** A record as findMatches creates it for the candidate [targetReport]
    of the report [sourceReport]. *)
Definition new_match_of (reportId reportType : string)
    (sourceReport targetReport : Report) (m : MatchedCase) : Prop :=
  pair_key m = candidate_key reportId reportType targetReport /\
  status m = MatchStatus.PENDING /\
  notificationSent m = false /\
  matchConfidence m = bestSimilarity (images sourceReport) (images targetReport) /\
  (SIMILARITY_THRESHOLD <=? matchConfidence m)%float = true.

End Announcements.

Import Announcements.

(** ** The pairs of images findMatches compares

    What the description of findMatches says, on its own terms: an image
    takes part in the comparison when its embedding vector is there and
    is not empty. *)

Module BestScoreSpec.

Local Open Scope float_scope.

Definition non_empty_vector (image : CaseImage) (v : list number) : Prop :=
  embeddingVector image = Some v /\ v <> [].

(** [s] is the similarity of an image of the source report and an image
    of the candidate whose vectors are both non-empty. *)
Definition comparable_score (sourceImages targetImages : list CaseImage)
    (s : number) : Prop :=
  exists sourceImage targetImage sourceVector targetVector,
    In sourceImage sourceImages /\ In targetImage targetImages /\
    non_empty_vector sourceImage sourceVector /\
    non_empty_vector targetImage targetVector /\
    s = calculateSimilarity (JArray sourceVector) (JArray targetVector).

Definition no_comparable_pair (sourceImages targetImages : list CaseImage) : Prop :=
  forall sourceImage targetImage sourceVector targetVector,
    In sourceImage sourceImages -> In targetImage targetImages ->
    non_empty_vector sourceImage sourceVector ->
    ~ non_empty_vector targetImage targetVector.

(** Two reports whose only vectors are so large that their similarity
    overflows. *)
Definition huge_image : CaseImage :=
  {| image_id := "img-huge"; imageUrl := "https://img/huge.jpg";
     embeddingVector := Some [1e200] |}.

End BestScoreSpec.

Import BestScoreSpec.

(** ** The length of a vector *)

Module VectorNorm.

Local Open Scope float_scope.


End VectorNorm.

Import VectorNorm.

(** ** What a bulk notification answers, user by user *)

Module BulkOutcome.

(** The entry of one user: the error entry when the call for that user
    fails, the stored notification otherwise. *)
Definition outcome_for (e : env) (template : Notification) (user : string)
  : bulk_result :=
  if notify_fails e (notification_for template user)
  then NotDelivered "notification dispatch failed" user
  else Delivered (stored_notification (notification_for template user)).

Definition is_delivered (r : bulk_result) : bool :=
  match r with Delivered _ => true | NotDelivered _ _ => false end.

(** The call for a notification inserts it: the call succeeds, or it
    fails after the insert. *)
Definition inserted (e : env) (n : Notification) : bool :=
  negb (notify_fails e n) || stored_on_failure e n.

(** The notifications that are recorded for a list of users: those that
    were inserted, as they are stored. *)
Definition sent_to (e : env) (template : Notification) (users : list string)
  : list Notification :=
  map stored_notification
    (filter (inserted e) (map (notification_for template) users)).

(** Two stores that differ in their notifications and log lines only. *)
Definition same_records (w w' : world) : Prop :=
  parentReports w' = parentReports w /\ finderReports w' = finderReports w /\
  matchedCases w' = matchedCases w /\ nextId w' = nextId w.

End BulkOutcome.

Import BulkOutcome.

(** ** More example inputs *)

Module MoreExamples.

Local Open Scope float_scope.

(** An image in which the detector finds one face with the given
    descriptor, and an image in which it finds none. *)
Definition image_with_face (bytes : list byte) (descriptor : list number) : image_env :=
  {| models_on_disk := true; fetch_buffer := Normal bytes;
     decode_image := fun _ => Normal tt;
     detect_faces := fun _ => Normal [descriptor] |}.

Definition image_without_face (bytes : list byte) : image_env :=
  {| models_on_disk := true; fetch_buffer := Normal bytes;
     decode_image := fun _ => Normal tt;
     detect_faces := fun _ => Normal [] |}.

Definition three_embeddings : list db_item :=
  [{| item_id := "e1"; item_embedding := JArray [1; 0; 0] |};
   {| item_id := "e2"; item_embedding := JArray [0; 1; 0] |};
   {| item_id := "e3"; item_embedding := JArray [3; 0; 1] |}].

(** A face matcher that reports a match exactly for the image b1. *)
Definition only_b1_matches : oracle :=
  fun _ url =>
    if String.eqb url "https://images.example/b1" then ServiceReplies true None
    else ServiceReplies false None.

(** Two buffers of 256 bytes that differ in every second byte. *)
Definition plain_buffer : list byte := repeat x00 256.

Definition striped_buffer : list byte :=
  flat_map (fun _ => [x00; xff]) (seq 0 128).

End MoreExamples.

Import MoreExamples.

(** * Facts about binary64 arithmetic

    The primitive operations are specified by [SpecFloat]; the facts the
    proofs below need are derived from that specification. *)

Module FloatFacts.

Local Open Scope float_scope.

Ltac cmp_cases :=
  repeat match goal with
  | |- context [Z.compare ?a ?b] => destruct (Z.compare_spec a b)
  | |- context [Pos.compare_cont Eq ?a ?b] =>
      change (Pos.compare_cont Eq a b) with (Pos.compare a b);
      destruct (Pos.compare_spec a b)
  end.

Ltac by_shape x y :=
  destruct x as [[]|[]| |[] ? ?], y as [[]|[]| |[] ? ?]; simpl;
  try reflexivity; try discriminate; try congruence; cmp_cases; simpl;
  try reflexivity; try discriminate; intros; subst; try lia.

Lemma SFleb_trans x y z :
  SFleb x y = true -> SFleb y z = true -> SFleb x z = true.
Proof.
  unfold SFleb, SFcompare.
  destruct x as [[]|[]| |[] mx ex], y as [[]|[]| |[] my ey], z as [[]|[]| |[] mz ez];
    simpl; try reflexivity; try discriminate; cmp_cases; simpl;
    try reflexivity; try discriminate; intros; subst; try lia.
Qed.

Lemma SFleb_total x y :
  x <> S754_nan -> y <> S754_nan -> SFltb x y = false -> SFleb y x = true.
Proof. unfold SFleb, SFltb, SFcompare. by_shape x y. Qed.

Lemma SFltb_not_leb x y : SFltb x y = true -> SFleb y x = false.
Proof. unfold SFleb, SFltb, SFcompare. by_shape x y. Qed.

Lemma SFltb_leb x y : SFltb x y = true -> SFleb x y = true.
Proof. unfold SFleb, SFltb, SFcompare. by_shape x y. Qed.

Lemma SFeqb_refl x : x <> S754_nan -> SFeqb x x = true.
Proof.
  unfold SFeqb, SFcompare. destruct x as [[]|[]| |[] m e]; simpl;
    try reflexivity; try congruence; intros _;
    rewrite Z.compare_refl;
    change (Pos.compare_cont Eq m m) with (Pos.compare m m);
    rewrite Pos.compare_refl; reflexivity.
Qed.

Lemma SFleb_refl x : x <> S754_nan -> SFleb x x = true.
Proof.
  unfold SFleb, SFcompare. destruct x as [[]|[]| |[] m e]; simpl;
    try reflexivity; try congruence; intros _;
    rewrite Z.compare_refl;
    change (Pos.compare_cont Eq m m) with (Pos.compare m m);
    rewrite Pos.compare_refl; reflexivity.
Qed.

Lemma SFmul_comm x y : SFmul prec emax x y = SFmul prec emax y x.
Proof.
  destruct x as [sx|sx| |sx mx ex], y as [sy|sy| |sy my ey]; simpl;
    try reflexivity; try (rewrite xorb_comm; reflexivity).
  rewrite xorb_comm, Pos.mul_comm, Z.add_comm. reflexivity.
Qed.



(** *** The primitive operations *)

Lemma mul_comm (x y : float) : x * y = y * x.
Proof. apply Prim2SF_inj. rewrite !mul_spec. apply SFmul_comm. Qed.

Lemma is_nan_spec (x : float) :
  is_nan x = match Prim2SF x with S754_nan => true | _ => false end.
Proof.
  unfold is_nan. rewrite eqb_spec.
  destruct (Prim2SF x) eqn:E; try reflexivity;
    rewrite SFeqb_refl by discriminate; reflexivity.
Qed.

Lemma not_nan (x : float) : is_nan x = false -> Prim2SF x <> S754_nan.
Proof. rewrite is_nan_spec. destruct (Prim2SF x); congruence. Qed.

Lemma leb_trans (x y z : float) :
  (x <=? y) = true -> (y <=? z) = true -> (x <=? z) = true.
Proof. rewrite !leb_spec. apply SFleb_trans. Qed.

Lemma leb_total (x y : float) :
  is_nan x = false -> is_nan y = false -> (x <? y) = false -> (y <=? x) = true.
Proof.
  intros Hx Hy. rewrite ltb_spec, leb_spec.
  apply SFleb_total; apply not_nan; assumption.
Qed.

Lemma leb_refl (x : float) : is_nan x = false -> (x <=? x) = true.
Proof. intros Hx. rewrite leb_spec. apply SFleb_refl, not_nan, Hx. Qed.

Lemma eqb_refl (x : float) : is_nan x = false -> (x =? x) = true.
Proof. intros Hx. rewrite eqb_spec. apply SFeqb_refl, not_nan, Hx. Qed.

Lemma ltb_not_leb (x y : float) : (x <? y) = true -> (y <=? x) = false.
Proof. rewrite ltb_spec, leb_spec. apply SFltb_not_leb. Qed.

Lemma ltb_leb (x y : float) : (x <? y) = true -> (x <=? y) = true.
Proof. rewrite ltb_spec, leb_spec. apply SFltb_leb. Qed.

Lemma ltb_not_nan_r (x y : float) : (x <? y) = true -> is_nan y = false.
Proof.
  rewrite ltb_spec, is_nan_spec. unfold SFltb, SFcompare.
  destruct (Prim2SF x), (Prim2SF y); try reflexivity; discriminate.
Qed.





End FloatFacts.

(** * calculateSimilarity *)

Module SimilarityFacts.

Import FloatFacts.
Local Open Scope float_scope.

Lemma similarity_loop_nil_r e1 acc : similarity_loop e1 [] acc = acc.
Proof. destruct e1; reflexivity. Qed.

Lemma similarity_loop_swap e1 : forall e2 d n1 n2,
  similarity_loop e2 e1 {| dotProduct := d; norm1 := n2; norm2 := n1 |} =
  let r := similarity_loop e1 e2 {| dotProduct := d; norm1 := n1; norm2 := n2 |} in
  {| dotProduct := dotProduct r; norm1 := norm2 r; norm2 := norm1 r |}.
Proof.
  induction e1 as [|x e1 IH]; intros e2 d n1 n2.
  - rewrite similarity_loop_nil_r. reflexivity.
  - destruct e2 as [|y e2]; [reflexivity|].
    cbn [similarity_loop dotProduct norm1 norm2].
    rewrite (mul_comm y x). apply IH.
Qed.

Lemma cosine_of_sums_swap d n1 n2 :
  cosine_of_sums {| dotProduct := d; norm1 := n2; norm2 := n1 |} =
  cosine_of_sums {| dotProduct := d; norm1 := n1; norm2 := n2 |}.
Proof.
  unfold cosine_of_sums. cbn [dotProduct norm1 norm2].
  rewrite orb_comm, (mul_comm (Math_sqrt n2)). reflexivity.
Qed.

Lemma similarity_of_arrays_sym e1 e2 :
  similarity_of_arrays e1 e2 = similarity_of_arrays e2 e1.
Proof.
  unfold similarity_of_arrays. rewrite (Nat.eqb_sym (List.length e2)).
  destruct (Nat.eqb (List.length e1) (List.length e2)); [|reflexivity].
  cbn [negb]. rewrite (similarity_loop_swap e1 e2 0 0 0). cbv zeta.
  destruct (similarity_loop e1 e2 _) as [d n1 n2]. cbn [dotProduct norm1 norm2].
  apply cosine_of_sums_swap.
Qed.

(** The degenerate inputs of calculateSimilarity. *)

Lemma calculateSimilarity_not_array a b :
  Array_isArray a = false \/ Array_isArray b = false -> calculateSimilarity a b = 0.
Proof.
  destruct a, b; simpl; try reflexivity; intros [H|H]; discriminate.
Qed.

Lemma calculateSimilarity_length_mismatch e1 e2 :
  List.length e1 <> List.length e2 -> calculateSimilarity (JArray e1) (JArray e2) = 0.
Proof.
  intros H. simpl. unfold similarity_of_arrays.
  apply Nat.eqb_neq in H. rewrite H. reflexivity.
Qed.

Lemma calculateSimilarity_zero_norm e1 e2 :
  let acc := similarity_loop e1 e2 {| dotProduct := 0; norm1 := 0; norm2 := 0 |} in
  (Math_sqrt (norm1 acc) =? 0) = true \/ (Math_sqrt (norm2 acc) =? 0) = true ->
  calculateSimilarity (JArray e1) (JArray e2) = 0.
Proof.
  intros acc H. simpl. unfold similarity_of_arrays.
  destruct (negb _); [reflexivity|]. fold acc. unfold cosine_of_sums.
  destruct H as [H|H]; rewrite H; [|rewrite orb_true_r]; reflexivity.
Qed.

Lemma zero_square (x : float) : x = 0 \/ x = (-0) -> 0 + x * x = 0.
Proof. intros [->| ->]; reflexivity. Qed.

Lemma norm1_of_zeros e1 : forall e2 acc,
  Forall (fun x => x = 0 \/ x = (-0)) e1 -> norm1 acc = 0 ->
  norm1 (similarity_loop e1 e2 acc) = 0.
Proof.
  induction e1 as [|x e1 IH]; intros e2 acc Hz Hacc; [exact Hacc|].
  destruct e2 as [|y e2]; [exact Hacc|].
  inversion Hz; subst. cbn [similarity_loop]. apply IH; [assumption|].
  cbn [norm1]. rewrite Hacc. apply zero_square. assumption.
Qed.

Lemma calculateSimilarity_all_zero e1 e2 :
  Forall (fun x => x = 0 \/ x = (-0)) e1 ->
  calculateSimilarity (JArray e1) (JArray e2) = 0 /\
  calculateSimilarity (JArray e2) (JArray e1) = 0.
Proof.
  intros Hz.
  assert (H : calculateSimilarity (JArray e1) (JArray e2) = 0).
  { apply calculateSimilarity_zero_norm. left.
    rewrite norm1_of_zeros by (assumption || reflexivity). reflexivity. }
  split; [exact H|]. simpl in *. rewrite similarity_of_arrays_sym. exact H.
Qed.

Lemma Math_max_0_sign x :
  Math_max 0 x = 0 \/ (0 <? Math_max 0 x) = true \/ is_nan (Math_max 0 x) = true.
Proof.
  unfold Math_max. change (is_nan 0) with false. cbn [orb].
  destruct (is_nan x); [right; right; reflexivity|].
  destruct (0 <? x) eqn:E; [right; left; exact E|].
  destruct (x <? 0); left; reflexivity.
Qed.

(** The value is never negative: it is the literal 0, a positive number,
    or NaN. *)
Lemma calculateSimilarity_sign a b :
  calculateSimilarity a b = 0 \/ (0 <? calculateSimilarity a b) = true
  \/ is_nan (calculateSimilarity a b) = true.
Proof.
  destruct a, b; simpl; try (left; reflexivity).
  unfold similarity_of_arrays. destruct (negb _); [left; reflexivity|].
  unfold cosine_of_sums. destruct (_ || _)%bool; [left; reflexivity|].
  apply Math_max_0_sign.
Qed.



End SimilarityFacts.

Import SimilarityFacts.

(** C5.  calculateSimilarity is symmetric: swapping the arguments gives the
    same number, whatever the two arguments are.  The value is the same
    binary64 datum, and unless it is NaN the two calls also compare equal
    under [===].  The function is a function of its two arguments alone. *)
Theorem calculateSimilarity_symmetric (a b : value) :
  calculateSimilarity a b = calculateSimilarity b a /\
  (PrimFloat.is_nan (calculateSimilarity a b)
   || (calculateSimilarity a b =? calculateSimilarity b a)%float)%bool = true.
Proof.
  assert (H : calculateSimilarity a b = calculateSimilarity b a).
  { destruct a, b; simpl; try reflexivity. apply similarity_of_arrays_sym. }
  split; [exact H|]. rewrite <- H.
  destruct (PrimFloat.is_nan (calculateSimilarity a b)) eqn:E; [reflexivity|].
  simpl. apply FloatFacts.eqb_refl, E.
Qed.

(** C4 (evaluation at the failing inputs).  On two ordinary vectors that
    point the same way the rounding of the square roots and of the
    quotient makes the result exceed 1; on vectors whose squares overflow
    the result is NaN.  Neither value lies in the interval from 0 to 1. *)
Theorem calculateSimilarity_leaves_unit_interval :
  calculateSimilarity (JArray [4.8; 5.7]%float) (JArray [14.4; 17.1]%float)
    = 1.0000000000000002%float /\
  in_unit_interval
    (calculateSimilarity (JArray [4.8; 5.7]%float) (JArray [14.4; 17.1]%float)) = false /\
  calculateSimilarity (JArray [1e200]%float) (JArray [1e200]%float) = PrimFloat.nan /\
  in_unit_interval
    (calculateSimilarity (JArray [1e200]%float) (JArray [1e200]%float)) = false.
Proof. repeat split; vm_compute; reflexivity. Qed.


(** * The similarity of a vector with itself *)

Module SelfSimilarityFacts.

Import FloatFacts SimilarityFacts.
Local Open Scope float_scope.




End SelfSimilarityFacts.



(** * generateSimpleImageFeatures *)

Module FallbackFacts.

Local Open Scope float_scope.

Lemma byte_sample_in_unit_interval (b : byte) :
  in_unit_interval (of_byte b / 255) = true.
Proof. destruct b; vm_compute; reflexivity. Qed.

Lemma size_feature_in_unit_interval (len : nat) :
  in_unit_interval (of_Z (Z.of_nat len mod 1000) / 1000) = true.
Proof.
  assert (A : forallb (fun n => in_unit_interval (of_Z (Z.of_nat n) / 1000)) (seq 0 1000)
              = true) by (vm_compute; reflexivity).
  rewrite forallb_forall in A.
  specialize (A (Z.to_nat (Z.of_nat len mod 1000))).
  rewrite Z2Nat.id in A by (apply Z.mod_pos_bound; lia).
  apply A, in_seq.
  pose proof (Z.mod_pos_bound (Z.of_nat len) 1000 ltac:(lia)). lia.
Qed.

Lemma sample_index_in_range (i len : nat) :
  (i < 128)%nat -> (0 < len)%nat ->
  (0 <= sample_index i len < Z.of_nat len)%Z.
Proof.
  intros Hi Hlen. unfold sample_index. split.
  - apply Z.div_pos; lia.
  - apply Z.div_lt_upper_bound; nia.
Qed.

Lemma sample_in_unit_interval (bytes : list byte) (i : nat) :
  bytes <> [] -> (i < 128)%nat ->
  in_unit_interval (sample bytes (sample_index i (List.length bytes))) = true.
Proof.
  intros Hne Hi.
  assert (Hlen : (0 < List.length bytes)%nat) by (destruct bytes; simpl; [congruence|lia]).
  pose proof (sample_index_in_range i _ Hi Hlen) as [H0 H1].
  unfold sample.
  destruct (Z.ltb_spec (sample_index i (List.length bytes)) 0); [lia|].
  destruct (nth_error bytes (Z.to_nat (sample_index i (List.length bytes)))) eqn:E.
  - apply byte_sample_in_unit_interval.
  - apply nth_error_None in E. lia.
Qed.

Lemma features_length (bytes : list byte) :
  List.length (generateSimpleImageFeatures (Buffer bytes)) = 129%nat.
Proof.
  unfold generateSimpleImageFeatures, generateSimpleImageFeatures_try.
  rewrite length_app, length_map, length_seq. reflexivity.
Qed.

Lemma features_in_unit_interval (bytes : list byte) :
  bytes <> [] ->
  Forall (fun x => in_unit_interval x = true)
    (generateSimpleImageFeatures (Buffer bytes)).
Proof.
  intros Hne. unfold generateSimpleImageFeatures, generateSimpleImageFeatures_try.
  apply Forall_app. split.
  - constructor; [apply size_feature_in_unit_interval|constructor].
  - apply Forall_forall. intros x Hx. apply in_map_iff in Hx as (i & <- & Hi).
    apply sample_in_unit_interval; [assumption|]. apply in_seq in Hi. lia.
Qed.

End FallbackFacts.

(** C10 (counterexample).  For the empty buffer every sampled byte is read
    outside the buffer, so the 128 samples are NaN and do not lie between
    0 and 1. *)
Lemma fallback_features_of_empty_buffer :
  generateSimpleImageFeatures (Buffer []) = 0%float :: repeat PrimFloat.nan 128 /\
  ~ Forall (fun x => in_unit_interval x = true) (generateSimpleImageFeatures (Buffer [])).
Proof.
  assert (E : generateSimpleImageFeatures (Buffer []) = 0%float :: repeat PrimFloat.nan 128)
    by (vm_compute; reflexivity).
  split; [exact E|]. rewrite E. intros H.
  inversion H as [|? ? _ H1]; subst. inversion H1 as [|? ? H2 _]; subst.
  vm_compute in H2. discriminate.
Qed.

(** C10 (amended).  On its normal path the fallback fingerprint has 129
    entries for every buffer, and for every non-empty buffer each entry
    lies between 0 and 1; without a buffer the function returns 128
    zeros; and the similarity of a normal-path fingerprint with any vector
    of 128 entries is 0. *)
Theorem fallback_features_shape
    (first : byte) (rest bytes : list byte) (descriptor : list number) :
  List.length descriptor = 128%nat ->
  List.length (generateSimpleImageFeatures (Buffer bytes)) = 129%nat /\
  Forall (fun x => in_unit_interval x = true)
    (generateSimpleImageFeatures (Buffer (first :: rest))) /\
  generateSimpleImageFeatures NoBuffer = repeat 0%float 128 /\
  calculateSimilarity (JArray (generateSimpleImageFeatures (Buffer bytes)))
    (JArray descriptor) = 0%float /\
  calculateSimilarity (JArray descriptor)
    (JArray (generateSimpleImageFeatures (Buffer bytes))) = 0%float.
Proof.
  intros Hd. split; [apply FallbackFacts.features_length|].
  split; [apply FallbackFacts.features_in_unit_interval; discriminate|].
  split; [reflexivity|].
  split; apply calculateSimilarity_length_mismatch;
    rewrite FallbackFacts.features_length, Hd; discriminate.
Qed.

Lemma fallback_features_shape_witness :
  List.length (generateSimpleImageFeatures (Buffer [x01; xff]%byte)) = 129%nat /\
  Forall (fun x => in_unit_interval x = true)
    (generateSimpleImageFeatures (Buffer [x89; x50]%byte)) /\
  generateSimpleImageFeatures NoBuffer = repeat 0%float 128 /\
  calculateSimilarity (JArray (generateSimpleImageFeatures (Buffer [x01; xff]%byte)))
    (JArray (repeat 0.5%float 128)) = 0%float /\
  calculateSimilarity (JArray (repeat 0.5%float 128))
    (JArray (generateSimpleImageFeatures (Buffer [x01; xff]%byte))) = 0%float.
Proof.
  apply (fallback_features_shape x89 [x50]%byte [x01; xff]%byte (repeat 0.5%float 128)).
  reflexivity.
Defined.

(** * processImageForMatching *)

(** C7 (evaluation at the failing inputs).  When the download fails, when
    the image does not decode, or when the face detector fails, the
    [catch] block runs and throws a ReferenceError: the call ends with an
    error instead of a feature vector. *)
Theorem processImageForMatching_propagates
    (models loaded : bool) (error : string) (bytes : list byte)
    (decode : list byte -> completion unit)
    (detect : list byte -> completion (list (list number))) :
  fst (processImageForMatching
         {| models_on_disk := models; fetch_buffer := Throw error;
            decode_image := decode; detect_faces := detect |} loaded)
    = Throw "ReferenceError: buffer is not defined" /\
  fst (processImageForMatching
         {| models_on_disk := models; fetch_buffer := Normal bytes;
            decode_image := fun _ => Throw error; detect_faces := detect |} loaded)
    = Throw "ReferenceError: buffer is not defined" /\
  fst (processImageForMatching
         {| models_on_disk := true; fetch_buffer := Normal bytes;
            decode_image := fun _ => Normal tt;
            detect_faces := fun _ => Throw error |} loaded)
    = Throw "ReferenceError: buffer is not defined".
Proof.
  repeat split; unfold processImageForMatching, processImageForMatching_try, loadModels;
    simpl; destruct loaded; try destruct models; reflexivity.
Qed.

(** The paths that do degrade to the fallback: models that fail to load,
    and an image without a face. *)
Lemma processImageForMatching_fallback (loaded : bool) (bytes : list byte)
    (detect : list byte -> completion (list (list number))) :
  fst (processImageForMatching
         {| models_on_disk := false; fetch_buffer := Normal bytes;
            decode_image := fun _ => Normal tt; detect_faces := detect |} false)
    = Normal (generateSimpleImageFeatures (Buffer bytes)) /\
  fst (processImageForMatching
         {| models_on_disk := true; fetch_buffer := Normal bytes;
            decode_image := fun _ => Normal tt;
            detect_faces := fun _ => Normal [] |} loaded)
    = Normal (generateSimpleImageFeatures (Buffer bytes)).
Proof.
  split; unfold processImageForMatching, processImageForMatching_try, loadModels;
    simpl; destruct loaded; reflexivity.
Qed.

(** * compareTwoFaces *)

(** C9.  The face matcher's boolean answer is mapped to a confidence: a
    match gives 95 and no match gives 30, with [success] true; a failed
    download or a failed service call gives
    [{success: false, match: false, confidence: 0}].  In all these cases
    the function returns a result; only a failure to create the directory
    of the temporary files, before the [try] block, is thrown. *)
Theorem compareTwoFaces_confidence (o : oracle) (image1Url image2Url : string) :
  match o image1Url image2Url with
  | ServiceReplies true error =>
      compareTwoFaces o image1Url image2Url =
      Normal {| success := true; is_match := true;
                face_confidence := 95%float; face_error := error |}
  | ServiceReplies false error =>
      compareTwoFaces o image1Url image2Url =
      Normal {| success := true; is_match := false;
                face_confidence := 30%float; face_error := error |}
  | DownloadFails message =>
      compareTwoFaces o image1Url image2Url =
      Normal {| success := false; is_match := false; face_confidence := 0%float;
                face_error := Some ("Failed to download image: " ++ message)%string |}
  | ServiceFails message =>
      compareTwoFaces o image1Url image2Url =
      Normal {| success := false; is_match := false; face_confidence := 0%float;
                face_error := Some message |}
  | TempDirFails message =>
      compareTwoFaces o image1Url image2Url = Throw message
  end.
Proof.
  unfold compareTwoFaces, compareTwoFaces_try.
  destruct (o image1Url image2Url) as [m|m|[] err|m]; reflexivity.
Qed.

(** * The best score of a candidate *)

Module BestScoreFacts.

Import FloatFacts.
Local Open Scope float_scope.

Lemma against_target_images_fold sourceVector targetImages : forall best,
  against_target_images sourceVector targetImages best =
  fold_left better
    (flat_map
       (fun targetImage =>
          match usable_vector targetImage with
          | None => []
          | Some targetVector =>
              [calculateSimilarity (JArray sourceVector) (JArray targetVector)]
          end) targetImages) best.
Proof.
  unfold against_target_images.
  induction targetImages as [|t ts IH]; intros best; [reflexivity|].
  cbn [fold_left flat_map]. rewrite fold_left_app, IH.
  destruct (usable_vector t); reflexivity.
Qed.

Lemma bestSimilarity_from sourceImages targetImages : forall best,
  fold_left
    (fun best sourceImage =>
       match usable_vector sourceImage with
       | None => best
       | Some sourceVector => against_target_images sourceVector targetImages best
       end) sourceImages best =
  fold_left better (comparable_scores sourceImages targetImages) best.
Proof.
  unfold comparable_scores.
  induction sourceImages as [|s ss IH]; intros best; [reflexivity|].
  cbn [fold_left flat_map]. rewrite fold_left_app, IH.
  destruct (usable_vector s); [|reflexivity].
  rewrite against_target_images_fold. reflexivity.
Qed.

Lemma bestSimilarity_fold sourceImages targetImages :
  bestSimilarity sourceImages targetImages =
  fold_left better (comparable_scores sourceImages targetImages) 0.
Proof. apply bestSimilarity_from. Qed.

(** The running maximum: it is never NaN, never decreases, bounds every
    score that is a number, and is the start value or one of the scores. *)
Lemma fold_better_spec (scores : list number) : forall start,
  is_nan start = false ->
  let best := fold_left better scores start in
  is_nan best = false /\
  (start <=? best) = true /\
  Forall (fun s => (is_nan s || (s <=? best))%bool = true) scores /\
  (best = start \/ In best scores).
Proof.
  induction scores as [|s scores IH]; intros start Hstart; cbn [fold_left]; cbv zeta.
  - repeat split; auto using leb_refl.
  - change (better start s) with (if start <? s then s else start).
    destruct (start <? s) eqn:E.
    + destruct (IH s (ltb_not_nan_r _ _ E)) as (Hn & Hle & Hall & Hin).
      repeat split.
      * exact Hn.
      * apply (leb_trans _ s); [apply ltb_leb, E|exact Hle].
      * constructor; [|exact Hall]. rewrite Hle. apply orb_true_r.
      * right. destruct Hin as [->|Hin]; [left; reflexivity|right; exact Hin].
    + destruct (IH start Hstart) as (Hn & Hle & Hall & Hin).
      repeat split; try assumption.
      * constructor; [|exact Hall].
        destruct (is_nan s) eqn:Hs; [reflexivity|]. cbn [orb].
        apply (leb_trans _ start); [apply leb_total; assumption|exact Hle].
      * destruct Hin as [->|Hin]; [left; reflexivity|right; right; exact Hin].
Qed.

Lemma comparable_scores_sign sourceImages targetImages :
  Forall (fun s => s = 0 \/ (0 <? s) = true \/ is_nan s = true)
    (comparable_scores sourceImages targetImages).
Proof.
  unfold comparable_scores. apply Forall_forall. intros s Hs.
  apply in_flat_map in Hs as (si & _ & Hs).
  destruct (usable_vector si); [|contradiction].
  apply in_flat_map in Hs as (ti & _ & Hs).
  destruct (usable_vector ti); [|contradiction].
  destruct Hs as [<-|[]]. apply calculateSimilarity_sign.
Qed.

Lemma zero_or_all_nan (scores : list number) :
  Forall (fun s => s = 0 \/ (0 <? s) = true \/ is_nan s = true) scores ->
  Forall (fun s => (is_nan s || (s <=? 0))%bool = true) scores ->
  In 0 scores \/ Forall (fun s => is_nan s = true) scores.
Proof.
  induction 1 as [|s scores Hs _ IH]; intros Hb; [right; constructor|].
  inversion Hb as [|? ? Hs0 Hb']; subst.
  destruct Hs as [->|[Hpos|Hnan]].
  - left. left. reflexivity.
  - rewrite (ltb_not_leb _ _ Hpos), orb_false_r in Hs0.
    rewrite (ltb_not_nan_r _ _ Hpos) in Hs0. discriminate.
  - destruct (IH Hb') as [Hin|Hall]; [left; right; exact Hin|].
    right. constructor; assumption.
Qed.

End BestScoreFacts.

(** * The match records under the accept paths *)

Module StoreFacts.

Lemma same_pair_true p f m : same_pair p f m = true <-> pair_key m = (p, f).
Proof.
  unfold same_pair, pair_key. rewrite andb_true_iff, !String.eqb_eq.
  split; [intros [-> ->]; reflexivity|intros H; inversion H; auto].
Qed.

Lemma find_same_pair_none p f ms :
  find (same_pair p f) ms = None <-> ~ In (p, f) (map pair_key ms).
Proof.
  induction ms as [|m ms IH]; simpl; [tauto|].
  destruct (same_pair p f m) eqn:E.
  - apply same_pair_true in E. split; [discriminate|]. intros H. exfalso. auto.
  - rewrite IH. split; [|tauto]. intros H [H1|H1]; [|tauto].
    apply same_pair_true in H1. congruence.
Qed.

Lemma find_same_pair_some p f ms m :
  find (same_pair p f) ms = Some m -> In m ms /\ pair_key m = (p, f).
Proof. intros H. apply find_some in H as [H1 H2]. apply same_pair_true in H2. auto. Qed.

Lemma records_for_at_most_one p f ms :
  NoDup (map pair_key ms) -> (List.length (filter (same_pair p f) ms) <= 1)%nat.
Proof.
  induction ms as [|m ms IH]; simpl; intros H; [lia|].
  inversion H as [|? ? Hm Hms]; subst.
  destruct (same_pair p f m) eqn:E; [|auto].
  apply same_pair_true in E. simpl.
  assert (N : filter (same_pair p f) ms = []).
  { destruct (filter (same_pair p f) ms) as [|m' l] eqn:F; [reflexivity|].
    assert (Hin : In m' (filter (same_pair p f) ms)) by (rewrite F; left; reflexivity).
    apply filter_In in Hin as [Hin Hp]. apply same_pair_true in Hp.
    exfalso. apply Hm. rewrite E, <- Hp. apply in_map, Hin. }
  rewrite N. simpl. lia.
Qed.



Lemma is_report_id_in table r : In r table -> is_report_id table (report_id r) = true.
Proof.
  intros H. unfold is_report_id. apply existsb_exists. exists r.
  split; [exact H|apply String.eqb_refl].
Qed.

Lemma is_report_id_found table reportId r :
  find (fun r => String.eqb (report_id r) reportId) table = Some r ->
  is_report_id table reportId = true.
Proof.
  intros H. apply find_some in H as [H1 H2]. apply String.eqb_eq in H2. subst.
  apply is_report_id_in, H1.
Qed.

End StoreFacts.

Module VectorPathFacts.

Import StoreFacts.

Ltac run_step H :=
  match type of H with
  | context [if db_fails ?e ?c then _ else _] => destruct (db_fails e c) eqn:?
  | context [if notify_fails ?e ?n then _ else _] => destruct (notify_fails e n) eqn:?
  | context [if stored_on_failure ?e ?n then _ else _] =>
      destruct (stored_on_failure e n) eqn:?
  | context [if stored_before_failure ?e ?n then _ else _] =>
      destruct (stored_before_failure e n) eqn:?
  | context [match find ?p ?l with _ => _ end] => destruct (find p l) eqn:?
  end; cbn in H.

Ltac run_cases H := cbn in H; repeat run_step H.

Lemma candidate_key_eq reportId reportType tgt :
  candidate_key reportId reportType tgt =
  (if String.eqb reportType "PARENT" then reportId else report_id tgt,
   if String.eqb reportType "PARENT" then report_id tgt else reportId).
Proof. unfold candidate_key. destruct (String.eqb reportType "PARENT"); reflexivity. Qed.

(** One round of the candidate loop: the reports are left alone, and the
    records either stay as they are or gain one PENDING record for a pair
    that had none. *)
Lemma process_target_run e reportId reportType src tgt ms w r w' :
  process_target e reportId reportType src tgt ms w = (r, w') ->
  forall key, key = candidate_key reportId reportType tgt ->
  parentReports w' = parentReports w /\ finderReports w' = finderReports w /\
  (matchedCases w' = matchedCases w \/
   (accepted (images src) (images tgt) = true /\
    ~ In key (pair_keys w) /\
    exists m, matchedCases w' = matchedCases w ++ [m] /\ pair_key m = key /\
              status m = MatchStatus.PENDING /\
              matchConfidence m = bestSimilarity (images src) (images tgt) /\
              notificationSent m = false)) /\
  (is_normal r = true -> accepted (images src) (images tgt) = true ->
   In key (pair_keys w')) /\
  (accepted (images src) (images tgt) = false \/ In key (pair_keys w) -> w' = w).
Proof.
  intros H key ->. rewrite candidate_key_eq.
  unfold process_target in H.
  destruct (accepted (images src) (images tgt)) eqn:Hacc.
  2:{ inversion H; subst. repeat split; auto; try discriminate. }
  set (p := if String.eqb reportType "PARENT" then reportId else report_id tgt) in *.
  set (f := if String.eqb reportType "PARENT" then report_id tgt else reportId) in *.
  clearbody p f.
  unfold bind, matchedCase_findFirst, matchedCase_create, sendNotification, db, bind, ret, throw in H.
  run_cases H; inversion H; subst; clear H; cbn.
  all: repeat split; auto; try discriminate.
  all: try match goal with
       | H : find _ _ = None |- _ => apply find_same_pair_none in H
       | H : find _ _ = Some _ |- _ => apply find_same_pair_some in H as [? ?]
       end.
  all: try (intros _ _; unfold pair_keys;
            first [ rewrite map_app, in_app_iff; right; left; reflexivity
                  | match goal with Hk : pair_key _ = _ |- _ => rewrite <- Hk end;
                    apply in_map; assumption ]).
  all: try (intros [?|?]; [discriminate|contradiction]).
  all: right; repeat split; auto; eexists; repeat split; reflexivity.
Qed.


(** The whole candidate loop: records are only appended, one PENDING record
    per accepted candidate whose pair had none. *)
Lemma process_targets_run e reportId reportType src : forall targets ms w r w',
  process_targets e reportId reportType src targets ms w = (r, w') ->
  parentReports w' = parentReports w /\ finderReports w' = finderReports w /\
  (exists added, matchedCases w' = matchedCases w ++ added /\
     NoDup (map pair_key added) /\
     Forall (fun m => ~ In (pair_key m) (pair_keys w) /\
               status m = MatchStatus.PENDING /\
               exists t, In t targets /\ accepted (images src) (images t) = true /\
                         pair_key m = candidate_key reportId reportType t /\
                         matchConfidence m = bestSimilarity (images src) (images t))
       added) /\
  (is_normal r = true -> forall t, In t targets ->
     accepted (images src) (images t) = true ->
     In (candidate_key reportId reportType t) (pair_keys w')) /\
  ((forall t, In t targets -> accepted (images src) (images t) = true ->
      In (candidate_key reportId reportType t) (pair_keys w)) -> w' = w).
Proof.
  induction targets as [|t rest IH]; intros ms w r w' H.
  - inversion H; subst. repeat split; auto.
    + exists []. rewrite app_nil_r. repeat split; constructor.
    + intros _ t [].
  - cbn [process_targets] in H. unfold bind in H.
    destruct (process_target e reportId reportType src t ms w) as [[ms1|err] w1] eqn:E1.
    all: pose proof (process_target_run _ _ _ _ _ _ _ _ _ E1 _ eq_refl)
           as (Hp1 & Hf1 & Hm1 & Hn1 & Hs1).
    + destruct (IH _ _ _ _ H) as (Hp2 & Hf2 & (added2 & Hm2 & Hnd2 & Hall2) & Hn2 & Hs2).
      split; [congruence|]. split; [congruence|]. split; [|split].
      * destruct Hm1 as [Hm1 | (Hacc & Hnot & m & Hm1 & Hk & Hst & Hconf & _)].
        -- exists added2. rewrite Hm2, Hm1. split; [reflexivity|]. split; [exact Hnd2|].
           eapply Forall_impl; [|exact Hall2]. cbn. intros m0 (A & B & t0 & C & D).
           unfold pair_keys in *. rewrite Hm1 in A. split; [exact A|].
           split; [exact B|]. exists t0. split; [right; exact C|exact D].
        -- exists (m :: added2). rewrite Hm2, Hm1, <- app_assoc.
           split; [reflexivity|]. split.
           ++ cbn. constructor; [|exact Hnd2]. intros Hin.
              apply in_map_iff in Hin as (m0 & Hk0 & Hin0).
              rewrite Forall_forall in Hall2. destruct (Hall2 _ Hin0) as (A & _).
              apply A. unfold pair_keys. rewrite Hm1, map_app, in_app_iff.
              right. left. congruence.
           ++ constructor.
              ** split; [rewrite Hk; exact Hnot|]. split; [exact Hst|].
                 exists t. repeat split; auto. left; reflexivity.
              ** eapply Forall_impl; [|exact Hall2]. cbn.
                 intros m0 (A & B & t0 & C & D). split.
                 { intros X. apply A. unfold pair_keys in *.
                   rewrite Hm1, map_app, in_app_iff. left. exact X. }
                 split; [exact B|]. exists t0. split; [right; exact C|exact D].
      * intros Hr t0 [<-|Hin] Hacc.
        -- specialize (Hn1 eq_refl Hacc). unfold pair_keys in *.
           rewrite Hm2, map_app, in_app_iff. left; exact Hn1.
        -- apply Hn2; assumption.
      * intros Hall. assert (w1 = w).
        { apply Hs1. destruct (accepted (images src) (images t)) eqn:A;
            [right; apply Hall; [left; reflexivity|exact A]|left; reflexivity]. }
        subst w1. apply Hs2. intros t0 Hin. apply Hall. right; exact Hin.
    + inversion H; subst. split; [exact Hp1|]. split; [exact Hf1|]. split; [|split].
      * destruct Hm1 as [Hm1 | (Hacc & Hnot & m & Hm1 & Hk & Hst & Hconf & _)].
        -- exists []. rewrite app_nil_r. repeat split; auto; constructor.
        -- exists [m]. split; [exact Hm1|].
           split; [cbn; constructor; [intros []|constructor]|].
           constructor; [|constructor]. split; [rewrite Hk; exact Hnot|].
           split; [exact Hst|]. exists t. repeat split; auto. left; reflexivity.
      * discriminate.
      * intros Hall. apply Hs1.
        destruct (accepted (images src) (images t)) eqn:A;
          [right; apply Hall; [left; reflexivity|exact A]|left; reflexivity].
Qed.


Lemma load_reports_run e reportId reportType w r w' :
  load_reports e reportId reportType w = (r, w') ->
  w' = w /\
  match r with
  | Normal (src, targets) =>
      find (fun r => String.eqb (report_id r) reportId) (source_table reportType w)
        = Some src /\
      targets = filter (is_candidate reportId) (target_table reportType w)
  | Throw _ => True
  end.
Proof.
  unfold load_reports, source_table, target_table.
  destruct (String.eqb reportType "PARENT") eqn:EP;
    [|destruct (String.eqb reportType "FINDER") eqn:EF].
  all: unfold bind, report_findUnique, report_findMany_active, db, ret, throw.
  all: intros H; run_cases H; inversion H; subst; clear H; auto.
Qed.


Lemma candidate_key_canonical reportId reportType w src t :
  find (fun r => String.eqb (report_id r) reportId) (source_table reportType w) = Some src ->
  In t (target_table reportType w) ->
  canonical w (candidate_key reportId reportType t).
Proof.
  unfold source_table, target_table, candidate_key, canonical.
  destruct (String.eqb reportType "PARENT"); cbn; intros Hs Ht;
    split; eauto using is_report_id_found, is_report_id_in.
Qed.

(** A run of findMatches: the reports are left alone and records are only
    appended, each PENDING, under a canonical pair that had no record. *)
Lemma findMatches_run e reportId reportType w r w' :
  findMatches e reportId reportType w = (r, w') ->
  parentReports w' = parentReports w /\ finderReports w' = finderReports w /\
  (exists added, matchedCases w' = matchedCases w ++ added /\
     NoDup (map pair_key added) /\
     Forall (fun m => ~ In (pair_key m) (pair_keys w) /\
               status m = MatchStatus.PENDING /\
               canonical w (pair_key m)) added) /\
  (is_normal r = true ->
   exists src,
     find (fun r => String.eqb (report_id r) reportId) (source_table reportType w)
       = Some src /\
     forall t, In t (target_table reportType w) -> is_candidate reportId t = true ->
       accepted (images src) (images t) = true ->
       In (candidate_key reportId reportType t) (pair_keys w')) /\
  (forall src,
     find (fun r => String.eqb (report_id r) reportId) (source_table reportType w)
       = Some src ->
     (forall t, In t (target_table reportType w) -> is_candidate reportId t = true ->
        accepted (images src) (images t) = true ->
        In (candidate_key reportId reportType t) (pair_keys w)) ->
     matchedCases w' = matchedCases w).
Proof.
  unfold findMatches, try_catch, bind at 1.
  destruct (load_reports e reportId reportType w) as [[[src targets]|err] w0] eqn:EL;
    apply load_reports_run in EL as [-> EL].
  2:{ cbn. intros H; inversion H; subst; clear H. cbn.
      repeat split; auto; try discriminate.
      exists []. rewrite app_nil_r. repeat split; constructor. }
  destruct EL as [Hsrc ->]. cbn [fst snd]. unfold bind at 1.
  destruct (process_targets e reportId reportType src
              (filter (is_candidate reportId) (target_table reportType w)) [] w)
    as [[ms|err] w1] eqn:EP;
    apply process_targets_run in EP as (Hp & Hf & (added & Hm & Hnd & Hall) & Hn & Hs).
  all: cbn; intros H; inversion H; subst; clear H; cbn.
  all: split; [exact Hp|]; split; [exact Hf|]; split; [|split].
  all: try discriminate.
  all: try (exists added; split; [exact Hm|]; split; [exact Hnd|];
            eapply Forall_impl; [|exact Hall]; cbn;
            intros m (A & B & t & C & _ & D & _); split; [exact A|]; split; [exact B|];
            rewrite D; apply filter_In in C as [C _];
            eapply candidate_key_canonical; eassumption).
  - intros _. exists src. split; [exact Hsrc|]. intros t Ht Hc Ha.
    apply (Hn eq_refl); [apply filter_In; auto|exact Ha].
  - intros src' Hsrc' Hpresent. rewrite Hsrc in Hsrc'. inversion Hsrc'; subst src'.
    rewrite Hs; [reflexivity|]. intros t Ht Ha. apply filter_In in Ht as [Ht Hc].
    apply Hpresent; assumption.
  - intros src' Hsrc' Hpresent. rewrite Hsrc in Hsrc'. inversion Hsrc'; subst src'.
    rewrite Hs; [reflexivity|]. intros t Ht Ha. apply filter_In in Ht as [Ht Hc].
    apply Hpresent; assumption.
Qed.

End VectorPathFacts.

Module ControllerFacts.

Import StoreFacts VectorPathFacts.






Lemma update_first_map {B} (proj : MatchedCase -> B) matchId change :
  (forall m, proj (change m) = proj m) ->
  forall ms m' ms', update_first matchId change ms = Some (m', ms') ->
  map proj ms' = map proj ms.
Proof.
  intros Hc. induction ms as [|m ms IH]; cbn; intros m' ms' H; [discriminate|].
  destruct (Nat.eqb (id m) matchId).
  - inversion H; subst. cbn. rewrite Hc. reflexivity.
  - destruct (update_first matchId change ms) as [[m1 ms1]|] eqn:E; [|discriminate].
    inversion H; subst. cbn. f_equal. eapply IH. reflexivity.
Qed.


(** The notification block of the list handlers always completes: a failed
    dispatch, or a failed update of the flag, is logged and swallowed, and
    no record changes except for its notification flag. *)
Lemma notify_both_run e parentReport finderReport matchRecord matchResult w r w' :
  notify_both e parentReport finderReport matchRecord matchResult w = (r, w') ->
  r = Normal tt /\
  parentReports w' = parentReports w /\ finderReports w' = finderReports w /\
  map core (matchedCases w') = map core (matchedCases w) /\
  pair_keys w' = pair_keys w /\ nextId w' = nextId w.
Proof.
  unfold notify_both, try_catch, bind, sendNotification, matchedCase_update,
    console_error, db, bind, ret, throw.
  intros H. run_cases H.
  all: try (inversion H; subst; clear H; cbn; repeat split; auto; fail).
  destruct (update_first _ _ _) as [[m1 ms1]|] eqn:EU in H;
    inversion H; subst; clear H; cbn; repeat split; auto.
  - eapply (update_first_map core); [|exact EU]. intros ?; reflexivity.
  - eapply (update_first_map pair_key); [|exact EU]. intros ?; reflexivity.
Qed.








End ControllerFacts.



(** * The upsert step *)

Module UpsertFacts.

Import StoreFacts VectorPathFacts.

Lemma map_unchanged {A} (g : A -> A) (l : list A) :
  (forall x, In x l -> g x = x) -> map g l = l.
Proof.
  induction l as [|x l IH]; cbn; intros H; [reflexivity|].
  rewrite H by (left; reflexivity). f_equal. apply IH. intros; apply H; right; assumption.
Qed.

(** With unique ids, [update] changes the record that has the id and no
    other. *)
Lemma update_first_unique change old : forall ms,
  NoDup (map id ms) -> In old ms ->
  update_first (id old) change ms =
  Some (change old, map (fun m => if Nat.eqb (id m) (id old) then change m else m) ms).
Proof.
  induction ms as [|m ms IH]; cbn; intros Hn Hin; [contradiction|].
  inversion Hn as [|? ? Hm Hms]; subst.
  destruct (Nat.eqb (id m) (id old)) eqn:E.
  - apply Nat.eqb_eq in E.
    assert (m = old).
    { destruct Hin as [H|H]; [exact H|]. exfalso. apply Hm. rewrite E.
      apply in_map, H. }
    subst m. do 3 f_equal. symmetry. apply map_unchanged. intros x Hx.
    destruct (Nat.eqb (id x) (id old)) eqn:Ex; [|reflexivity].
    apply Nat.eqb_eq in Ex. exfalso. apply Hm. rewrite <- Ex. apply in_map, Hx.
  - destruct Hin as [H|H]; [subst; rewrite Nat.eqb_refl in E; discriminate|].
    rewrite (IH Hms H). reflexivity.
Qed.

Lemma filter_map_same_pair p f (g : MatchedCase -> MatchedCase) ms :
  (forall m, pair_key (g m) = pair_key m) ->
  filter (same_pair p f) (map g ms) = map g (filter (same_pair p f) ms).
Proof.
  intros Hg. induction ms as [|m ms IH]; cbn; [reflexivity|].
  assert (E : same_pair p f (g m) = same_pair p f m).
  { unfold same_pair. specialize (Hg m). unfold pair_key in Hg.
    inversion Hg as [[A B]]. rewrite A, B. reflexivity. }
  rewrite E. destruct (same_pair p f m); cbn; rewrite IH; reflexivity.
Qed.

Lemma records_of_found p f ms old :
  NoDup (map pair_key ms) -> find (same_pair p f) ms = Some old ->
  filter (same_pair p f) ms = [old].
Proof.
  intros Hn Hf. pose proof (find_same_pair_some _ _ _ _ Hf) as [Hin Hk].
  pose proof (records_for_at_most_one p f ms Hn) as Hle.
  assert (Ho : In old (filter (same_pair p f) ms)).
  { apply filter_In. split; [exact Hin|]. apply same_pair_true, Hk. }
  destruct (filter (same_pair p f) ms) as [|a [|b l]]; cbn in *; try lia; try tauto.
  destruct Ho as [->|[]]. reflexivity.
Qed.

Lemma filter_none_nil p f ms :
  find (same_pair p f) ms = None -> filter (same_pair p f) ms = [].
Proof.
  induction ms as [|m ms IH]; cbn; [reflexivity|].
  destruct (same_pair p f m); [discriminate|exact IH].
Qed.

Lemma filter_found_cons p f ms old :
  find (same_pair p f) ms = Some old ->
  exists rest, filter (same_pair p f) ms = old :: rest.
Proof.
  induction ms as [|m ms IH]; cbn; [discriminate|].
  destruct (same_pair p f m) eqn:E.
  - intros H; inversion H; subst. eauto.
  - exact IH.
Qed.

End UpsertFacts.

(** C2 (counterexample).  On the vector path the gateway contract fails.
    With no record for (A, B), findMatches accepts B with confidence 1 and
    creates the record with status PENDING, not MATCHED; with a PENDING
    record of confidence 0.8 for (A, B), findMatches accepts B again and
    leaves the record as it is. *)
Lemma findMatches_breaks_upsert_contract :
  accepted (images (active_report "A" "parent-1" [image "a1" [1; 0; 0]%float]))
           (images (active_report "B" "finder-1" [image "b1" [1; 0; 0]%float])) = true /\
  ~ upsert_contract reports_only
      (snd (findMatches reliable "A" "PARENT" reports_only)) "A" "B" 1%float /\
  ~ upsert_contract with_pending_match
      (snd (findMatches reliable "A" "PARENT" with_pending_match)) "A" "B" 1%float.
Proof.
  split; [vm_compute; reflexivity|].
  split; intros (m & E & _ & S & _); vm_compute in E; inversion E; subst;
    discriminate S.
Qed.

(** C2 (amended).  While the store answers, the create-or-update block of
    faceMatchController satisfies the gateway contract for every pair whose
    images matched: an existing record keeps its id and has its confidence
    overwritten and its status set to MATCHED, a missing record is created
    with status MATCHED, and the rest of the loop body changes nothing but
    notification flags.  findMatches of caseService, for a candidate it
    accepts, leaves an existing record as it is and creates a missing
    record with status PENDING and the best score as confidence. *)
Theorem upsert_step_by_path
    (e : env) (w : world) (p f other : string) (parentReport finderReport : Report)
    (minConfidence : number) (summaries : list match_summary)
    (reportId reportType : string) (sourceReport targetReport : Report)
    (matches : list MatchedCase) :
  let matchResult :=
    compareReportImages (face_oracle e) (images parentReport) (images finderReport)
      minConfidence in
  let key := candidate_key reportId reportType targetReport in
  NoDup (pair_keys w) ->
  NoDup (map id (matchedCases w)) ->
  (forall call, db_fails e call = false) ->
  matched matchResult = true ->
  accepted (images sourceReport) (images targetReport) = true ->
  (is_normal (fst (upsert_match e p f matchResult w)) = true /\
   upsert_contract w (snd (upsert_match e p f matchResult w)) p f
     (match_confidence matchResult) /\
   map core (matchedCases
               (snd (match_reports e p f parentReport finderReport other
                       minConfidence summaries w))) =
   map core (matchedCases (snd (upsert_match e p f matchResult w)))) /\
  match records_for (fst key) (snd key) w with
  | _ :: _ =>
      snd (process_target e reportId reportType sourceReport targetReport matches w) = w
  | [] =>
      exists m,
        matchedCases
          (snd (process_target e reportId reportType sourceReport targetReport matches w))
        = matchedCases w ++ [m] /\
        pair_key m = key /\ status m = MatchStatus.PENDING /\
        matchConfidence m = bestSimilarity (images sourceReport) (images targetReport) /\
        notificationSent m = false
  end.
Proof.
  intros matchResult key Hkeys Hids Hdb Hmatched Hacc. split.
  - assert (Hrun :
      is_normal (fst (upsert_match e p f matchResult w)) = true /\
      upsert_contract w (snd (upsert_match e p f matchResult w)) p f
        (match_confidence matchResult)).
    { unfold upsert_match, bind, matchedCase_findFirst, matchedCase_update,
        matchedCase_create, db, bind, ret, throw.
      rewrite ?Hdb. cbn.
      destruct (find (same_pair p f) (matchedCases w)) as [old|] eqn:EF.
      - rewrite ?Hdb. cbn.
        pose proof (StoreFacts.find_same_pair_some _ _ _ _ EF) as [Hin Hk].
        rewrite (UpsertFacts.update_first_unique _ old _ Hids Hin). cbn.
        split; [reflexivity|]. unfold upsert_contract, records_for. cbn.
        rewrite UpsertFacts.filter_map_same_pair
          by (intros m; destruct (Nat.eqb (id m) (id old)); reflexivity).
        rewrite (UpsertFacts.records_of_found p f _ old Hkeys EF). cbn.
        rewrite Nat.eqb_refl. eexists. split; [reflexivity|]. cbn.
        repeat split. rewrite map_map. apply map_ext.
        intros m; destruct (Nat.eqb (id m) (id old)); reflexivity.
      - rewrite ?Hdb. cbn. split; [reflexivity|].
        unfold upsert_contract, records_for. cbn.
        rewrite filter_app, (UpsertFacts.filter_none_nil p f _ EF). cbn.
        unfold same_pair. cbn. rewrite !String.eqb_refl. cbn.
        eexists. split; [reflexivity|]. cbn. repeat split. }
    destruct Hrun as [Hn Hc]. split; [exact Hn|]. split; [exact Hc|].
    unfold match_reports. fold matchResult. rewrite Hmatched. unfold bind at 1.
    destruct (upsert_match e p f matchResult w) as [[m|err] w1] eqn:EU;
      [|discriminate Hn].
    unfold bind at 1.
    destruct (notify_both e parentReport finderReport m matchResult w1) as [r2 w2] eqn:EN.
    apply ControllerFacts.notify_both_run in EN as (-> & _ & _ & Hcore & _).
    cbn. exact Hcore.
  - unfold key. rewrite VectorPathFacts.candidate_key_eq. cbn [fst snd].
    unfold process_target. rewrite Hacc.
    set (p' := if String.eqb reportType "PARENT" then reportId else report_id targetReport).
    set (f' := if String.eqb reportType "PARENT" then report_id targetReport else reportId).
    unfold bind, matchedCase_findFirst, matchedCase_create, sendNotification, db,
      bind, ret, throw.
    rewrite ?Hdb. cbn. unfold records_for.
    destruct (find (same_pair p' f') (matchedCases w)) as [old|] eqn:EF.
    + destruct (UpsertFacts.filter_found_cons _ _ _ _ EF) as [rest ->]. reflexivity.
    + rewrite (UpsertFacts.filter_none_nil _ _ _ EF), ?Hdb. cbn.
      repeat match goal with
      | |- context [if notify_fails ?e ?n then _ else _] =>
          destruct (notify_fails e n); cbn
      | |- context [if stored_before_failure ?e ?n then _ else _] =>
          destruct (stored_before_failure e n); cbn
      end; eexists; repeat split; reflexivity.
Qed.

Lemma upsert_step_by_path_witness :
  upsert_contract with_pending_match
    (snd (upsert_match reliable "A" "B"
            (compareReportImages (face_oracle reliable)
               [image "a1" [1; 0; 0]%float] [image "b1" [1; 0; 0]%float] 85%float)
            with_pending_match))
    "A" "B" 95%float.
Proof.
  apply (upsert_step_by_path reliable with_pending_match "A" "B" "B"
           (active_report "A" "parent-1" [image "a1" [1; 0; 0]%float])
           (active_report "B" "finder-1" [image "b1" [1; 0; 0]%float])
           85%float [] "A" "PARENT"
           (active_report "A" "parent-1" [image "a1" [1; 0; 0]%float])
           (active_report "B" "finder-1" [image "b1" [1; 0; 0]%float]) []).
  - repeat constructor. intros [].
  - repeat constructor. intros [].
  - reflexivity.
  - vm_compute. reflexivity.
  - vm_compute. reflexivity.
Defined.

(** * Failures during a run *)

(** C8 (counterexample).  The candidates B and D of report A are both
    accepted.  When the store rejects the lookup for (A, B), findMatches
    ends with that error and D, which comes after B, is never processed:
    it has no record, although it gets one when nothing fails. *)
Lemma findMatches_aborts_on_store_failure :
  accepted [image "a1" [1; 0; 0]%float] [image "d1" [2; 0; 0]%float] = true /\
  fst (findMatches lookup_of_B_fails "A" "PARENT" reports_only)
    = Throw "PrismaClientKnownRequestError" /\
  records_for "A" "D" (snd (findMatches lookup_of_B_fails "A" "PARENT" reports_only)) = [] /\
  List.length (records_for "A" "D" (snd (findMatches reliable "A" "PARENT" reports_only)))
    = 1%nat.
Proof. repeat split; vm_compute; reflexivity. Qed.

(** What findMatches does when a notification cannot be dispatched for the
    first accepted candidate: the record of that candidate stays, the error
    reaches the caller, and the later candidate D is not processed. *)
Example findMatches_on_notification_failure :
  fst (findMatches notifications_fail "A" "PARENT" reports_only)
    = Throw "notification dispatch failed" /\
  List.length (records_for "A" "B"
                 (snd (findMatches notifications_fail "A" "PARENT" reports_only))) = 1%nat /\
  records_for "A" "D" (snd (findMatches notifications_fail "A" "PARENT" reports_only)) = [].
Proof. repeat split; vm_compute; reflexivity. Qed.

(** How a failing store, or a failing notification, ends a run. *)

Module AbortFacts.

Import StoreFacts VectorPathFacts.

Lemma filter_appended p f ms m :
  pair_key m <> (p, f) ->
  filter (same_pair p f) (ms ++ [m]) = filter (same_pair p f) ms.
Proof.
  intros Hk. rewrite filter_app. cbn.
  destruct (same_pair p f m) eqn:E; [|apply app_nil_r].
  apply same_pair_true in E. contradiction.
Qed.

(** One round of the candidate loop, seen from the store: a record is
    stored only through an insert that the store accepted, the round
    fails when the store rejects the lookup or the insert it needs, and
    without a failing notification the error is the one of the store. *)
Lemma process_target_outcome e reportId reportType src tgt ms w r w' :
  process_target e reportId reportType src tgt ms w = (r, w') ->
  (forall p f, db_fails e (CreateMatch p f) = true ->
     records_for p f w' = records_for p f w) /\
  (forall error, r = Throw error -> (forall n, notify_fails e n = false) ->
     error = "PrismaClientKnownRequestError"%string) /\
  (accepted (images src) (images tgt) = true ->
   forall key, key = candidate_key reportId reportType tgt ->
   db_fails e (FindFirstMatch (fst key) (snd key)) = true \/
   (records_for (fst key) (snd key) w = [] /\
    db_fails e (CreateMatch (fst key) (snd key)) = true) ->
   is_normal r = false).
Proof.
  intros H. unfold process_target in H.
  destruct (accepted (images src) (images tgt)) eqn:Hacc.
  2:{ inversion H; subst. repeat split; auto; discriminate. }
  rewrite candidate_key_eq.
  set (p := if String.eqb reportType "PARENT" then reportId else report_id tgt) in *.
  set (f := if String.eqb reportType "PARENT" then report_id tgt else reportId) in *.
  clearbody p f.
  unfold bind, matchedCase_findFirst, matchedCase_create, sendNotification, db, bind,
    ret, throw in H.
  run_cases H; inversion H; subst; clear H; cbn.
  all: split; [|split].
  all: try (intros error Hr Hnf; inversion Hr; subst;
            first [reflexivity
                  | match goal with
                    | Hn : notify_fails _ _ = true |- _ => rewrite Hnf in Hn; discriminate Hn
                    end]).
  all: try (intros p0 f0 Hc; unfold records_for; cbn;
            first [reflexivity
                  | apply filter_appended; cbn; intros K; inversion K; subst;
                    congruence]).
  all: intros _ key ->; cbn [fst snd]; intros [Hl|[Hn Hc]]; try reflexivity;
    try congruence.
  all: match goal with
       | Hf : find _ _ = Some _ |- _ =>
           destruct (UpsertFacts.filter_found_cons _ _ _ _ Hf) as [l El];
           unfold records_for in Hn; rewrite El in Hn; discriminate Hn
       end.
Qed.

(** The loop ends with an error as soon as the store rejects the lookup
    or the insert for an accepted candidate, wherever the candidate is in
    the list. *)
Lemma process_targets_store_failure e reportId reportType src t :
  accepted (images src) (images t) = true ->
  forall targets ms w,
  In t targets ->
  db_fails e (FindFirstMatch (fst (candidate_key reportId reportType t))
                (snd (candidate_key reportId reportType t))) = true \/
  (records_for (fst (candidate_key reportId reportType t))
     (snd (candidate_key reportId reportType t)) w = [] /\
   db_fails e (CreateMatch (fst (candidate_key reportId reportType t))
                 (snd (candidate_key reportId reportType t))) = true) ->
  exists error w',
    process_targets e reportId reportType src targets ms w = (Throw error, w') /\
    ((forall n, notify_fails e n = false) ->
     error = "PrismaClientKnownRequestError"%string) /\
    (forall p f, db_fails e (CreateMatch p f) = true ->
       records_for p f w' = records_for p f w).
Proof.
  intros Hacc. induction targets as [|t0 rest IH]; intros ms w Hin Hrej; [destruct Hin|].
  cbn [process_targets]. unfold bind.
  destruct (process_target e reportId reportType src t0 ms w) as [[ms1|err] w1] eqn:E1;
    destruct (process_target_outcome _ _ _ _ _ _ _ _ _ E1) as (Hrec & Herr & Hfail).
  - destruct Hin as [->|Hin].
    + specialize (Hfail Hacc _ eq_refl Hrej). discriminate Hfail.
    + destruct (IH ms1 w1 Hin) as (error & w' & Hrun & He & Hr).
      { destruct Hrej as [Hl|[Hn Hc]]; [left; exact Hl|right].
        split; [|exact Hc]. rewrite (Hrec _ _ Hc). exact Hn. }
      exists error, w'. split; [exact Hrun|]. split; [exact He|].
      intros p f Hc. rewrite (Hr _ _ Hc). apply Hrec, Hc.
  - exists err, w1. split; [reflexivity|]. split; [|exact Hrec].
    intros Hnf. apply Herr; [reflexivity|exact Hnf].
Qed.

(** What the caller of findMatches gets when the loop, or the loading of
    the reports, has failed: the same error, after one line in the log. *)
Lemma findMatches_rethrows e reportId reportType w :
  (forall error w1, load_reports e reportId reportType w = (Throw error, w1) ->
     findMatches e reportId reportType w
     = (Throw error, add_console w1 "Error finding matches:")) /\
  (forall loaded w0 error w1,
     load_reports e reportId reportType w = (Normal loaded, w0) ->
     process_targets e reportId reportType (fst loaded) (snd loaded) [] w0
     = (Throw error, w1) ->
     findMatches e reportId reportType w
     = (Throw error, add_console w1 "Error finding matches:")).
Proof.
  split.
  - intros error w1 H. unfold findMatches, try_catch, bind at 1. rewrite H. reflexivity.
  - intros loaded w0 error w1 H1 H2.
    unfold findMatches, try_catch, bind at 1. rewrite H1. unfold bind at 1.
    rewrite H2. reflexivity.
Qed.

Lemma findMatches_store_failure e reportId reportType w src t :
  find (fun r => String.eqb (report_id r) reportId) (source_table reportType w)
    = Some src ->
  In t (target_table reportType w) -> is_candidate reportId t = true ->
  accepted (images src) (images t) = true ->
  db_fails e (FindFirstMatch (fst (candidate_key reportId reportType t))
                (snd (candidate_key reportId reportType t))) = true \/
  (records_for (fst (candidate_key reportId reportType t))
     (snd (candidate_key reportId reportType t)) w = [] /\
   db_fails e (CreateMatch (fst (candidate_key reportId reportType t))
                 (snd (candidate_key reportId reportType t))) = true) ->
  exists error w1,
    findMatches e reportId reportType w
    = (Throw error, add_console w1 "Error finding matches:") /\
    (forall p f, db_fails e (CreateMatch p f) = true ->
       records_for p f w1 = records_for p f w).
Proof.
  intros Hsrc Ht Hc Hacc Hrej.
  destruct (findMatches_rethrows e reportId reportType w) as [Hload Hloop].
  destruct (load_reports e reportId reportType w) as [[[src' targets]|err] w0] eqn:EL.
  - pose proof (load_reports_run _ _ _ _ _ _ EL) as [-> [Hs ->]].
    rewrite Hsrc in Hs. inversion Hs; subst src'.
    destruct (process_targets_store_failure e reportId reportType src t Hacc
                (filter (is_candidate reportId) (target_table reportType w)) [] w)
      as (error & w1 & Hrun & _ & Hrec); [apply filter_In; auto|exact Hrej|].
    exists error, w1. split; [|exact Hrec].
    apply (Hloop _ _ _ _ eq_refl). exact Hrun.
  - pose proof (load_reports_run _ _ _ _ _ _ EL) as [-> _].
    exists err, w. split; [apply Hload; reflexivity|]. reflexivity.
Qed.

(** A notification that fails for a new record ends the loop as well; the
    record stays. *)
Lemma process_targets_notification_failure e reportId reportType src t rest ms w :
  accepted (images src) (images t) = true ->
  db_fails e (FindFirstMatch (fst (candidate_key reportId reportType t))
                (snd (candidate_key reportId reportType t))) = false ->
  db_fails e (CreateMatch (fst (candidate_key reportId reportType t))
                (snd (candidate_key reportId reportType t))) = false ->
  records_for (fst (candidate_key reportId reportType t))
    (snd (candidate_key reportId reportType t)) w = [] ->
  (forall n, matchId n = nextId w -> notify_fails e n = true) ->
  exists w' m,
    process_targets e reportId reportType src (t :: rest) ms w
    = (Throw "notification dispatch failed", w') /\
    matchedCases w' = matchedCases w ++ [m] /\
    pair_key m = candidate_key reportId reportType t.
Proof.
  rewrite candidate_key_eq. cbn [fst snd].
  set (p := if String.eqb reportType "PARENT" then reportId else report_id t).
  set (f := if String.eqb reportType "PARENT" then report_id t else reportId).
  intros Hacc Hl Hc Hn Hnf.
  cbn [process_targets]. unfold bind at 1, process_target. rewrite Hacc.
  fold p f.
  unfold bind, matchedCase_findFirst, matchedCase_create, sendNotification, db, bind,
    ret, throw.
  rewrite Hl. cbn.
  destruct (find (same_pair p f) (matchedCases w)) as [old|] eqn:EF.
  { destruct (UpsertFacts.filter_found_cons _ _ _ _ EF) as [l El].
    unfold records_for in Hn. rewrite El in Hn. discriminate Hn. }
  rewrite Hc. cbn. rewrite Hnf by reflexivity.
  eexists _, _. split; [reflexivity|]. cbn.
  match goal with |- context [if ?b then _ else _] => destruct b end;
    cbn; split; reflexivity.
Qed.

(** The loop stops at the first accepted candidate whose lookup, or
    insert, the store rejects, with the store as it was. *)
Lemma process_target_stops e reportId reportType src t rest ms w :
  accepted (images src) (images t) = true ->
  (db_fails e (FindFirstMatch (fst (candidate_key reportId reportType t))
                 (snd (candidate_key reportId reportType t))) = true ->
   process_targets e reportId reportType src (t :: rest) ms w
   = (Throw "PrismaClientKnownRequestError", w)) /\
  (db_fails e (FindFirstMatch (fst (candidate_key reportId reportType t))
                 (snd (candidate_key reportId reportType t))) = false ->
   records_for (fst (candidate_key reportId reportType t))
     (snd (candidate_key reportId reportType t)) w = [] ->
   db_fails e (CreateMatch (fst (candidate_key reportId reportType t))
                 (snd (candidate_key reportId reportType t))) = true ->
   process_targets e reportId reportType src (t :: rest) ms w
   = (Throw "PrismaClientKnownRequestError", w)).
Proof.
  intros Hacc. rewrite candidate_key_eq. cbn [fst snd]. split.
  - intros Hfail. cbn [process_targets]. unfold bind at 1, process_target.
    rewrite Hacc.
    unfold bind, matchedCase_findFirst, db, bind, ret, throw. rewrite Hfail. reflexivity.
  - intros Hok Hnone Hfail. cbn [process_targets]. unfold bind at 1, process_target.
    rewrite Hacc.
    unfold bind, matchedCase_findFirst, matchedCase_create, db, bind, ret, throw.
    rewrite Hok. cbn.
    destruct (find _ (matchedCases w)) as [old|] eqn:EF.
    + destruct (UpsertFacts.filter_found_cons _ _ _ _ EF) as [l El].
      unfold records_for in Hnone. rewrite El in Hnone. discriminate.
    + rewrite Hfail. reflexivity.
Qed.

End AbortFacts.


(** C8 (amended).  findMatches never takes a record back: whatever fails,
    the records after the run are those before it followed by the added
    ones.  A store failure is not caught per candidate.  When the lookup
    for an accepted candidate is rejected, or its insert is rejected while
    the pair has no record, the run ends with an error: findMatches logs
    "Error finding matches:" and throws, and no record is stored for a
    pair whose insert is rejected.  Whatever error ends the loop, or the
    loading of the reports, is the error findMatches throws to its caller
    after that one line in the log.  The loop itself ends with an error
    wherever such a candidate is in the list, the error being the one of
    the store unless a notification has failed before; when the candidate
    comes first the store is as it was and the remaining candidates are
    not processed.  A notification that fails for a newly stored record
    ends the loop as well, and the record stays.  In the list handlers of
    faceMatchController the notification block always completes, changing
    nothing in the records but notification flags, so the loop body fails
    only if the create-or-update block fails. *)
Theorem findMatches_failure_semantics
    (e : env) (w w2 : world) (reportId reportType p f other : string)
    (sourceReport targetReport parentReport finderReport : Report)
    (rest targets : list Report) (matches : list MatchedCase)
    (matchRecord : MatchedCase) (matchResult : report_match)
    (minConfidence : number) (summaries : list match_summary) :
  let key := candidate_key reportId reportType targetReport in
  let store_rejects :=
    db_fails e (FindFirstMatch (fst key) (snd key)) = true \/
    (records_for (fst key) (snd key) w = [] /\
     db_fails e (CreateMatch (fst key) (snd key)) = true) in
  accepted (images sourceReport) (images targetReport) = true ->
  (exists added,
     matchedCases (snd (findMatches e reportId reportType w)) = matchedCases w ++ added) /\
  (find (fun r => String.eqb (report_id r) reportId) (source_table reportType w)
     = Some sourceReport ->
   In targetReport (target_table reportType w) ->
   is_candidate reportId targetReport = true ->
   store_rejects ->
   exists error w1,
     findMatches e reportId reportType w
     = (Throw error, add_console w1 "Error finding matches:") /\
     (forall p' f', db_fails e (CreateMatch p' f') = true ->
        records_for p' f' w1 = records_for p' f' w)) /\
  (forall loaded w0 error w1,
     load_reports e reportId reportType w = (Normal loaded, w0) ->
     process_targets e reportId reportType (fst loaded) (snd loaded) [] w0
     = (Throw error, w1) ->
     findMatches e reportId reportType w
     = (Throw error, add_console w1 "Error finding matches:")) /\
  (forall error w1,
     load_reports e reportId reportType w = (Throw error, w1) ->
     findMatches e reportId reportType w
     = (Throw error, add_console w1 "Error finding matches:")) /\
  (In targetReport targets -> store_rejects ->
   exists error w1,
     process_targets e reportId reportType sourceReport targets matches w
     = (Throw error, w1) /\
     ((forall n, notify_fails e n = false) ->
      error = "PrismaClientKnownRequestError"%string) /\
     (forall p' f', db_fails e (CreateMatch p' f') = true ->
        records_for p' f' w1 = records_for p' f' w)) /\
  (db_fails e (FindFirstMatch (fst key) (snd key)) = true ->
   process_targets e reportId reportType sourceReport (targetReport :: rest) matches w
   = (Throw "PrismaClientKnownRequestError", w)) /\
  (db_fails e (FindFirstMatch (fst key) (snd key)) = false ->
   records_for (fst key) (snd key) w = [] ->
   db_fails e (CreateMatch (fst key) (snd key)) = true ->
   process_targets e reportId reportType sourceReport (targetReport :: rest) matches w
   = (Throw "PrismaClientKnownRequestError", w)) /\
  (db_fails e (FindFirstMatch (fst key) (snd key)) = false ->
   db_fails e (CreateMatch (fst key) (snd key)) = false ->
   records_for (fst key) (snd key) w = [] ->
   (forall n, matchId n = nextId w -> notify_fails e n = true) ->
   exists w1 m,
     process_targets e reportId reportType sourceReport (targetReport :: rest) matches w
     = (Throw "notification dispatch failed", w1) /\
     matchedCases w1 = matchedCases w ++ [m] /\ pair_key m = key) /\
  fst (notify_both e parentReport finderReport matchRecord matchResult w2) = Normal tt /\
  map core (matchedCases
              (snd (notify_both e parentReport finderReport matchRecord matchResult w2)))
    = map core (matchedCases w2) /\
  is_normal (fst (match_reports e p f parentReport finderReport other minConfidence
                    summaries w2))
    = (negb (matched (compareReportImages (face_oracle e) (images parentReport)
                        (images finderReport) minConfidence))
       || is_normal (fst (upsert_match e p f
                            (compareReportImages (face_oracle e) (images parentReport)
                               (images finderReport) minConfidence) w2)))%bool.
Proof.
  intros key store_rejects Hacc.
  split.
  { destruct (findMatches e reportId reportType w) as [r w'] eqn:E.
    apply VectorPathFacts.findMatches_run in E as (_ & _ & (added & Hm & _) & _).
    exists added. exact Hm. }
  split.
  { intros Hsrc Ht Hc Hrej.
    exact (AbortFacts.findMatches_store_failure e reportId reportType w sourceReport
             targetReport Hsrc Ht Hc Hacc Hrej). }
  split; [apply AbortFacts.findMatches_rethrows|].
  split; [apply AbortFacts.findMatches_rethrows|].
  split.
  { intros Hin Hrej.
    exact (AbortFacts.process_targets_store_failure e reportId reportType sourceReport
             targetReport Hacc targets matches w Hin Hrej). }
  split.
  { intros Hfail.
    destruct (AbortFacts.process_target_stops e reportId reportType sourceReport
                targetReport rest matches w Hacc) as [H _].
    apply H, Hfail. }
  split.
  { intros Hok Hnone Hfail.
    destruct (AbortFacts.process_target_stops e reportId reportType sourceReport
                targetReport rest matches w Hacc) as [_ H].
    apply H; assumption. }
  split.
  { intros Hl Hc Hn Hnf.
    exact (AbortFacts.process_targets_notification_failure e reportId reportType
             sourceReport targetReport rest matches w Hacc Hl Hc Hn Hnf). }
  destruct (notify_both e parentReport finderReport matchRecord matchResult w2)
    as [r w3] eqn:EN.
  apply ControllerFacts.notify_both_run in EN as (-> & _ & _ & Hcore & _).
  split; [reflexivity|]. split; [exact Hcore|].
  unfold match_reports.
  destruct (matched _); [|reflexivity]. cbn [negb orb]. unfold bind at 1.
  destruct (upsert_match e p f _ w2) as [[m|err] w4]; [|reflexivity].
  unfold bind at 1.
  destruct (notify_both e parentReport finderReport m _ w4) as [r5 w5] eqn:EN5.
  apply ControllerFacts.notify_both_run in EN5 as (-> & _). reflexivity.
Qed.

Lemma findMatches_failure_semantics_witness :
  exists error w1,
    findMatches lookup_of_B_fails "A" "PARENT" reports_only
    = (Throw error, add_console w1 "Error finding matches:") /\
    (forall p' f', db_fails lookup_of_B_fails (CreateMatch p' f') = true ->
       records_for p' f' w1 = records_for p' f' reports_only).
Proof.
  refine (proj1 (proj2 (findMatches_failure_semantics lookup_of_B_fails
           reports_only reports_only "A" "PARENT" "A" "B" "B"
           (active_report "A" "parent-1" [image "a1" [1; 0; 0]%float])
           (active_report "B" "finder-1" [image "b1" [1; 0; 0]%float])
           (active_report "A" "parent-1" [image "a1" [1; 0; 0]%float])
           (active_report "B" "finder-1" [image "b1" [1; 0; 0]%float])
           [active_report "D" "finder-3" [image "d1" [2; 0; 0]%float]] [] []
           {| id := 0; parentCaseId := "A"; finderCaseId := "B";
              status := MatchStatus.MATCHED; matchConfidence := 95%float;
              notificationSent := false |}
           no_match 85%float [] _)) _ _ _ _).
  - vm_compute. reflexivity.
  - reflexivity.
  - left. reflexivity.
  - reflexivity.
  - left. reflexivity.
Defined.

(** * Worked scenarios *)

(** The degenerate inputs of the similarity: an empty vector against a
    non-empty one, vectors of different lengths, two all-zero vectors, two
    empty vectors, and an argument that is not an array. *)
Example similarity_of_degenerate_inputs :
  calculateSimilarity (JArray []) (JArray [1; 2; 3]%float) = 0%float /\
  calculateSimilarity (JArray [1; 2]%float) (JArray [1; 2; 3]%float) = 0%float /\
  calculateSimilarity (JArray [0; 0; 0]%float) (JArray [0; 0; 0]%float) = 0%float /\
  calculateSimilarity (JArray []) (JArray []) = 0%float /\
  calculateSimilarity JUndefined (JArray [1; 2; 3]%float) = 0%float /\
  calculateSimilarity (JArray [1; 2; 3]%float) (JString "1,2,3") = 0%float.
Proof. repeat split; vm_compute; reflexivity. Qed.

(** Equal directions score 1, orthogonal directions 0.5 and opposite
    directions 0; with two source images the better one counts. *)
Example best_scores_of_the_scenarios :
  bestSimilarity [image "a1" [1; 0; 0]%float] [image "b1" [1; 0; 0]%float] = 1%float /\
  bestSimilarity [image "a1" [1; 0; 0]%float] [image "c1" [0; 1; 0]%float] = 0.5%float /\
  accepted [image "a1" [1; 0; 0]%float] [image "c1" [0; 1; 0]%float] = false /\
  calculateSimilarity (JArray [1; 0; 0]%float) (JArray [-1; 0; 0]%float) = 0%float /\
  bestSimilarity [image "a1" [1; 0; 0]%float; image "a2" [0; 0; 1]%float]
                 [image "d1" [0; 0; 1]%float] = 1%float /\
  accepted [image "a1" [1; 0; 0]%float; image "a2" [0; 0; 1]%float]
           [image "d1" [0; 0; 1]%float] = true.
Proof. repeat split; vm_compute; reflexivity. Qed.

(** A run of findMatches for the parent report A creates PENDING records
    for B and D, not for the orthogonal C; a second run creates nothing;
    and a run from the finder side B stores the pair as (A, B) too. *)
Example findMatches_runs :
  map (fun m => (pair_key m, status m))
    (matchedCases (snd (findMatches reliable "A" "PARENT" reports_only)))
  = [(("A", "B")%string, MatchStatus.PENDING); (("A", "D")%string, MatchStatus.PENDING)] /\
  fst (findMatches reliable "A" "PARENT"
         (snd (findMatches reliable "A" "PARENT" reports_only))) = Normal [] /\
  pair_keys (snd (findMatches reliable "B" "FINDER" reports_only))
  = [("A", "B")%string].
Proof. repeat split; vm_compute; reflexivity. Qed.

(** The oracle path on the store that holds a PENDING record for (A, B):
    the record is updated in place to MATCHED with confidence 95, and the
    other two finder reports get records of their own. *)
Example findMatchesForParentReport_run :
  map core (matchedCases
              (snd (findMatchesForParentReport reliable "A" 85%float with_pending_match)))
  = [(0%nat, "A", "B", MatchStatus.MATCHED, 95%float)%string;
     (1%nat, "A", "C", MatchStatus.MATCHED, 95%float)%string;
     (2%nat, "A", "D", MatchStatus.MATCHED, 95%float)%string].
Proof. vm_compute. reflexivity. Qed.

(** * Further facts about binary64 comparisons *)

Module FloatOrderFacts.

Import FloatFacts.
Local Open Scope float_scope.

Lemma binary_round_aux_negative mx ex lx :
  SFltb (S754_zero false) (binary_round_aux prec emax true mx ex lx) = false.
Proof.
  unfold binary_round_aux.
  destruct (shr_fexp prec emax mx ex lx) as [mrs' e'].
  destruct (shr_fexp prec emax _ e' loc_Exact) as [mrs'' e''].
  destruct (shr_m mrs''); [reflexivity| |reflexivity].
  destruct (Z.leb e'' (emax - prec)); reflexivity.
Qed.

Lemma binary_normalize_negative m e :
  SFltb (S754_zero false) (binary_normalize prec emax (Z.neg m) e false) = false.
Proof.
  unfold binary_normalize, binary_round.
  destruct (shl_align m e _) as [mz ez]. apply binary_round_aux_negative.
Qed.

Lemma binary_normalize_sign m e :
  SFltb (S754_zero false) (binary_normalize prec emax m e false) = true ->
  SFltb (S754_zero false) (binary_normalize prec emax (- m) e false) = false.
Proof.
  destruct m as [|m|m]; cbn [Z.opp].
  - intros H; exact H || (cbn in H; discriminate H).
  - intros _. apply binary_normalize_negative.
  - rewrite binary_normalize_negative. discriminate.
Qed.

(** The sign of a difference flips with its operands. *)
Lemma SFsub_sign x y :
  SFltb (S754_zero false) (SFsub prec emax x y) = true ->
  SFltb (S754_zero false) (SFsub prec emax y x) = false.
Proof.
  destruct x as [[]|[]| |sx mx ex], y as [[]|[]| |sy my ey]; cbn;
    try reflexivity; try discriminate;
    try (destruct sx; cbn; try reflexivity; discriminate);
    try (destruct sy; cbn; try reflexivity; discriminate).
  rewrite (Z.min_comm ey ex). intros H.
  apply binary_normalize_sign in H.
  match goal with
  | H : SFltb _ (binary_normalize _ _ (- ?a) _ _) = false
    |- SFltb _ (binary_normalize _ _ ?b _ _) = false =>
      replace b with (- a)%Z by lia; exact H
  end.
Qed.

Lemma sub_sign (x y : float) : (0 <? x - y) = true -> (0 <? y - x) = false.
Proof. rewrite !ltb_spec, !sub_spec. apply SFsub_sign. Qed.

(** Two numbers that are each at most the other are the same number,
    unless both are zeros. *)
Lemma SFleb_antisym x y :
  SFleb x y = true -> SFleb y x = true ->
  x = y \/ (exists s1 s2, x = S754_zero s1 /\ y = S754_zero s2).
Proof.
  unfold SFleb, SFcompare.
  destruct x as [[]|[]| |[] mx ex], y as [[]|[]| |[] my ey]; cbn;
    try discriminate; try (left; reflexivity); try (right; eauto; fail);
    cmp_cases; cbn; try discriminate; intros; subst; try lia; left; reflexivity.
Qed.

Lemma leb_antisym (x y : float) :
  (0 <? x) = true \/ x = 0 -> (0 <? y) = true \/ y = 0 ->
  (x <=? y) = true -> (y <=? x) = true -> x = y.
Proof.
  intros Hx Hy. rewrite !leb_spec. intros H1 H2.
  destruct (SFleb_antisym _ _ H1 H2) as [E|(s1 & s2 & E1 & E2)].
  - apply Prim2SF_inj, E.
  - assert (x = 0).
    { destruct Hx as [Hx|Hx]; [|exact Hx]. rewrite ltb_spec, E1 in Hx. discriminate. }
    assert (y = 0).
    { destruct Hy as [Hy|Hy]; [|exact Hy]. rewrite ltb_spec, E2 in Hy. discriminate. }
    congruence.
Qed.

End FloatOrderFacts.

(** * findBestMatches and normalizeEmbedding *)

Module SearchFacts.

Import FloatFacts FloatOrderFacts.
Local Open Scope float_scope.

Lemma sort_insert_perm {A} (compare : A -> A -> number) x l :
  Permutation (sort_insert compare x l) (x :: l).
Proof.
  induction l as [|y l IH]; cbn; [reflexivity|].
  destruct (0 <? compare x y); [|reflexivity].
  rewrite IH. apply perm_swap.
Qed.

Lemma Array_sort_perm {A} (compare : A -> A -> number) l :
  Permutation (Array_sort compare l) l.
Proof.
  induction l as [|x l IH]; cbn; [reflexivity|].
  rewrite sort_insert_perm. constructor. exact IH.
Qed.

Lemma sort_insert_sorted {A} (compare : A -> A -> number) x l :
  (forall a b, (0 <? compare a b) = true -> (0 <? compare b a) = false) ->
  Sorted (fun a b => (0 <? compare a b) = false) l ->
  Sorted (fun a b => (0 <? compare a b) = false) (sort_insert compare x l).
Proof.
  intros Hanti. induction l as [|y l IH]; cbn; intros Hs.
  - repeat constructor.
  - inversion Hs as [|? ? Hs' Hhd]; subst.
    destruct (0 <? compare x y) eqn:E.
    + constructor; [apply IH, Hs'|].
      destruct l as [|z l]; cbn.
      * constructor. apply Hanti, E.
      * destruct (0 <? compare x z); constructor.
        -- inversion Hhd; assumption.
        -- apply Hanti, E.
    + constructor; [exact Hs|]. constructor. exact E.
Qed.

Lemma Array_sort_sorted {A} (compare : A -> A -> number) l :
  (forall a b, (0 <? compare a b) = true -> (0 <? compare b a) = false) ->
  Sorted (fun a b => (0 <? compare a b) = false) (Array_sort compare l).
Proof.
  intros Hanti. induction l as [|x l IH]; cbn; [constructor|].
  apply sort_insert_sorted; assumption.
Qed.



Lemma matches_above_spec query database threshold m :
  In m (matches_above query database threshold) ->
  (threshold <=? found_similarity m) = true /\
  exists item, In item database /\ found_id m = item_id item /\
    found_similarity m = calculateSimilarity query (item_embedding item).
Proof.
  unfold matches_above. intros H. apply in_flat_map in H as (item & Hin & H).
  destruct (threshold <=? calculateSimilarity query (item_embedding item)) eqn:E;
    [|contradiction].
  destruct H as [<-|[]]. cbn. split; [exact E|]. exists item. auto.
Qed.

End SearchFacts.



Module NormalizeFacts.

Local Open Scope float_scope.

Lemma sum_of_zero_squares xs : forall acc,
  Forall (fun x => x = 0 \/ x = (-0)) xs -> acc = 0 ->
  fold_left (fun sum val => sum + val * val) xs acc = 0.
Proof.
  induction xs as [|x xs IH]; intros acc Hz ->; [reflexivity|].
  inversion Hz; subst. cbn [fold_left]. apply IH; [assumption|].
  apply SimilarityFacts.zero_square. assumption.
Qed.

Lemma zeros_are_zero n : Forall (fun x => x = 0 \/ x = (-0)) (repeat 0 n).
Proof. induction n; cbn; constructor; auto. Qed.

Lemma ltb_asym (x y : float) : (x <? y) = true -> (y <? x) = false.
Proof.
  intros H. destruct (y <? x) eqn:E; [|reflexivity].
  apply FloatFacts.ltb_leb in E. apply FloatFacts.ltb_not_leb in H. congruence.
Qed.

Lemma ltb_nan_l (x y : float) : is_nan x = true -> (x <? y) = false.
Proof.
  rewrite ltb_spec, FloatFacts.is_nan_spec. unfold SFltb, SFcompare.
  destruct (Prim2SF x), (Prim2SF y); try reflexivity; discriminate.
Qed.

End NormalizeFacts.

(** X2.  normalizeEmbedding never returns an empty vector.  For an
    argument that is not a non-empty array it returns 128 zeros, a vector
    whose similarity with every array is 0; a non-empty array keeps its
    length, and a non-empty array of zeros is returned as it is. *)
Theorem normalizeEmbedding_shape
    (embedding : value) (other : list number) (n : nat) :
  normalizeEmbedding embedding <> [] /\
  match embedding with
  | JArray (x :: xs) =>
      List.length (normalizeEmbedding embedding) = List.length (x :: xs)
  | _ =>
      normalizeEmbedding embedding = repeat 0%float 128 /\
      calculateSimilarity (JArray (normalizeEmbedding embedding)) (JArray other)
      = 0%float
  end /\
  normalizeEmbedding (JArray (repeat 0%float (S n))) = repeat 0%float (S n).
Proof.
  assert (Hlen : forall x xs,
    List.length (normalizeEmbedding (JArray (x :: xs))) = S (List.length xs)).
  { intros x xs. unfold normalizeEmbedding. destruct (_ =? _)%float; cbn;
      [reflexivity|]. rewrite length_map. reflexivity. }
  assert (Hzero : calculateSimilarity (JArray (repeat 0%float 128)) (JArray other)
                  = 0%float).
  { apply (proj1 (SimilarityFacts.calculateSimilarity_all_zero _ other
                     (NormalizeFacts.zeros_are_zero 128))). }
  split; [|split].
  - destruct embedding as [| | | |[|y ys]]; try (cbn; discriminate).
    intros E. apply (f_equal (@List.length _)) in E. rewrite Hlen in E.
    discriminate.
  - destruct embedding as [| | | |[|y ys]]; try (split; [reflexivity|exact Hzero]).
    apply Hlen.
  - unfold normalizeEmbedding. change (repeat 0%float (S n)) with (0%float :: repeat 0%float n).
    unfold magnitude_of.
    rewrite (NormalizeFacts.sum_of_zero_squares (0%float :: repeat 0%float n));
      [reflexivity| |reflexivity].
    apply (NormalizeFacts.zeros_are_zero (S n)).
Qed.

(** X3.  calculateSimilarity never answers with a negative number,
    whatever its two arguments are. *)
Theorem calculateSimilarity_never_negative (a b : value) :
  (calculateSimilarity a b <? 0)%float = false.
Proof.
  destruct (SimilarityFacts.calculateSimilarity_sign a b) as [H|[H|H]].
  - rewrite H. reflexivity.
  - apply NormalizeFacts.ltb_asym. exact H.
  - apply NormalizeFacts.ltb_nan_l. exact H.
Qed.

Module CompareImagesFacts.

Lemma flag_after env1 env2 loaded :
  models_on_disk env1 = models_on_disk env2 ->
  loadModels env2 (loadModels env1 loaded) = loadModels env1 loaded /\
  loadModels env1 (loadModels env2 loaded) = loadModels env1 loaded /\
  loadModels env2 loaded = loadModels env1 loaded.
Proof.
  unfold loadModels. intros ->. destruct loaded, (models_on_disk env2); auto.
Qed.

Lemma processImageForMatching_flag env loaded :
  snd (processImageForMatching env loaded) = loadModels env loaded.
Proof.
  unfold processImageForMatching.
  destruct (processImageForMatching_try _ _); reflexivity.
Qed.

Lemma processImageForMatching_result env loaded :
  fst (processImageForMatching env loaded) =
  match processImageForMatching_try env (loadModels env loaded) with
  | Normal features => Normal features
  | Throw error => processImageForMatching_catch error
  end.
Proof.
  unfold processImageForMatching.
  destruct (processImageForMatching_try _ _); reflexivity.
Qed.

Lemma compareImages_unfold env1 env2 loaded :
  compareImages env1 env2 loaded =
  (match fst (processImageForMatching env1 loaded),
         fst (processImageForMatching env2 (loadModels env1 loaded)) with
   | Normal embedding1, Normal embedding2 =>
       calculateSimilarity (JArray embedding1) (JArray embedding2)
   | _, _ => 0%float
   end,
   loadModels env2 (loadModels env1 loaded)).
Proof.
  unfold compareImages.
  rewrite <- (processImageForMatching_flag env1 loaded).
  destruct (processImageForMatching env1 loaded) as [r1 l1]. cbn [fst snd].
  rewrite <- (processImageForMatching_flag env2 l1).
  destruct (processImageForMatching env2 l1) as [r2 l2]. cbn [fst snd].
  destruct r1, r2; reflexivity.
Qed.

End CompareImagesFacts.

(** X4.  compareImages is symmetric: when both images are processed with
    the same model directory, swapping the two images gives the same
    score (and leaves the same models loaded). *)
Theorem compareImages_symmetric (env1 env2 : image_env) (modelsLoaded : bool) :
  models_on_disk env1 = models_on_disk env2 ->
  compareImages env1 env2 modelsLoaded = compareImages env2 env1 modelsLoaded.
Proof.
  intros Hdisk.
  destruct (CompareImagesFacts.flag_after env1 env2 modelsLoaded Hdisk)
    as (F1 & F2 & F3).
  rewrite !CompareImagesFacts.compareImages_unfold.
  rewrite !CompareImagesFacts.processImageForMatching_result.
  rewrite ?F1, ?F2, ?F3, ?F1.
  destruct (processImageForMatching_try env1 _) as [v1|e1],
           (processImageForMatching_try env2 _) as [v2|e2];
    cbn; try reflexivity.
  rewrite SimilarityFacts.similarity_of_arrays_sym. reflexivity.
Qed.

Lemma compareImages_symmetric_witness :
  compareImages (image_with_face [x2a] [1; 0]%float) (image_without_face [x2a]) false
  = compareImages (image_without_face [x2a]) (image_with_face [x2a] [1; 0]%float) false.
Proof.
  apply (compareImages_symmetric (image_with_face [x2a] [1; 0]%float)
           (image_without_face [x2a]) false).
  reflexivity.
Defined.

(** X5.  compareImages answers 0, and does not fail, when the download of
    either image fails. *)
Theorem compareImages_of_failed_download
    (env1 env2 : image_env) (modelsLoaded : bool) (error : string) :
  fetch_buffer env1 = Throw error \/ fetch_buffer env2 = Throw error ->
  fst (compareImages env1 env2 modelsLoaded) = 0%float.
Proof.
  intros H. rewrite CompareImagesFacts.compareImages_unfold. cbn [fst].
  rewrite !CompareImagesFacts.processImageForMatching_result.
  unfold processImageForMatching_try at 1 2.
  destruct H as [H|H]; rewrite H; cbn.
  - reflexivity.
  - destruct (fetch_buffer env1); [|reflexivity].
    destruct (decode_image env1 _); [|reflexivity].
    destruct (negb _); [reflexivity|].
    destruct (detect_faces env1 _) as [[|d ds]|]; reflexivity.
Qed.

Lemma compareImages_of_failed_download_witness :
  fst (compareImages (image_without_face [x2a])
         {| models_on_disk := true; fetch_buffer := Throw "FetchError";
            decode_image := fun _ => Normal tt;
            detect_faces := fun _ => Normal [] |} false) = 0%float.
Proof.
  apply (compareImages_of_failed_download _ _ false "FetchError").
  right. reflexivity.
Defined.

(** X6.  An image in which a face is found and an image in which none is
    found never resemble each other: the 128 numbers of the face
    descriptor are compared with the 129 numbers of the fallback
    fingerprint, and compareImages answers 0 in either order. *)
Theorem compareImages_face_against_fingerprint
    (env1 env2 : image_env) (modelsLoaded : bool)
    (buffer1 buffer2 : list byte) (descriptor : list number)
    (others : list (list number)) :
  models_on_disk env1 = models_on_disk env2 ->
  loadModels env1 modelsLoaded = true ->
  fetch_buffer env1 = Normal buffer1 ->
  decode_image env1 buffer1 = Normal tt ->
  detect_faces env1 buffer1 = Normal (descriptor :: others) ->
  List.length descriptor = 128%nat ->
  fetch_buffer env2 = Normal buffer2 ->
  decode_image env2 buffer2 = Normal tt ->
  detect_faces env2 buffer2 = Normal [] ->
  compareImages env1 env2 modelsLoaded = (0%float, true) /\
  compareImages env2 env1 modelsLoaded = (0%float, true).
Proof.
  intros Hdisk Hload F1 D1 Det1 Hlen F2 D2 Det2.
  destruct (CompareImagesFacts.flag_after env1 env2 modelsLoaded Hdisk)
    as (E1 & E2 & E3).
  rewrite !CompareImagesFacts.compareImages_unfold.
  rewrite !CompareImagesFacts.processImageForMatching_result.
  rewrite ?E1, ?E2, ?E3, ?E1, ?Hload.
  unfold processImageForMatching_try.
  rewrite F1, D1, Det1, F2, D2, Det2. cbn [negb].
  split; f_equal.
  - apply SimilarityFacts.calculateSimilarity_length_mismatch.
    rewrite FallbackFacts.features_length, Hlen. discriminate.
  - apply SimilarityFacts.calculateSimilarity_length_mismatch.
    rewrite FallbackFacts.features_length, Hlen. discriminate.
Qed.

Lemma compareImages_face_against_fingerprint_witness :
  compareImages (image_with_face [x2a] (repeat 1%float 128)) (image_without_face [x2b])
    false = (0%float, true) /\
  compareImages (image_without_face [x2b]) (image_with_face [x2a] (repeat 1%float 128))
    false = (0%float, true).
Proof.
  apply (compareImages_face_against_fingerprint
           (image_with_face [x2a] (repeat 1%float 128)) (image_without_face [x2b])
           false [x2a] [x2b] (repeat 1%float 128) []); reflexivity.
Defined.

(** * The face matcher path *)

Module FaceFacts.

Local Open Scope float_scope.

Lemma entry_of_spec o src minConfidence idx url result :
  oracle_rejects o src url = false ->
  compareTwoFaces o src url = Normal result ->
  index (entry_of minConfidence idx url result) = idx /\
  image_url (entry_of minConfidence idx url result) = url /\
  entry_match (entry_of minConfidence idx url result)
    = urls_match o minConfidence src url /\
  (entry_match (entry_of minConfidence idx url result) = true ->
   entry_confidence (entry_of minConfidence idx url result) = 95).
Proof.
  unfold entry_of, compareTwoFaces, compareTwoFaces_try, urls_match, oracle_matches,
    oracle_rejects.
  destruct (o src url) as [m|m|[|] err|m]; cbn; intros Hr H; inversion H; subst; cbn;
    repeat split; auto; discriminate.
Qed.

(** A single comparison is thrown back, or gives the entry of its
    target. *)
Lemma compare_entry_spec o src minConfidence idx url :
  if oracle_rejects o src url then
    exists message,
      o src url = TempDirFails message /\
      compare_entry o src minConfidence idx url = Throw message
  else
    exists entry,
      compare_entry o src minConfidence idx url = Normal entry /\
      index entry = idx /\ image_url entry = url /\
      entry_match entry = urls_match o minConfidence src url /\
      (entry_match entry = true -> entry_confidence entry = 95).
Proof.
  destruct (oracle_rejects o src url) eqn:Hr.
  - unfold compare_entry, compareTwoFaces, oracle_rejects in *.
    destruct (o src url) as [m|m|b err|m]; try discriminate. eauto.
  - unfold compare_entry.
    destruct (compareTwoFaces o src url) as [result|error] eqn:E.
    + eexists. split; [reflexivity|]. eapply entry_of_spec; eassumption.
    + unfold compareTwoFaces, compareTwoFaces_try, oracle_rejects in *.
      destruct (o src url) as [m|m|[] err|m]; discriminate.
Qed.

(** The loop over the targets: it completes with one entry per target
    when no comparison is thrown back, and is thrown back with the error
    of the first such comparison otherwise. *)
Lemma compare_entries_spec o src minConfidence urls : forall idx,
  if comparison_completes o src urls then
    exists entries,
      compare_entries o src minConfidence idx urls = Normal entries /\
      map image_url entries = urls /\
      map index entries = seq idx (List.length urls) /\
      map image_url (filter entry_match entries)
        = filter (urls_match o minConfidence src) urls /\
      Forall (fun m => entry_confidence m = 95 /\
                urls_match o minConfidence src (image_url m) = true /\
                exists k, index m = (idx + k)%nat /\
                          nth_error urls k = Some (image_url m))
        (filter entry_match entries)
  else
    exists message,
      first_rejection o src urls = Some message /\
      compare_entries o src minConfidence idx urls = Throw message.
Proof.
  unfold comparison_completes, first_rejection.
  induction urls as [|url rest IH]; intros idx; cbn [forallb find compare_entries].
  - exists []. cbn. repeat split; constructor.
  - pose proof (compare_entry_spec o src minConfidence idx url) as H.
    destruct (oracle_rejects o src url) eqn:Hr; cbn [negb andb].
    + destruct H as (message & Ho & ->). exists message. rewrite Ho. auto.
    + destruct H as (entry & -> & I & U & M & C). specialize (IH (S idx)).
      destruct (forallb _ rest).
      * destruct IH as (entries & -> & Hu & Hi & Hf & Hall).
        exists (entry :: entries). split; [reflexivity|]. cbn [map seq List.length].
        rewrite Hu, Hi, I, U. split; [reflexivity|]. split; [reflexivity|].
        assert (Hall' : Forall (fun m => entry_confidence m = 95 /\
                  urls_match o minConfidence src (image_url m) = true /\
                  exists k, index m = (idx + k)%nat /\
                            nth_error (url :: rest) k = Some (image_url m))
                  (filter entry_match entries)).
        { eapply Forall_impl; [|exact Hall]. cbn. intros m (X & Y & k & Z & W).
          split; [exact X|]. split; [exact Y|]. exists (S k). split; [lia|exact W]. }
        cbn [filter].
        destruct (entry_match entry) eqn:E; rewrite <- M.
        -- cbn [map]. rewrite Hf, U. split; [reflexivity|].
           constructor; [|exact Hall'].
           split; [auto|]. split; [rewrite U, <- M; reflexivity|]. exists 0%nat.
           rewrite I, U. split; [lia|reflexivity].
        -- split; [exact Hf|exact Hall'].
      * destruct IH as (message & Hm & ->). exists message. auto.
Qed.

(** Entries of one confidence stay in their order. *)
Lemma sort_same_confidence l :
  Forall (fun m => entry_confidence m = 95) l -> sort_by_confidence l = l.
Proof.
  induction 1 as [|x l Hx Hl IH]; [reflexivity|].
  cbn [sort_by_confidence fold_right]. fold (sort_by_confidence l). rewrite IH.
  destruct l as [|y l']; [reflexivity|]. cbn [insert_by_confidence].
  inversion Hl; subst. rewrite Hx. replace (entry_confidence y) with 95%float by auto.
  reflexivity.
Qed.

(** The first match among the entries of a parent image is the first
    finder image that matches it. *)
Lemma first_entry o minConfidence p (finders : list CaseImage) entries : forall idx,
  map image_url entries = map imageUrl finders ->
  map index entries = seq idx (List.length finders) ->
  Forall (fun m => entry_match m = urls_match o minConfidence (imageUrl p) (image_url m))
    entries ->
  match find (images_match o minConfidence p) finders with
  | Some f =>
      exists entry rest k,
        filter entry_match entries = entry :: rest /\
        index entry = (idx + k)%nat /\ nth_error finders k = Some f
  | None => filter entry_match entries = []
  end.
Proof.
  revert entries.
  induction finders as [|f rest IH]; intros entries idx Hu Hi Hm.
  - destruct entries; [reflexivity|discriminate].
  - destruct entries as [|entry entries]; [discriminate|].
    cbn in Hu, Hi. inversion Hu as [[Hu1 Hu2]]. inversion Hi as [[Hi1 Hi2]].
    inversion Hm as [|? ? Hm1 Hm2]; subst. cbn [find filter].
    unfold images_match at 1. rewrite <- Hu1, <- Hm1.
    destruct (entry_match entry) eqn:E.
    + eexists _, _, 0%nat. split; [reflexivity|]. split; [lia|reflexivity].
    + specialize (IH entries (S (index entry)) Hu2 Hi2 Hm2).
      destruct (find (images_match o minConfidence p) rest) as [f'|]; [|exact IH].
      destruct IH as (entry' & rest' & k & A & X & Y).
      exists entry', rest', (S k). split; [exact A|]. split; [lia|exact Y].
Qed.

Lemma entries_match o src minConfidence urls idx entries :
  comparison_completes o src urls = true ->
  compare_entries o src minConfidence idx urls = Normal entries ->
  Forall (fun m => entry_match m = urls_match o minConfidence src (image_url m)) entries.
Proof.
  revert idx entries. unfold comparison_completes.
  induction urls as [|url rest IH]; intros idx entries Hc H; cbn in H, Hc.
  - inversion H. constructor.
  - apply andb_prop in Hc as [Hr Hc]. apply negb_true_iff in Hr.
    pose proof (compare_entry_spec o src minConfidence idx url) as Hs.
    rewrite Hr in Hs. destruct Hs as (entry & E & _ & U & M & _). rewrite E in H.
    destruct (compare_entries o src minConfidence (S idx) rest) as [es|err] eqn:Er;
      [|discriminate].
    inversion H; subst. constructor; [exact M|].
    eapply IH; eassumption.
Qed.

Lemma find_existsb {A} (test : A -> bool) l :
  existsb test l = match find test l with Some _ => true | None => false end.
Proof.
  induction l as [|x l IH]; [reflexivity|]. cbn. destruct (test x); [reflexivity|exact IH].
Qed.

Lemma compare_parent_image_spec o finders minConfidence best p :
  compare_parent_image o finders minConfidence best p =
  Normal
    (if parent_image_matches o minConfidence finders p then
       match find (images_match o minConfidence p) finders with
       | Some f =>
           if match_confidence best <? 95 then report_match_of (Some (p, f)) else best
       | None => best
       end
     else best).
Proof.
  unfold compare_parent_image, parent_image_matches, compareMultipleFaces. cbv zeta.
  pose proof (compare_entries_spec o (imageUrl p) minConfidence (map imageUrl finders) 0)
    as H.
  destruct (comparison_completes o (imageUrl p) (map imageUrl finders)) eqn:Hc.
  2:{ destruct H as (message & _ & ->). reflexivity. }
  destruct H as (entries & E & Hu & Hi & _ & Hall). rewrite E.
  cbn [faces_success matches_found matches andb].
  rewrite sort_same_confidence by (eapply Forall_impl; [|exact Hall]; cbn; tauto).
  rewrite length_map in Hi.
  pose proof (first_entry o minConfidence p finders entries 0 Hu Hi
                (entries_match _ _ _ _ _ _ Hc E)) as Hf.
  rewrite find_existsb.
  destruct (find (images_match o minConfidence p) finders) as [f|].
  - destruct Hf as (entry & rest & k & Hfilter & I & N).
    rewrite Hfilter in Hall |- *. inversion Hall as [|? ? (C & _) _]; subst.
    cbn [List.length Nat.ltb Nat.leb]. rewrite C, I. cbn [Nat.add]. rewrite N.
    destruct (match_confidence best <? 95); reflexivity.
  - rewrite Hf. reflexivity.
Qed.

Lemma loop_after_match o finders minConfidence best parents :
  match_confidence best = 95 ->
  compare_parent_images o finders minConfidence best parents = Normal best.
Proof.
  intros Hbest. induction parents as [|p rest IH]; [reflexivity|].
  cbn [compare_parent_images]. rewrite compare_parent_image_spec, Hbest.
  change (95 <? 95) with false.
  destruct (parent_image_matches _ _ _ _); [destruct (find _ finders)|]; exact IH.
Qed.

Lemma loop_from_no_match o finders minConfidence parents :
  compare_parent_images o finders minConfidence no_match parents
  = Normal (report_match_of (first_matching_pair o minConfidence parents finders)).
Proof.
  unfold first_matching_pair.
  induction parents as [|p rest IH]; [reflexivity|].
  cbn [compare_parent_images find]. rewrite compare_parent_image_spec.
  destruct (parent_image_matches o minConfidence finders p) eqn:Hp; [|exact IH].
  unfold parent_image_matches in Hp. apply andb_prop in Hp as [_ Hex].
  rewrite find_existsb in Hex.
  destruct (find (images_match o minConfidence p) finders) as [f|] eqn:EF;
    [|discriminate].
  change (match_confidence no_match <? 95) with true. cbv iota beta.
  rewrite loop_after_match by reflexivity. reflexivity.
Qed.

End FaceFacts.

(** X7.  When none of the single comparisons is thrown back,
    compareMultipleFaces answers with one entry per target image, in the
    order of the targets and numbered from 0; its matches are the entries
    of the targets that the face matcher reports as a match, provided 95
    reaches [minConfidence]; they all carry the confidence 95 and stay in
    the order of the targets, the sort moving none of them.  When a
    comparison is thrown back (the directory of the temporary files cannot
    be created), the answer is the one of the error handler: no success,
    the error of the first such comparison, no matches and no entries. *)
Theorem compareMultipleFaces_matches
    (o : oracle) (sourceImageUrl : string) (targetImageUrls : list string)
    (minConfidence : number) :
  let result := compareMultipleFaces o sourceImageUrl targetImageUrls minConfidence in
  if comparison_completes o sourceImageUrl targetImageUrls then
    faces_success result = true /\ faces_error result = None /\
    total_compared result = Some (List.length targetImageUrls) /\
    matches_found result = List.length (matches result) /\
    map image_url (matches result)
      = filter (urls_match o minConfidence sourceImageUrl) targetImageUrls /\
    Forall (fun m => entry_confidence m = 95%float /\
              nth_error targetImageUrls (index m) = Some (image_url m))
      (matches result) /\
    exists entries,
      all_results result = Some entries /\
      map image_url entries = targetImageUrls /\
      map index entries = seq 0 (List.length targetImageUrls) /\
      matches result = filter entry_match entries
  else
    faces_success result = false /\
    faces_error result = first_rejection o sourceImageUrl targetImageUrls /\
    faces_error result <> None /\
    total_compared result = None /\ all_results result = None /\
    matches_found result = 0%nat /\ matches result = [].
Proof.
  intros result. subst result. unfold compareMultipleFaces.
  pose proof (FaceFacts.compare_entries_spec o sourceImageUrl minConfidence
                targetImageUrls 0) as H.
  destruct (comparison_completes o sourceImageUrl targetImageUrls).
  - destruct H as (entries & -> & Hu & Hi & Hf & Hall). cbv zeta.
    cbn [faces_success faces_error total_compared matches_found matches all_results].
    rewrite FaceFacts.sort_same_confidence
      by (eapply Forall_impl; [|exact Hall]; cbn; tauto).
    split; [reflexivity|]. split; [reflexivity|]. split; [reflexivity|].
    split; [reflexivity|]. split; [exact Hf|]. split.
    + eapply Forall_impl; [|exact Hall]. cbn. intros m (C & _ & k & Hk & N).
      split; [exact C|]. rewrite Hk. exact N.
    + exists entries. auto.
  - destruct H as (message & Hm & ->). cbn. rewrite Hm.
    repeat split; try reflexivity. discriminate.
Qed.

(** X8.  compareReportImages answers with the first parent image, in the
    order of the report, whose comparison with the finder images completes
    and that matches one of them, paired with the first finder image it
    matches, at confidence 95; when there is no such parent image, the
    answer is the unmatched result of confidence 0.  A comparison that is
    thrown back makes its parent image count as unmatched.
    compareReportImages never answers through its error handler. *)
Theorem compareReportImages_first_matching_pair
    (o : oracle) (parentImages finderImages : list CaseImage) (minConfidence : number) :
  let result := compareReportImages o parentImages finderImages minConfidence in
  result = report_match_of
             (first_matching_pair o minConfidence parentImages finderImages) /\
  matched result
    = existsb (parent_image_matches o minConfidence finderImages) parentImages /\
  match_confidence result = (if matched result then 95 else 0)%float /\
  match first_matching_pair o minConfidence parentImages finderImages with
  | Some (p, f) =>
      In p parentImages /\ In f finderImages /\ images_match o minConfidence p f = true /\
      comparison_completes o (imageUrl p) (map imageUrl finderImages) = true
  | None => True
  end /\
  ((forall p f, In p parentImages -> In f finderImages ->
      oracle_rejects o (imageUrl p) (imageUrl f) = false) ->
   matched result
   = existsb (fun p => existsb (images_match o minConfidence p) finderImages)
       parentImages).
Proof.
  intros result.
  assert (E : result = report_match_of
                (first_matching_pair o minConfidence parentImages finderImages)).
  { unfold result, compareReportImages.
    rewrite FaceFacts.loop_from_no_match. reflexivity. }
  assert (Hm : matched result
               = existsb (parent_image_matches o minConfidence finderImages) parentImages).
  { rewrite E. unfold first_matching_pair. rewrite FaceFacts.find_existsb.
    destruct (find _ parentImages) as [p|] eqn:EP; [|reflexivity].
    apply find_some in EP as [_ Hp]. unfold parent_image_matches in Hp.
    apply andb_prop in Hp as [_ Hex]. rewrite FaceFacts.find_existsb in Hex.
    destruct (find (images_match o minConfidence p) finderImages); [reflexivity|].
    discriminate. }
  split; [exact E|]. split; [exact Hm|]. split; [|split].
  - rewrite E. destruct (first_matching_pair _ _ _ _) as [[p f]|]; reflexivity.
  - unfold first_matching_pair.
    destruct (find _ parentImages) as [p|] eqn:EP; [|exact I].
    apply find_some in EP as [Hp Hpm]. unfold parent_image_matches in Hpm.
    apply andb_prop in Hpm as [Hc Hex].
    destruct (find (images_match o minConfidence p) finderImages) as [f|] eqn:EF;
      [|exact I].
    apply find_some in EF as [Hf Hmatch]. cbn. auto.
  - intros Hno. rewrite Hm. clear E Hm result.
    induction parentImages as [|p rest IH]; [reflexivity|]. cbn [existsb].
    rewrite IH by (intros p0 f0 Hp0; apply Hno; right; exact Hp0). f_equal.
    unfold parent_image_matches, comparison_completes.
    replace (forallb _ (map imageUrl finderImages)) with true; [reflexivity|].
    symmetry. apply forallb_forall. intros url Hurl.
    apply in_map_iff in Hurl as (f & <- & Hf).
    rewrite (Hno p f (or_introl eq_refl) Hf). reflexivity.
Qed.

(** * The list handlers when the store answers every call *)

Module HandlerFacts.

Import StoreFacts VectorPathFacts.
Local Open Scope float_scope.

Lemma compareReportImages_spec o parentImages finderImages minConfidence :
  compareReportImages o parentImages finderImages minConfidence
  = report_match_of (first_matching_pair o minConfidence parentImages finderImages).
Proof.
  unfold compareReportImages. rewrite FaceFacts.loop_from_no_match. reflexivity.
Qed.

Lemma compareReportImages_matched o minConfidence parentReport finderReport :
  let result := compareReportImages o (images parentReport) (images finderReport)
                  minConfidence in
  matched result = reports_match o minConfidence parentReport finderReport /\
  (matched result = true -> match_confidence result = 95).
Proof.
  cbv zeta. rewrite compareReportImages_spec. unfold first_matching_pair, reports_match.
  rewrite FaceFacts.find_existsb.
  destruct (find _ (images parentReport)) as [p|] eqn:EP.
  - apply find_some in EP as [_ Hp]. unfold parent_image_matches in Hp.
    apply andb_prop in Hp as [_ Hex]. rewrite FaceFacts.find_existsb in Hex.
    destruct (find (images_match o minConfidence p) (images finderReport));
      [|discriminate]. cbn. auto.
  - cbn. split; [reflexivity|discriminate].
Qed.

Lemma update_first_spec matchId change : forall ms m' ms',
  update_first matchId change ms = Some (m', ms') ->
  exists pre m0 post,
    ms = pre ++ m0 :: post /\ ms' = pre ++ change m0 :: post /\
    m' = change m0 /\ id m0 = matchId.
Proof.
  induction ms as [|m ms IH]; cbn; intros m' ms' H; [discriminate|].
  destruct (Nat.eqb (id m) matchId) eqn:E.
  - inversion H; subst. exists [], m, ms. apply Nat.eqb_eq in E. auto.
  - destruct (update_first matchId change ms) as [[m1 ms1]|]; [|discriminate].
    inversion H; subst.
    destruct (IH _ _ eq_refl) as (pre & m0 & post & -> & -> & -> & Hid).
    exists (m :: pre), m0, post. auto.
Qed.

Lemma update_first_found matchId change : forall ms,
  (exists m, In m ms /\ id m = matchId) ->
  exists m' ms', update_first matchId change ms = Some (m', ms').
Proof.
  induction ms as [|m ms IH]; intros (m0 & Hin & Hid); [destruct Hin|].
  cbn. destruct (Nat.eqb (id m) matchId) eqn:E; [eauto|].
  destruct Hin as [<-|Hin]; [apply Nat.eqb_neq in E; contradiction|].
  destruct IH as (m' & ms' & ->); eauto.
Qed.

(** A record that is MATCHED at confidence 95 stays so under the update
    of the create-or-update block. *)
Lemma matched_record_updated w ms' m' matchId conf i p f :
  update_first matchId
    (fun m => {| id := id m; parentCaseId := parentCaseId m;
                 finderCaseId := finderCaseId m; status := MatchStatus.MATCHED;
                 matchConfidence := conf; notificationSent := notificationSent m |})
    (matchedCases w) = Some (m', ms') ->
  conf = 95 ->
  matched_record w i p f ->
  matched_record (set_matchedCases w ms' (nextId w)) i p f.
Proof.
  intros EU -> (m & Hin & Hid & Hk & Hs & Hc).
  apply update_first_spec in EU as (pre & m0 & post & E & -> & _ & _).
  unfold matched_record. cbn. rewrite E in Hin.
  apply in_app_iff in Hin as [Hin|[<-|Hin]].
  - exists m. rewrite in_app_iff. auto.
  - eexists. split; [rewrite in_app_iff; right; left; reflexivity|]. cbn. auto.
  - exists m. rewrite in_app_iff. cbn. auto.
Qed.

Lemma matched_record_same_core w w' i p f :
  map core (matchedCases w') = map core (matchedCases w) ->
  matched_record w i p f -> matched_record w' i p f.
Proof.
  intros E (m & Hin & Hid & Hk & Hs & Hc).
  apply (in_map core) in Hin. rewrite <- E in Hin.
  apply in_map_iff in Hin as (m' & Hcore & Hin').
  exists m'. split; [exact Hin'|]. unfold core, pair_key in *.
  inversion Hcore. repeat split; congruence.
Qed.

Lemma ids_of_update matchId change ms m' ms' :
  (forall m, id (change m) = id m) ->
  update_first matchId change ms = Some (m', ms') ->
  map id ms' = map id ms.
Proof.
  intros Hc H. eapply (ControllerFacts.update_first_map id); [exact Hc|exact H].
Qed.

Lemma ids_are_keys_updated w matchId change m' ms' :
  (forall m, id (change m) = id m) ->
  update_first matchId change (matchedCases w) = Some (m', ms') ->
  ids_are_keys w -> ids_are_keys (set_matchedCases w ms' (nextId w)).
Proof.
  intros Hc EU [Hnd Hlt]. pose proof (ids_of_update _ _ _ _ _ Hc EU) as Hids.
  split; cbn; [rewrite Hids; exact Hnd|].
  rewrite Forall_forall in *. intros m Hin.
  apply (in_map id) in Hin. rewrite Hids in Hin.
  apply in_map_iff in Hin as (m0 & <- & Hin0). auto.
Qed.

Lemma ids_are_keys_created w m :
  id m = nextId w -> ids_are_keys w ->
  ids_are_keys (set_matchedCases w (matchedCases w ++ [m]) (S (nextId w))).
Proof.
  intros Hid [Hnd Hlt]. rewrite Forall_forall in Hlt. split; cbn.
  - rewrite map_app. cbn. apply NoDup_app; [exact Hnd|repeat constructor; intros []|].
    intros i Hi [<-|[]]. apply in_map_iff in Hi as (m0 & E & Hin).
    apply Hlt in Hin. lia.
  - apply Forall_forall. intros m0 Hin. apply in_app_iff in Hin as [Hin|[<-|[]]].
    + apply Hlt in Hin. lia.
    + lia.
Qed.

Lemma ids_are_keys_same_core w w' :
  map core (matchedCases w') = map core (matchedCases w) -> nextId w' = nextId w ->
  ids_are_keys w -> ids_are_keys w'.
Proof.
  intros Hcore Hnext [Hnd Hlt].
  assert (Hids : map id (matchedCases w') = map id (matchedCases w)).
  { apply (f_equal (map (fun c => fst (fst (fst (fst c)))))) in Hcore.
    rewrite !map_map in Hcore. exact Hcore. }
  split; [rewrite Hids; exact Hnd|]. rewrite Hnext.
  rewrite Forall_forall in *. intros m Hin.
  apply (in_map id) in Hin. rewrite Hids in Hin.
  apply in_map_iff in Hin as (m0 & <- & Hin0). auto.
Qed.

(** With ids as keys, the update by id changes the record it is given. *)
Lemma update_first_of_key change ms existing :
  NoDup (map id ms) -> In existing ms ->
  exists pre post,
    ms = pre ++ existing :: post /\
    update_first (id existing) change ms
    = Some (change existing, pre ++ change existing :: post).
Proof.
  induction ms as [|m ms IH]; intros Hnd Hin; [destruct Hin|].
  cbn in Hnd. inversion Hnd as [|? ? Hnot Hnd']; subst. cbn [update_first].
  destruct Hin as [->|Hin].
  - rewrite Nat.eqb_refl. exists [], ms. auto.
  - destruct (Nat.eqb (id m) (id existing)) eqn:E.
    + apply Nat.eqb_eq in E. exfalso. apply Hnot. rewrite E. apply in_map, Hin.
    + destruct (IH Hnd' Hin) as (pre & post & -> & ->).
      exists (m :: pre), post. auto.
Qed.

Section Reliable.
Variable e : env.
Hypothesis store_answers : forall call, db_fails e call = false.

(** The create-or-update block completes, and its record is MATCHED at
    confidence 95 for the pair. *)
Lemma upsert_match_reliable p f matchResult w :
  match_confidence matchResult = 95 -> ids_are_keys w ->
  exists m w',
    upsert_match e p f matchResult w = (Normal m, w') /\
    parentReports w' = parentReports w /\ finderReports w' = finderReports w /\
    notifications w' = notifications w /\
    ids_are_keys w' /\
    status m = MatchStatus.MATCHED /\
    matched_record w' (id m) p f /\
    (forall i p0 f0, matched_record w i p0 f0 -> matched_record w' i p0 f0).
Proof.
  intros Hconf Hkeys.
  unfold upsert_match, bind, matchedCase_findFirst, matchedCase_update,
    matchedCase_create, db, bind, ret, throw.
  rewrite ?store_answers. cbn.
  destruct (find (same_pair p f) (matchedCases w)) as [existing|] eqn:EF.
  - rewrite ?store_answers. cbn.
    apply find_some in EF as [Hin Hpair]. apply same_pair_true in Hpair.
    destruct (update_first_of_key
                (fun m => {| id := id m; parentCaseId := parentCaseId m;
                   finderCaseId := finderCaseId m; status := MatchStatus.MATCHED;
                   matchConfidence := match_confidence matchResult;
                   notificationSent := notificationSent m |})
                (matchedCases w) existing (proj1 Hkeys) Hin) as (pre & post & E & EU).
    rewrite EU. eexists _, _. split; [reflexivity|]. cbn.
    split; [reflexivity|]. split; [reflexivity|]. split; [reflexivity|].
    split; [eapply ids_are_keys_updated; [|exact EU|exact Hkeys]; reflexivity|].
    split; [reflexivity|]. split.
    + unfold matched_record. cbn. eexists. split;
        [rewrite in_app_iff; right; left; reflexivity|]. cbn.
      unfold pair_key in *. cbn. auto.
    + intros i p0 f0 H. eapply matched_record_updated; eauto.
  - rewrite ?store_answers. cbn. eexists _, _. split; [reflexivity|]. cbn.
    split; [reflexivity|]. split; [reflexivity|]. split; [reflexivity|].
    split; [apply ids_are_keys_created; [reflexivity|exact Hkeys]|].
    split; [reflexivity|]. split.
    + unfold matched_record. cbn. eexists. split;
        [rewrite in_app_iff; right; left; reflexivity|]. cbn. auto.
    + intros i p0 f0 (m & Hin & H). exists m. cbn. rewrite in_app_iff. auto.
Qed.

(** The notifications of the notification block, when both calls of
    sendNotification complete. *)
Lemma notify_both_sent parentReport finderReport matchRecord matchResult w :
  (forall n, notify_fails e n = false) ->
  notifications
    (snd (notify_both e parentReport finderReport matchRecord matchResult w))
  = notifications w
    ++ [{| userId := Some (ownerId parentReport); title := "Potential Match Found!";
           type := "MATCH_FOUND"; matchId := id matchRecord;
           confidence := match_confidence matchResult |};
        {| userId := Some (ownerId finderReport); title := "Potential Match Found!";
           type := "MATCH_FOUND"; matchId := id matchRecord;
           confidence := match_confidence matchResult |}].
Proof.
  intros Hn.
  unfold notify_both, try_catch, bind, sendNotification, matchedCase_update,
    console_error, db, bind, ret, throw.
  rewrite ?Hn, ?store_answers. cbn. rewrite ?Hn, ?store_answers. cbn.
  rewrite ?Hn, ?store_answers. cbn.
  destruct (update_first _ _ _) as [[m1 ms1]|]; cbn;
    rewrite <- app_assoc; reflexivity.
Qed.

(** The loop body of the list handlers. *)
Lemma match_reports_reliable p f parentReport finderReport other minConfidence
    summaries w :
  ids_are_keys w ->
  exists added w',
    match_reports e p f parentReport finderReport other minConfidence summaries w
    = (Normal (summaries ++ added), w') /\
    parentReports w' = parentReports w /\ finderReports w' = finderReports w /\
    ids_are_keys w' /\
    (if reports_match (face_oracle e) minConfidence parentReport finderReport
     then exists s, added = [s] /\ otherReportId s = other /\
                    summary_confidence s = 95 /\
                    summary_status s = MatchStatus.MATCHED /\
                    matched_record w' (summary_matchId s) p f /\
                    ((forall n, notify_fails e n = false) ->
                     notifications w'
                     = notifications w ++ both_owners_notified parentReport finderReport s)
     else added = [] /\ w' = w) /\
    (forall i p0 f0, matched_record w i p0 f0 -> matched_record w' i p0 f0).
Proof.
  intros Hkeys. unfold match_reports. cbv zeta.
  destruct (compareReportImages_matched (face_oracle e) minConfidence
              parentReport finderReport) as [Hm Hc].
  cbv zeta in Hm, Hc. rewrite <- Hm.
  destruct (matched _) eqn:EM.
  - specialize (Hc eq_refl).
    destruct (upsert_match_reliable p f _ w Hc Hkeys)
      as (m & w1 & EU & Hp1 & Hf1 & Hn1 & Hk1 & Hs1 & Hr1 & Hkeep1).
    unfold bind at 1. rewrite EU. unfold bind at 1.
    destruct (notify_both e parentReport finderReport m _ w1) as [r2 w2] eqn:EN.
    pose proof (notify_both_sent parentReport finderReport m
                  (compareReportImages (face_oracle e) (images parentReport)
                     (images finderReport) minConfidence) w1) as Hsent.
    rewrite EN in Hsent. cbn [snd] in Hsent.
    apply ControllerFacts.notify_both_run in EN as (-> & Hp2 & Hf2 & Hcore & _ & Hnext).
    eexists [_], w2. split; [reflexivity|].
    split; [congruence|]. split; [congruence|].
    split; [eapply ids_are_keys_same_core; eassumption|].
    split.
    + eexists. split; [reflexivity|]. cbn. split; [reflexivity|].
      split; [exact Hc|]. split; [exact Hs1|].
      split; [eapply matched_record_same_core; eassumption|].
      intros Hn. rewrite (Hsent Hn), Hn1. reflexivity.
    + intros i p0 f0 H. eapply matched_record_same_core; [eassumption|]. auto.
  - exists [], w. rewrite app_nil_r. split; [reflexivity|].
    split; [reflexivity|]. split; [reflexivity|]. split; [exact Hkeys|].
    split; [split; reflexivity|auto].
Qed.

Lemma combine_app_same_length {A B} (l1 l2 : list A) (r1 r2 : list B) :
  List.length l1 = List.length r1 ->
  combine (l1 ++ l2) (r1 ++ r2) = combine l1 r1 ++ combine l2 r2.
Proof.
  revert r1. induction l1 as [|a l1 IH]; intros [|b r1] H; try discriminate;
    [reflexivity|]. cbn. rewrite IH by (cbn in H; congruence). reflexivity.
Qed.

Lemma loop_result_nil pair_of sides w :
  ids_are_keys w -> loop_result e pair_of sides w w [] [].
Proof.
  intros Hk. split; [reflexivity|]. split; [reflexivity|]. split; [exact Hk|].
  split; [constructor|]. split; [auto|].
  intros _. cbn. rewrite app_nil_r. reflexivity.
Qed.

Lemma loop_result_step pair_of sides w w1 w2 added1 added2 others1 others2 :
  loop_result e pair_of sides w w1 added1 others1 ->
  loop_result e pair_of sides w1 w2 added2 others2 ->
  loop_result e pair_of sides w w2 (added1 ++ added2) (others1 ++ others2).
Proof.
  intros (Hp1 & Hf1 & Hk1 & Ha1 & Hkeep1 & Hn1) (Hp2 & Hf2 & Hk2 & Ha2 & Hkeep2 & Hn2).
  split; [congruence|]. split; [congruence|]. split; [exact Hk2|]. split; [|split].
  - apply Forall2_app; [|exact Ha2].
    eapply Forall2_impl; [|exact Ha1]. cbn. intros s o (A & B & C & D). auto.
  - auto.
  - intros Hn. rewrite (Hn2 Hn), (Hn1 Hn).
    rewrite combine_app_same_length by (eapply Forall2_length; exact Ha1).
    rewrite flat_map_app, app_assoc. reflexivity.
Qed.

Lemma loop_result_of_body pair_of sides p f parentReport finderReport other otherReport
    minConfidence summaries w :
  pair_of other = (p, f) -> sides otherReport = (parentReport, finderReport) ->
  report_id otherReport = other ->
  ids_are_keys w ->
  exists added w',
    match_reports e p f parentReport finderReport other minConfidence summaries w
    = (Normal (summaries ++ added), w') /\
    loop_result e pair_of sides w w' added
      (if reports_match (face_oracle e) minConfidence parentReport finderReport
       then [otherReport] else []).
Proof.
  intros Hpair Hsides Hid Hkeys.
  destruct (match_reports_reliable p f parentReport finderReport other minConfidence
              summaries w Hkeys)
    as (added & w' & E & Hp & Hf & Hk & Hres & Hkeep).
  exists added, w'. split; [exact E|].
  split; [exact Hp|]. split; [exact Hf|]. split; [exact Hk|].
  destruct (reports_match _ _ _ _).
  - destruct Hres as (s & -> & Ho & Hc & Hs & Hr & Hn).
    split; [|split; [exact Hkeep|]].
    + constructor; [|constructor]. rewrite Ho, Hpair. cbn. auto.
    + intros Hok. cbn. rewrite Hsides. cbn. rewrite (Hn Hok). reflexivity.
  - destruct Hres as [-> ->]. split; [constructor|]. split; [auto|].
    intros _. cbn. rewrite app_nil_r. reflexivity.
Qed.

Lemma parent_against_finders_reliable parentReportId parentReport minConfidence :
  forall finders summaries w,
  ids_are_keys w ->
  exists added w',
    parent_against_finders e parentReportId parentReport finders minConfidence
      summaries w = (Normal (summaries ++ added), w') /\
    loop_result e (fun other => (parentReportId, other))
      (fun finderReport => (parentReport, finderReport)) w w' added
      (filter (fun finderReport =>
                 has_images finderReport &&
                 reports_match (face_oracle e) minConfidence parentReport finderReport)
         finders).
Proof.
  induction finders as [|finderReport rest IH]; intros summaries w Hkeys.
  - exists [], w. rewrite app_nil_r. split; [reflexivity|].
    apply loop_result_nil, Hkeys.
  - cbn [parent_against_finders filter]. unfold has_images at 1.
    destruct (images finderReport) as [|i0 is0] eqn:EI; [apply IH, Hkeys|].
    cbn [andb].
    destruct (loop_result_of_body (fun other => (parentReportId, other))
                (fun finderReport => (parentReport, finderReport))
                parentReportId (report_id finderReport) parentReport finderReport
                (report_id finderReport) finderReport minConfidence summaries w
                eq_refl eq_refl eq_refl Hkeys)
      as (added1 & w1 & E1 & R1).
    unfold bind at 1. rewrite E1.
    destruct (IH (summaries ++ added1) w1 (proj1 (proj2 (proj2 R1))))
      as (added2 & w2 & E2 & R2).
    exists (added1 ++ added2), w2. rewrite app_assoc. split; [exact E2|].
    pose proof (loop_result_step _ _ _ _ _ _ _ _ _ R1 R2) as R.
    destruct (reports_match _ _ _ _); exact R.
Qed.

Lemma finder_against_parents_reliable finderReportId finderReport minConfidence :
  forall parents summaries w,
  ids_are_keys w ->
  exists added w',
    finder_against_parents e finderReportId finderReport parents minConfidence
      summaries w = (Normal (summaries ++ added), w') /\
    loop_result e (fun other => (other, finderReportId))
      (fun parentReport => (parentReport, finderReport)) w w' added
      (filter (fun parentReport =>
                 has_images parentReport &&
                 reports_match (face_oracle e) minConfidence parentReport finderReport)
         parents).
Proof.
  induction parents as [|parentReport rest IH]; intros summaries w Hkeys.
  - exists [], w. rewrite app_nil_r. split; [reflexivity|].
    apply loop_result_nil, Hkeys.
  - cbn [finder_against_parents filter]. unfold has_images at 1.
    destruct (images parentReport) as [|i0 is0] eqn:EI; [apply IH, Hkeys|].
    cbn [andb].
    destruct (loop_result_of_body (fun other => (other, finderReportId))
                (fun parentReport => (parentReport, finderReport))
                (report_id parentReport) finderReportId parentReport finderReport
                (report_id parentReport) parentReport minConfidence summaries w
                eq_refl eq_refl eq_refl Hkeys)
      as (added1 & w1 & E1 & R1).
    unfold bind at 1. rewrite E1.
    destruct (IH (summaries ++ added1) w1 (proj1 (proj2 (proj2 R1))))
      as (added2 & w2 & E2 & R2).
    exists (added1 ++ added2), w2. rewrite app_assoc. split; [exact E2|].
    pose proof (loop_result_step _ _ _ _ _ _ _ _ _ R1 R2) as R.
    destruct (reports_match _ _ _ _); exact R.
Qed.

End Reliable.

Lemma filter_filter {A} (f g : A -> bool) l :
  filter g (filter f l) = filter (fun x => f x && g x) l.
Proof.
  induction l as [|x l IH]; [reflexivity|]. cbn.
  destruct (f x); cbn; [destruct (g x)|]; rewrite IH; reflexivity.
Qed.

End HandlerFacts.

(** X9.  findMatchesForParentReport, when the store answers every call and
    the parent report exists and has an image, replies with one summary
    for each ACTIVE finder report with an image that matches the parent
    report, in the order of the store.  Every summary carries the id of
    its finder report, is MATCHED at confidence 95 and names a record of
    the pair.  When no call of sendNotification fails, the notifications
    sent are, summary by summary, one MATCH_FOUND notification to the owner
    of the parent report and one to the owner of the finder report, with
    the id of the record, whether the record existed before or not; the
    store keeps ids as keys, so the same holds for the next run. *)
Theorem findMatchesForParentReport_response
    (e : env) (parentReportId : string) (minConfidence : number) (w : world)
    (parentReport : Report) :
  (forall call, db_fails e call = false) ->
  ids_are_keys w ->
  find (fun r => String.eqb (report_id r) parentReportId) (parentReports w)
    = Some parentReport ->
  has_images parentReport = true ->
  let matching :=
    filter (fun finderReport =>
              active_with_images finderReport &&
              reports_match (face_oracle e) minConfidence parentReport finderReport)
      (finderReports w) in
  exists summaries w',
    findMatchesForParentReport e parentReportId minConfidence w
    = (Normal (MatchesFound summaries), w') /\
    map otherReportId summaries = map report_id matching /\
    Forall (fun s => summary_confidence s = 95%float /\
              summary_status s = MatchStatus.MATCHED /\
              matched_record w' (summary_matchId s) parentReportId (otherReportId s))
      summaries /\
    ((forall n, notify_fails e n = false) ->
     notifications w'
     = notifications w
       ++ flat_map (fun so => [match_notification (ownerId parentReport) (fst so);
                               match_notification (ownerId (snd so)) (fst so)])
            (combine summaries matching)) /\
    loop_result e (fun other => (parentReportId, other))
      (fun finderReport => (parentReport, finderReport)) w w' summaries matching.
Proof.
  intros Hdb Hkeys Hfind Himg matching.
  unfold findMatchesForParentReport, bind at 1, report_findUnique, bind at 1, db, ret.
  rewrite Hdb, Hfind. unfold has_images in Himg.
  destruct (images parentReport) as [|i0 is0] eqn:EI; [discriminate|].
  unfold bind at 1, report_findMany_active, bind at 1, db, ret. rewrite Hdb.
  destruct (HandlerFacts.parent_against_finders_reliable e Hdb parentReportId
              parentReport minConfidence
              (filter (fun r => CaseStatus.eqb (report_status r) CaseStatus.ACTIVE && true)
                 (finderReports w)) [] w Hkeys)
    as (added & w' & E & R).
  unfold bind at 1. rewrite E. exists added, w'. split; [reflexivity|].
  assert (Hlist : filter (fun finderReport =>
                     has_images finderReport &&
                     reports_match (face_oracle e) minConfidence parentReport finderReport)
                    (filter (fun r => CaseStatus.eqb (report_status r) CaseStatus.ACTIVE
                                      && true) (finderReports w)) = matching).
  { rewrite HandlerFacts.filter_filter. apply filter_ext.
    intros r. unfold active_with_images. rewrite andb_true_r, andb_assoc. reflexivity. }
  rewrite Hlist in R. pose proof R as (_ & _ & _ & Hall & _ & Hn).
  split; [|split; [|split; [exact Hn|exact R]]].
  - clear - Hall. induction Hall as [|s o ss os (Ho & _) _ IH]; [reflexivity|].
    cbn. rewrite Ho, IH. reflexivity.
  - clear - Hall. induction Hall as [|s o ss os (_ & A & B & C) _ IH]; constructor; auto.
Qed.

Lemma findMatchesForParentReport_response_witness :
  exists summaries w',
    findMatchesForParentReport reliable "A" 85%float with_pending_match
    = (Normal (MatchesFound summaries), w') /\
    map otherReportId summaries = ["B"; "C"; "D"]%string /\
    map userId (notifications w')
    = [Some "parent-1"; Some "finder-1"; Some "parent-1"; Some "finder-2";
       Some "parent-1"; Some "finder-3"]%string.
Proof.
  destruct (findMatchesForParentReport_response reliable "A" 85%float with_pending_match
              (active_report "A" "parent-1" [image "a1" [1; 0; 0]%float]))
    as (summaries & w' & E & Hids & _ & Hn & _).
  - intros call. reflexivity.
  - split; cbn.
    + constructor; [intros []|constructor].
    + repeat constructor.
  - reflexivity.
  - reflexivity.
  - exists summaries, w'. split; [exact E|]. split; [exact Hids|].
    rewrite (Hn (fun _ => eq_refl)).
    generalize Hids. clear. intros Hids.
    destruct summaries as [|s1 [|s2 [|s3 [|s4 rest]]]]; try discriminate.
    reflexivity.
Defined.

(** X10.  findMatchesForFinderReport, when the store answers every call
    and the finder report exists and has an image, replies with one summary
    for each ACTIVE parent report with an image that matches the finder
    report, in the order of the store.  Every summary carries the id of
    its parent report, is MATCHED at confidence 95 and names a record
    stored under (parent, finder).  When no call of sendNotification
    fails, the notifications sent are, summary by summary, one MATCH_FOUND
    notification to the owner of the parent report and one to the owner of
    the finder report, with the id of the record. *)
Theorem findMatchesForFinderReport_response
    (e : env) (finderReportId : string) (minConfidence : number) (w : world)
    (finderReport : Report) :
  (forall call, db_fails e call = false) ->
  ids_are_keys w ->
  find (fun r => String.eqb (report_id r) finderReportId) (finderReports w)
    = Some finderReport ->
  has_images finderReport = true ->
  let matching :=
    filter (fun parentReport =>
              active_with_images parentReport &&
              reports_match (face_oracle e) minConfidence parentReport finderReport)
      (parentReports w) in
  exists summaries w',
    findMatchesForFinderReport e finderReportId minConfidence w
    = (Normal (MatchesFound summaries), w') /\
    map otherReportId summaries = map report_id matching /\
    Forall (fun s => summary_confidence s = 95%float /\
              summary_status s = MatchStatus.MATCHED /\
              matched_record w' (summary_matchId s) (otherReportId s) finderReportId)
      summaries /\
    ((forall n, notify_fails e n = false) ->
     notifications w'
     = notifications w
       ++ flat_map (fun so => [match_notification (ownerId (snd so)) (fst so);
                               match_notification (ownerId finderReport) (fst so)])
            (combine summaries matching)) /\
    loop_result e (fun other => (other, finderReportId))
      (fun parentReport => (parentReport, finderReport)) w w' summaries matching.
Proof.
  intros Hdb Hkeys Hfind Himg matching.
  unfold findMatchesForFinderReport, bind at 1, report_findUnique, bind at 1, db, ret.
  rewrite Hdb, Hfind. unfold has_images in Himg.
  destruct (images finderReport) as [|i0 is0] eqn:EI; [discriminate|].
  unfold bind at 1, report_findMany_active, bind at 1, db, ret. rewrite Hdb.
  destruct (HandlerFacts.finder_against_parents_reliable e Hdb finderReportId
              finderReport minConfidence
              (filter (fun r => CaseStatus.eqb (report_status r) CaseStatus.ACTIVE && true)
                 (parentReports w)) [] w Hkeys)
    as (added & w' & E & R).
  unfold bind at 1. rewrite E. exists added, w'. split; [reflexivity|].
  assert (Hlist : filter (fun parentReport =>
                     has_images parentReport &&
                     reports_match (face_oracle e) minConfidence parentReport finderReport)
                    (filter (fun r => CaseStatus.eqb (report_status r) CaseStatus.ACTIVE
                                      && true) (parentReports w)) = matching).
  { rewrite HandlerFacts.filter_filter. apply filter_ext.
    intros r. unfold active_with_images. rewrite andb_true_r, andb_assoc. reflexivity. }
  rewrite Hlist in R. pose proof R as (_ & _ & _ & Hall & _ & Hn).
  split; [|split; [|split; [exact Hn|exact R]]].
  - clear - Hall. induction Hall as [|s o ss os (Ho & _) _ IH]; [reflexivity|].
    cbn. rewrite Ho, IH. reflexivity.
  - clear - Hall. induction Hall as [|s o ss os (_ & A & B & C) _ IH]; constructor; auto.
Qed.

Lemma findMatchesForFinderReport_response_witness :
  exists summaries w',
    findMatchesForFinderReport reliable "B" 85%float with_pending_match
    = (Normal (MatchesFound summaries), w') /\
    map otherReportId summaries = ["A"]%string /\
    map userId (notifications w') = [Some "parent-1"; Some "finder-1"]%string.
Proof.
  destruct (findMatchesForFinderReport_response reliable "B" 85%float with_pending_match
              (active_report "B" "finder-1" [image "b1" [1; 0; 0]%float]))
    as (summaries & w' & E & Hids & _ & Hn & _).
  - intros call. reflexivity.
  - split; cbn.
    + constructor; [intros []|constructor].
    + repeat constructor.
  - reflexivity.
  - reflexivity.
  - exists summaries, w'. split; [exact E|]. split; [exact Hids|].
    rewrite (Hn (fun _ => eq_refl)).
    generalize Hids. clear. intros Hids.
    destruct summaries as [|s1 [|s2 rest]]; try discriminate.
    reflexivity.
Defined.

Module LookupFacts.


End LookupFacts.



Module RejectionFacts.

Ltac done :=
  cbn; intros E H; inversion E; subst; first [reflexivity | discriminate].

End RejectionFacts.

(** X12.  A handler of faceMatchController that replies 404 or 400 (a
    report is missing, an id is missing, a report has no image) has
    changed nothing: no record, no notification and no log line. *)
Theorem handlers_reject_without_effect
    (e : env) (parentReportId finderReportId : string) (minConfidence : number)
    (w : world) :
  (is_rejection (fst (findMatchesForParentReport e parentReportId minConfidence w)) = true ->
   snd (findMatchesForParentReport e parentReportId minConfidence w) = w) /\
  (is_rejection (fst (findMatchesForFinderReport e finderReportId minConfidence w)) = true ->
   snd (findMatchesForFinderReport e finderReportId minConfidence w) = w) /\
  (is_rejection
     (fst (compareSpecificReports e parentReportId finderReportId minConfidence w)) = true ->
   snd (compareSpecificReports e parentReportId finderReportId minConfidence w) = w).
Proof.
  split; [|split].
  - destruct (findMatchesForParentReport e parentReportId minConfidence w)
      as [r w'] eqn:E. cbn [fst snd]. revert E.
    unfold findMatchesForParentReport, bind, report_findUnique, report_findMany_active,
      bind, db, ret, throw.
    destruct (db_fails e (FindUniqueParent _)); [RejectionFacts.done|].
    destruct (find _ (parentReports w)) as [parentReport|]; [|RejectionFacts.done].
    destruct (images parentReport); [RejectionFacts.done|].
    destruct (db_fails e FindManyFinders); [RejectionFacts.done|].
    destruct (parent_against_finders _ _ _ _ _ _ _) as [[ms|err] w1];
      RejectionFacts.done.
  - destruct (findMatchesForFinderReport e finderReportId minConfidence w)
      as [r w'] eqn:E. cbn [fst snd]. revert E.
    unfold findMatchesForFinderReport, bind, report_findUnique, report_findMany_active,
      bind, db, ret, throw.
    destruct (db_fails e (FindUniqueFinder _)); [RejectionFacts.done|].
    destruct (find _ (finderReports w)) as [finderReport|]; [|RejectionFacts.done].
    destruct (images finderReport); [RejectionFacts.done|].
    destruct (db_fails e FindManyParents); [RejectionFacts.done|].
    destruct (finder_against_parents _ _ _ _ _ _ _) as [[ms|err] w1];
      RejectionFacts.done.
  - destruct (compareSpecificReports e parentReportId finderReportId minConfidence w)
      as [r w'] eqn:E. cbn [fst snd]. revert E.
    unfold compareSpecificReports.
    destruct (_ || _)%bool; [RejectionFacts.done|].
    unfold bind, report_findUnique, bind, db, ret, throw.
    destruct (db_fails e (FindUniqueParent _)); [RejectionFacts.done|].
    destruct (db_fails e (FindUniqueFinder _)); [RejectionFacts.done|].
    cbv beta iota.
    destruct (find _ (parentReports w)) as [parentReport|]; [|RejectionFacts.done].
    destruct (find _ (finderReports w)) as [finderReport|]; [|RejectionFacts.done].
    destruct (images parentReport), (images finderReport); try RejectionFacts.done.
    destruct (matched _); [|RejectionFacts.done].
    destruct (upsert_match _ _ _ _ _) as [[m|err] w1]; RejectionFacts.done.
Qed.

Lemma handlers_reject_without_effect_witness :
  snd (findMatchesForParentReport reliable "Z" 85%float reports_only) = reports_only.
Proof.
  apply (proj1 (handlers_reject_without_effect reliable "Z" "B" 85%float reports_only)).
  reflexivity.
Defined.

(** * What findMatches returns and announces *)

Module NewMatchFacts.

Import StoreFacts VectorPathFacts.
Local Open Scope float_scope.

Ltac sent_of_new :=
  first [ exists []; rewrite app_nil_r; split; [reflexivity|apply Forall_nil]
        | eexists; split; [rewrite <- ?app_assoc; reflexivity|]; cbn [app];
          repeat (apply Forall_cons;
                  [eexists; split; [left; reflexivity|reflexivity]|]);
          apply Forall_nil ].

Lemma process_target_full e reportId reportType src tgt ms w r w' :
  process_target e reportId reportType src tgt ms w = (r, w') ->
  exists added,
    matchedCases w' = matchedCases w ++ added /\
    Forall (new_match_of reportId reportType src tgt) added /\
    (exists sent, notifications w' = notifications w ++ sent /\
       Forall (fun n => exists m, In m added /\ matchId n = id m) sent) /\
    match r with
    | Normal ms' =>
        ms' = ms ++ added /\
        map announcement (notifications w')
        = map announcement (notifications w) ++ flat_map announcements_of added
    | Throw _ => True
    end.
Proof.
  intros H. unfold process_target in H.
  destruct (accepted (images src) (images tgt)) eqn:Hacc.
  2:{ inversion H; subst. exists []. rewrite !app_nil_r. cbn.
      split; [reflexivity|]. split; [constructor|]. split; [sent_of_new|].
      split; [reflexivity|]. rewrite ?app_nil_r. reflexivity. }
  pose proof (candidate_key_eq reportId reportType tgt) as Hkey.
  set (p := if String.eqb reportType "PARENT" then reportId else report_id tgt) in *.
  set (f := if String.eqb reportType "PARENT" then report_id tgt else reportId) in *.
  clearbody p f.
  unfold bind, matchedCase_findFirst, matchedCase_create, sendNotification, db, bind,
    ret, throw in H.
  run_cases H; inversion H; subst; clear H; cbn.
  all: try (exists []; rewrite !app_nil_r; cbn;
      split; [reflexivity|]; split; [constructor|]; split; [sent_of_new|];
      first [exact I | split; [reflexivity|rewrite ?app_nil_r; reflexivity]]).
  all: eexists [_]; split; [reflexivity|]; split;
    [ apply Forall_cons; [|apply Forall_nil]; unfold new_match_of;
      rewrite Hkey; cbn; repeat split; try reflexivity; exact Hacc
    | split; [sent_of_new|] ].
  all: try exact I.
  split; [reflexivity|]. rewrite <- !app_assoc, !map_app. reflexivity.
Qed.

Lemma process_targets_full e reportId reportType src : forall targets ms w r w',
  process_targets e reportId reportType src targets ms w = (r, w') ->
  exists added,
    matchedCases w' = matchedCases w ++ added /\
    Forall (fun m => exists t, In t targets /\ new_match_of reportId reportType src t m)
      added /\
    (exists sent, notifications w' = notifications w ++ sent /\
       Forall (fun n => exists m, In m added /\ matchId n = id m) sent) /\
    match r with
    | Normal ms' =>
        ms' = ms ++ added /\
        map announcement (notifications w')
        = map announcement (notifications w) ++ flat_map announcements_of added
    | Throw _ => True
    end.
Proof.
  induction targets as [|t rest IH]; intros ms w r w' H.
  - inversion H; subst. exists []. rewrite !app_nil_r. cbn.
    split; [reflexivity|]. split; [constructor|]. split; [sent_of_new|].
    split; [reflexivity|]. rewrite ?app_nil_r. reflexivity.
  - cbn [process_targets] in H. unfold bind in H.
    destruct (process_target e reportId reportType src t ms w) as [[ms1|err] w1] eqn:E1;
      apply process_target_full in E1
        as (added1 & Hm1 & Ha1 & (sent1 & Hs1 & Hf1) & Hr1).
    + destruct Hr1 as [-> Hn1].
      apply IH in H as (added2 & Hm2 & Ha2 & (sent2 & Hs2 & Hf2) & Hr2).
      exists (added1 ++ added2). rewrite Hm2, Hm1, <- app_assoc.
      split; [reflexivity|]. split; [|split].
      * apply Forall_app. split.
        -- eapply Forall_impl; [|exact Ha1]. cbn. intros m Hm. exists t.
           split; [left; reflexivity|exact Hm].
        -- eapply Forall_impl; [|exact Ha2]. cbn. intros m (t0 & Hin & Hm).
           exists t0. split; [right; exact Hin|exact Hm].
      * exists (sent1 ++ sent2). rewrite Hs2, Hs1, <- app_assoc.
        split; [reflexivity|]. apply Forall_app. split.
        -- eapply Forall_impl; [|exact Hf1]. cbn. intros n (m & Hin & Hid).
           exists m. rewrite in_app_iff. auto.
        -- eapply Forall_impl; [|exact Hf2]. cbn. intros n (m & Hin & Hid).
           exists m. rewrite in_app_iff. auto.
      * destruct r as [ms'|err]; [|exact I]. destruct Hr2 as [-> Hn2].
        rewrite app_assoc. split; [reflexivity|].
        rewrite Hn2, Hn1, flat_map_app, app_assoc. reflexivity.
    + inversion H; subst. exists added1. split; [exact Hm1|]. split; [|split].
      * eapply Forall_impl; [|exact Ha1]. cbn. intros m Hm. exists t.
        split; [left; reflexivity|exact Hm].
      * exists sent1. auto.
      * exact I.
Qed.

Lemma findMatches_full e reportId reportType w r w' :
  findMatches e reportId reportType w = (r, w') ->
  exists added,
    matchedCases w' = matchedCases w ++ added /\
    Forall (fun m => exists src t,
              find (fun r => String.eqb (report_id r) reportId)
                (source_table reportType w) = Some src /\
              In t (target_table reportType w) /\ is_candidate reportId t = true /\
              new_match_of reportId reportType src t m) added /\
    (exists sent, notifications w' = notifications w ++ sent /\
       Forall (fun n => exists m, In m added /\ matchId n = id m) sent) /\
    match r with
    | Normal ms =>
        ms = added /\
        map announcement (notifications w')
        = map announcement (notifications w) ++ flat_map announcements_of added
    | Throw _ => True
    end.
Proof.
  unfold findMatches, try_catch, bind at 1.
  destruct (load_reports e reportId reportType w) as [[[src targets]|err] w0] eqn:EL;
    apply load_reports_run in EL as [-> EL].
  2:{ cbn. intros H; inversion H; subst; clear H. cbn.
      exists []. rewrite !app_nil_r. split; [reflexivity|]. split; [constructor|].
      split; [sent_of_new|exact I]. }
  destruct EL as [Hsrc ->]. cbn [fst snd]. unfold bind at 1.
  destruct (process_targets e reportId reportType src
              (filter (is_candidate reportId) (target_table reportType w)) [] w)
    as [[ms|err] w1] eqn:EP;
    apply process_targets_full in EP as (added & Hm & Ha & (sent & Hs & Hf) & Hr).
  all: cbn; intros H; inversion H; subst; clear H; cbn.
  all: exists added; split; [exact Hm|]; split;
    [ eapply Forall_impl; [|exact Ha]; cbn; intros m (t & Hin & Hnew);
      apply filter_In in Hin as [Hin Hc]; exists src, t; auto
    | split; [exists sent; auto|] ].
  - destruct Hr as [-> Hn]. auto.
  - exact I.
Qed.

End NewMatchFacts.

Module SecondRunFacts.

Import StoreFacts VectorPathFacts.

(** When every accepted candidate has its record already, a run stores
    and announces nothing. *)
Lemma findMatches_nothing_new e reportId reportType w r w' :
  findMatches e reportId reportType w = (r, w') ->
  (forall src,
     find (fun r => String.eqb (report_id r) reportId) (source_table reportType w)
       = Some src ->
     forall t, In t (target_table reportType w) -> is_candidate reportId t = true ->
       accepted (images src) (images t) = true ->
       In (candidate_key reportId reportType t) (pair_keys w)) ->
  matchedCases w' = matchedCases w /\ notifications w' = notifications w.
Proof.
  unfold findMatches, try_catch, bind at 1.
  destruct (load_reports e reportId reportType w) as [[[src targets]|err] w0] eqn:EL;
    apply load_reports_run in EL as [-> EL].
  2:{ cbn. intros H _; inversion H; subst; clear H. cbn. auto. }
  destruct EL as [Hsrc ->]. cbn [fst snd]. unfold bind at 1.
  destruct (process_targets e reportId reportType src
              (filter (is_candidate reportId) (target_table reportType w)) [] w)
    as [[ms|err] w1] eqn:EP;
    apply process_targets_run in EP as (_ & _ & _ & _ & Hs).
  all: cbn; intros H Hpresent; inversion H; subst; clear H; cbn.
  all: rewrite Hs; [auto|]; intros t Ht Ha; apply filter_In in Ht as [Ht Hc];
    apply (Hpresent src Hsrc); assumption.
Qed.

Lemma tables_same reportType w w' :
  parentReports w' = parentReports w -> finderReports w' = finderReports w ->
  source_table reportType w' = source_table reportType w /\
  target_table reportType w' = target_table reportType w.
Proof.
  unfold source_table, target_table. intros -> ->. auto.
Qed.

End SecondRunFacts.

(** X13.  When findMatches completes, the list it returns is exactly the
    list of records it has appended to the store, and for every one of
    them, in order, three notifications have been sent: two MATCH_FOUND
    and one ADMIN_ALERT, each with the id and the confidence of the
    record. *)
Theorem findMatches_returns_new_records
    (e : env) (reportId reportType : string) (w w' : world) (matches : list MatchedCase) :
  findMatches e reportId reportType w = (Normal matches, w') ->
  matchedCases w' = matchedCases w ++ matches /\
  map announcement (notifications w')
  = map announcement (notifications w) ++ flat_map announcements_of matches /\
  List.length (notifications w')
  = (List.length (notifications w) + 3 * List.length matches)%nat.
Proof.
  intros H.
  apply NewMatchFacts.findMatches_full in H as (added & Hm & _ & _ & -> & Hn).
  split; [exact Hm|]. split; [exact Hn|].
  apply (f_equal (@List.length _)) in Hn.
  rewrite length_app, !length_map in Hn. rewrite Hn. f_equal.
  clear. induction added as [|m l IH]; [reflexivity|].
  cbn [flat_map announcements_of]. rewrite length_app, IH. cbn. lia.
Qed.

Lemma findMatches_returns_new_records_witness :
  matchedCases (snd (findMatches reliable "A" "PARENT" reports_only))
  = matchedCases reports_only
    ++ match fst (findMatches reliable "A" "PARENT" reports_only) with
       | Normal matches => matches
       | Throw _ => []
       end.
Proof.
  refine (proj1 (findMatches_returns_new_records reliable "A" "PARENT" reports_only
                   (snd (findMatches reliable "A" "PARENT" reports_only))
                   match fst (findMatches reliable "A" "PARENT" reports_only) with
                   | Normal matches => matches
                   | Throw _ => []
                   end _)).
  vm_compute. reflexivity.
Defined.

(** X14.  Whatever happens during a run of findMatches, records are only
    appended, and every appended record belongs to an ACTIVE report of the
    other role, different from the source report, whose best similarity
    with the source report reaches 0.7: the record is stored under the
    pair in (parent, finder) order, is PENDING, has its notification flag
    unset and that best similarity as its confidence.  Every notification
    sent during the run carries the id of one of these records. *)
Theorem findMatches_records_are_sound (e : env) (reportId reportType : string) (w : world) :
  let w' := snd (findMatches e reportId reportType w) in
  exists added sent,
    matchedCases w' = matchedCases w ++ added /\
    notifications w' = notifications w ++ sent /\
    Forall (fun m => exists sourceReport targetReport,
              find (fun r => String.eqb (report_id r) reportId)
                (source_table reportType w) = Some sourceReport /\
              In targetReport (target_table reportType w) /\
              is_candidate reportId targetReport = true /\
              new_match_of reportId reportType sourceReport targetReport m) added /\
    Forall (fun n => exists m, In m added /\ matchId n = id m) sent.
Proof.
  intros w'. subst w'.
  destruct (findMatches e reportId reportType w) as [r w'] eqn:E. cbn [snd].
  apply NewMatchFacts.findMatches_full in E as (added & Hm & Ha & (sent & Hs & Hf) & _).
  exists added, sent. auto.
Qed.

(** X15.  After a run of findMatches that completed, a second run for the
    same report stores no record and sends no notification, whatever fails
    or does not fail during it; if it completes, it returns the empty
    list. *)
Theorem findMatches_second_run_is_silent
    (e1 e2 : env) (reportId reportType : string) (w w1 w2 : world)
    (matches : list MatchedCase) (r2 : completion (list MatchedCase)) :
  findMatches e1 reportId reportType w = (Normal matches, w1) ->
  findMatches e2 reportId reportType w1 = (r2, w2) ->
  matchedCases w2 = matchedCases w1 /\
  notifications w2 = notifications w1 /\
  (r2 = Normal [] \/ exists error, r2 = Throw error).
Proof.
  intros H1 H2.
  pose proof (VectorPathFacts.findMatches_run _ _ _ _ _ _ H1)
    as (Hp & Hf & _ & Hall & _).
  destruct (Hall eq_refl) as (src & Hsrc & Hkeys).
  destruct (SecondRunFacts.tables_same reportType w w1 Hp Hf) as [Hst Htt].
  assert (Hsame : matchedCases w2 = matchedCases w1 /\
                  notifications w2 = notifications w1).
  { apply (SecondRunFacts.findMatches_nothing_new _ _ _ _ _ _ H2).
    rewrite Hst, Htt. intros src' Hsrc' t Ht Hc Ha.
    rewrite Hsrc in Hsrc'. inversion Hsrc'; subst src'. apply Hkeys; assumption. }
  destruct Hsame as [Hm Hn]. split; [exact Hm|]. split; [exact Hn|].
  destruct r2 as [ms2|err]; [left|right; eauto].
  apply NewMatchFacts.findMatches_full in H2 as (added & Hm2 & _ & _ & -> & _).
  rewrite Hm in Hm2. rewrite <- (app_nil_r (matchedCases w1)) in Hm2 at 1.
  apply app_inv_head in Hm2. subst. reflexivity.
Qed.

Lemma findMatches_second_run_is_silent_witness :
  notifications (snd (findMatches notifications_fail "A" "PARENT"
                        (snd (findMatches reliable "A" "PARENT" reports_only))))
  = notifications (snd (findMatches reliable "A" "PARENT" reports_only)).
Proof.
  refine (proj1 (proj2 (findMatches_second_run_is_silent reliable notifications_fail
           "A" "PARENT" reports_only
           (snd (findMatches reliable "A" "PARENT" reports_only))
           (snd (findMatches notifications_fail "A" "PARENT"
                   (snd (findMatches reliable "A" "PARENT" reports_only))))
           match fst (findMatches reliable "A" "PARENT" reports_only) with
           | Normal matches => matches
           | Throw _ => []
           end
           (fst (findMatches notifications_fail "A" "PARENT"
                   (snd (findMatches reliable "A" "PARENT" reports_only))))
           _ _))).
  - vm_compute. reflexivity.
  - vm_compute. reflexivity.
Defined.

(** X16.  findMatches fails, storing and announcing nothing, when the
    report type is neither PARENT nor FINDER or when the source report is
    not in the table of its role; if the lookup itself is answered, the
    error is the one the function raises for that case. *)
Theorem findMatches_rejects (e : env) (reportId reportType : string) (w : world) :
  (String.eqb reportType "PARENT" || String.eqb reportType "FINDER")%bool = false \/
  find (fun r => String.eqb (report_id r) reportId) (source_table reportType w) = None ->
  let run := findMatches e reportId reportType w in
  is_normal (fst run) = false /\
  matchedCases (snd run) = matchedCases w /\
  notifications (snd run) = notifications w /\
  console (snd run) = console w ++ ["Error finding matches:"%string] /\
  ((forall call, db_fails e call = false) ->
   fst run = Throw (if String.eqb reportType "PARENT" then "Parent report not found"
                    else if String.eqb reportType "FINDER" then "Finder report not found"
                    else "Invalid report type")).
Proof.
  intros H run. subst run.
  unfold source_table in H.
  unfold findMatches, try_catch, bind at 1, load_reports.
  destruct (String.eqb reportType "PARENT") eqn:EP;
    [|destruct (String.eqb reportType "FINDER") eqn:EF].
  all: destruct H as [H|H]; try discriminate.
  all: unfold bind, report_findUnique, report_findMany_active, db, ret, throw,
         console_error, bind.
  3, 4: cbn; repeat split; auto.
  all: destruct (db_fails e _) eqn:Hdb; cbn; rewrite ?H; cbn; repeat split; auto.
  all: intros Hok; rewrite Hok in Hdb; discriminate.
Qed.

Lemma findMatches_rejects_witness :
  fst (findMatches reliable "A" "CHILD" reports_only) = Throw "Invalid report type".
Proof.
  refine (proj2 (proj2 (proj2 (proj2
           (findMatches_rejects reliable "A" "CHILD" reports_only _)))) _).
  - left. reflexivity.
  - intros call. reflexivity.
Defined.

(** * The best similarity of two reports *)

Module BestScoreOrderFacts.

Import FloatFacts FloatOrderFacts BestScoreFacts.
Local Open Scope float_scope.

Lemma In_comparable_scores s sourceImages targetImages :
  In s (comparable_scores sourceImages targetImages) <->
  exists si ti vs vt,
    In si sourceImages /\ In ti targetImages /\
    usable_vector si = Some vs /\ usable_vector ti = Some vt /\
    s = calculateSimilarity (JArray vs) (JArray vt).
Proof.
  unfold comparable_scores. rewrite in_flat_map. split.
  - intros (si & Hsi & H). destruct (usable_vector si) as [vs|] eqn:Es; [|destruct H].
    apply in_flat_map in H as (ti & Hti & H).
    destruct (usable_vector ti) as [vt|] eqn:Et; [|destruct H].
    destruct H as [<-|[]]. exists si, ti, vs, vt. auto.
  - intros (si & ti & vs & vt & Hsi & Hti & Es & Et & ->).
    exists si. split; [exact Hsi|]. rewrite Es. apply in_flat_map.
    exists ti. split; [exact Hti|]. rewrite Et. left. reflexivity.
Qed.

(** The best similarity is 0 or a positive number. *)
Lemma bestSimilarity_sign sourceImages targetImages :
  (0 <? bestSimilarity sourceImages targetImages) = true \/
  bestSimilarity sourceImages targetImages = 0.
Proof.
  rewrite bestSimilarity_fold.
  destruct (fold_better_spec (comparable_scores sourceImages targetImages) 0 eq_refl)
    as (Hn & _ & _ & [E|Hin]); cbv zeta in *; [right; exact E|].
  pose proof (comparable_scores_sign sourceImages targetImages) as Hs.
  rewrite Forall_forall in Hs. destruct (Hs _ Hin) as [E|[E|E]]; auto. congruence.
Qed.

(** The best similarity over fewer pairs is at most the one over more. *)
Lemma bestSimilarity_le S T S' T' :
  (forall s, In s (comparable_scores S T) -> In s (comparable_scores S' T')) ->
  (bestSimilarity S T <=? bestSimilarity S' T') = true.
Proof.
  intros Hincl. rewrite !bestSimilarity_fold.
  destruct (fold_better_spec (comparable_scores S T) 0 eq_refl)
    as (Hn1 & _ & _ & Hin1).
  destruct (fold_better_spec (comparable_scores S' T') 0 eq_refl)
    as (_ & Hle2 & Hall2 & _).
  cbv zeta in *. destruct Hin1 as [->|Hin1]; [exact Hle2|].
  rewrite Forall_forall in Hall2. specialize (Hall2 _ (Hincl _ Hin1)).
  rewrite Hn1 in Hall2. exact Hall2.
Qed.

End BestScoreOrderFacts.

(** * The best score against the pairs of non-empty vectors *)

Module BestScoreSpecFacts.

Import FloatFacts BestScoreFacts BestScoreOrderFacts StoreFacts VectorPathFacts.
Local Open Scope float_scope.

Lemma usable_vector_spec image v :
  usable_vector image = Some v <-> non_empty_vector image v.
Proof.
  unfold usable_vector, non_empty_vector.
  destruct (embeddingVector image) as [[|x l]|]; split.
  all: try discriminate.
  all: try (intros [H1 H2]; congruence).
  intros H. inversion H; subst. split; [reflexivity|discriminate].
Qed.

Lemma comparable_score_In S T s :
  comparable_score S T s <-> In s (comparable_scores S T).
Proof.
  rewrite In_comparable_scores. unfold comparable_score.
  split; intros (si & ti & vs & vt & H1 & H2 & H3 & H4 & H5);
    exists si, ti, vs, vt; apply usable_vector_spec in H3, H4; auto.
Qed.

(** The best score is a number, it bounds every comparable score that is a
    number, and it is a comparable score, or 0 when none is a number. *)
Lemma bestSimilarity_spec S T :
  is_nan (bestSimilarity S T) = false /\
  (forall s, comparable_score S T s -> is_nan s = false ->
     (s <=? bestSimilarity S T) = true) /\
  (comparable_score S T (bestSimilarity S T) \/
   (bestSimilarity S T = 0 /\ forall s, comparable_score S T s -> is_nan s = true)).
Proof.
  rewrite bestSimilarity_fold.
  destruct (fold_better_spec (comparable_scores S T) 0 eq_refl) as (Hn & _ & Hall & Hin).
  cbv zeta in *. split; [exact Hn|]. split.
  - intros s Hs Hnan. apply comparable_score_In in Hs.
    rewrite Forall_forall in Hall. specialize (Hall _ Hs).
    rewrite Hnan in Hall. exact Hall.
  - destruct Hin as [E|Hin]; [|left; apply comparable_score_In; exact Hin].
    rewrite E in Hall |- *.
    destruct (zero_or_all_nan _ (comparable_scores_sign S T) Hall) as [H0|Hnan].
    + left. apply comparable_score_In, H0.
    + right. split; [reflexivity|]. intros s Hs. apply comparable_score_In in Hs.
      rewrite Forall_forall in Hnan. auto.
Qed.

Lemma no_comparable_pair_best S T :
  no_comparable_pair S T -> bestSimilarity S T = 0.
Proof.
  intros Hno. destruct (bestSimilarity_spec S T) as (_ & _ & [H|[H _]]); [|exact H].
  destruct H as (si & ti & vs & vt & H1 & H2 & H3 & H4 & _).
  exfalso. exact (Hno si ti vs vt H1 H2 H3 H4).
Qed.

Lemma rejected_run e reportId reportType src tgt ms w :
  (0.7 <=? bestSimilarity (images src) (images tgt)) = false ->
  process_target e reportId reportType src tgt ms w = (Normal ms, w).
Proof.
  intros H. unfold process_target, accepted.
  change SIMILARITY_THRESHOLD with 0.7. rewrite H. reflexivity.
Qed.

Lemma accepted_run e reportId reportType src tgt ms w :
  (0.7 <=? bestSimilarity (images src) (images tgt)) = true ->
  let key := candidate_key reportId reportType tgt in
  db_fails e (FindFirstMatch (fst key) (snd key)) = false ->
  db_fails e (CreateMatch (fst key) (snd key)) = false ->
  records_for (fst key) (snd key) w = [] ->
  exists m,
    matchedCases (snd (process_target e reportId reportType src tgt ms w))
      = matchedCases w ++ [m] /\
    pair_key m = key /\
    matchConfidence m = bestSimilarity (images src) (images tgt) /\
    status m = MatchStatus.PENDING.
Proof.
  intros Hacc key. subst key. rewrite candidate_key_eq. cbn [fst snd].
  intros Hfind Hcreate Hnone.
  assert (Hf : find (same_pair
                      (if String.eqb reportType "PARENT" then reportId else report_id tgt)
                      (if String.eqb reportType "PARENT" then report_id tgt else reportId))
                 (matchedCases w) = None).
  { unfold records_for in Hnone.
    match goal with |- find ?p ?l = None => destruct (find p l) as [m|] eqn:E end;
      [|reflexivity].
    apply find_some in E as [E1 E2].
    assert (In m (filter (same_pair
                      (if String.eqb reportType "PARENT" then reportId else report_id tgt)
                      (if String.eqb reportType "PARENT" then report_id tgt else reportId))
                    (matchedCases w))) as Hin by (apply filter_In; auto).
    rewrite Hnone in Hin. destruct Hin. }
  destruct (process_target e reportId reportType src tgt ms w) as [r w'] eqn:H.
  cbn [snd]. unfold process_target, accepted in H.
  change SIMILARITY_THRESHOLD with 0.7 in H. rewrite Hacc in H.
  set (p := if String.eqb reportType "PARENT" then reportId else report_id tgt) in *.
  set (f := if String.eqb reportType "PARENT" then report_id tgt else reportId) in *.
  clearbody p f.
  unfold bind, matchedCase_findFirst, matchedCase_create, sendNotification, db, bind,
    ret, throw in H.
  rewrite Hfind, Hcreate in H. cbn in H. rewrite Hf in H.
  run_cases H; inversion H; subst; clear H; cbn.
  all: eexists; split; [reflexivity|]; repeat split; reflexivity.
Qed.

End BestScoreSpecFacts.

(** C3 (counterexample).  The only pair of images that can be compared
    has a similarity that is NaN; the best score is 0, which is not the
    similarity of any pair. *)
Lemma bestSimilarity_skips_nan :
  comparable_score [huge_image] [huge_image]
    (calculateSimilarity (JArray [1e200]%float) (JArray [1e200]%float)) /\
  (forall s, comparable_score [huge_image] [huge_image] s -> PrimFloat.is_nan s = true) /\
  bestSimilarity [huge_image] [huge_image] = 0%float /\
  ~ comparable_score [huge_image] [huge_image] (bestSimilarity [huge_image] [huge_image]).
Proof.
  assert (Hall : forall s, comparable_score [huge_image] [huge_image] s ->
                           PrimFloat.is_nan s = true).
  { intros s (si & ti & vs & vt & [<-|[]] & [<-|[]] & [Hs _] & [Ht _] & ->).
    cbn in Hs, Ht. inversion Hs; inversion Ht; subst. vm_compute. reflexivity. }
  split; [|split; [exact Hall|split]].
  - exists huge_image, huge_image, [1e200]%float, [1e200]%float.
    repeat split; try (left; reflexivity); discriminate.
  - vm_compute. reflexivity.
  - intros H. apply Hall in H. revert H. vm_compute. discriminate.
Qed.

(** C3 (amended).  For a source report and a candidate, the best score
    that findMatches computes is a number.  It is at least every
    similarity of a source image and a candidate image whose vectors are
    both non-empty, as far as that similarity is a number, and it is one
    of these similarities, or 0 when none of them is a number: a
    similarity that is NaN is passed over.  When the best score is below
    0.7 the candidate is passed over: nothing is looked up, stored or
    sent.  When it is at least 0.7, 0.7 itself included, the pair has no
    record and the store answers, one PENDING record with the best score
    as its confidence is stored for the pair.  A candidate without a pair
    of non-empty vectors has best score 0 and is passed over.  In a run of
    findMatches every record that is added belongs to a candidate whose
    best score is at least 0.7 and carries that score, and after a run
    that completes every candidate with such a score has a record. *)
Theorem bestSimilarity_is_maximum (e : env) (reportId reportType : string)
    (sourceReport targetReport : Report) (matches : list MatchedCase) (w : world) :
  let sourceImages := images sourceReport in
  let targetImages := images targetReport in
  let best := bestSimilarity sourceImages targetImages in
  let key := candidate_key reportId reportType targetReport in
  let run := process_target e reportId reportType sourceReport targetReport matches w in
  PrimFloat.is_nan best = false /\
  (forall s, comparable_score sourceImages targetImages s -> PrimFloat.is_nan s = false ->
     (s <=? best)%float = true) /\
  (comparable_score sourceImages targetImages best \/
   (best = 0%float /\
    forall s, comparable_score sourceImages targetImages s -> PrimFloat.is_nan s = true)) /\
  ((0.7 <=? best)%float = false -> run = (Normal matches, w)) /\
  ((0.7 <=? best)%float = true ->
   db_fails e (FindFirstMatch (fst key) (snd key)) = false ->
   db_fails e (CreateMatch (fst key) (snd key)) = false ->
   records_for (fst key) (snd key) w = [] ->
   exists m, matchedCases (snd run) = matchedCases w ++ [m] /\ pair_key m = key /\
             matchConfidence m = best /\ status m = MatchStatus.PENDING) /\
  (best = 0.7%float -> (0.7 <=? best)%float = true) /\
  ((best <? 0.7)%float = true -> (0.7 <=? best)%float = false) /\
  (no_comparable_pair sourceImages targetImages ->
   best = 0%float /\ run = (Normal matches, w)) /\
  (forall w0,
     find (fun r => String.eqb (report_id r) reportId) (source_table reportType w0)
       = Some sourceReport ->
     let result := findMatches e reportId reportType w0 in
     (exists added, matchedCases (snd result) = matchedCases w0 ++ added /\
        Forall (fun m => exists t,
                  In t (target_table reportType w0) /\ is_candidate reportId t = true /\
                  pair_key m = candidate_key reportId reportType t /\
                  matchConfidence m = bestSimilarity sourceImages (images t) /\
                  (0.7 <=? bestSimilarity sourceImages (images t))%float = true) added) /\
     (is_normal (fst result) = true ->
      forall t, In t (target_table reportType w0) -> is_candidate reportId t = true ->
        (0.7 <=? bestSimilarity sourceImages (images t))%float = true ->
        In (candidate_key reportId reportType t) (pair_keys (snd result)))).
Proof.
  intros sourceImages targetImages best key run.
  destruct (BestScoreSpecFacts.bestSimilarity_spec sourceImages targetImages)
    as (Hn & Hle & Hin).
  split; [exact Hn|]. split; [exact Hle|]. split; [exact Hin|].
  split; [apply BestScoreSpecFacts.rejected_run|].
  split; [apply BestScoreSpecFacts.accepted_run|].
  split; [intros ->; vm_compute; reflexivity|].
  split; [apply FloatFacts.ltb_not_leb|].
  split.
  - intros Hno.
    pose proof (BestScoreSpecFacts.no_comparable_pair_best _ _ Hno) as E.
    split; [exact E|]. apply BestScoreSpecFacts.rejected_run.
    fold sourceImages targetImages. rewrite E. vm_compute. reflexivity.
  - intros w0 Hsrc result.
    destruct (findMatches e reportId reportType w0) as [r w'] eqn:E.
    subst result. cbn [fst snd]. split.
    + destruct (NewMatchFacts.findMatches_full _ _ _ _ _ _ E)
        as (added & Hm & Hall & _).
      exists added. split; [exact Hm|].
      eapply Forall_impl; [|exact Hall]. cbn.
      intros m (src & t & Hs & Ht & Hc & Hk & _ & _ & Hconf & Hthr).
      rewrite Hsrc in Hs. inversion Hs; subst src.
      exists t. split; [exact Ht|]. split; [exact Hc|]. split; [exact Hk|].
      split; [exact Hconf|]. subst sourceImages. rewrite <- Hconf. exact Hthr.
    + intros Hnormal t Ht Hc Hacc.
      destruct (VectorPathFacts.findMatches_run _ _ _ _ _ _ E)
        as (_ & _ & _ & Hpresent & _).
      destruct (Hpresent Hnormal) as (src & Hs & Hp).
      rewrite Hsrc in Hs. inversion Hs; subst src.
      apply Hp; auto.
Qed.

(** X17.  The best similarity of two reports does not depend on which of
    them is the source: findMatches run for the parent report accepts a
    finder report exactly when the run for that finder report accepts the
    parent report, and with the same confidence. *)
Theorem bestSimilarity_symmetric (sourceImages targetImages : list CaseImage) :
  bestSimilarity sourceImages targetImages = bestSimilarity targetImages sourceImages /\
  accepted sourceImages targetImages = accepted targetImages sourceImages.
Proof.
  assert (Hswap : forall S T s,
    In s (comparable_scores S T) -> In s (comparable_scores T S)).
  { intros S T s H. apply BestScoreOrderFacts.In_comparable_scores in H
      as (si & ti & vs & vt & Hsi & Hti & Es & Et & ->).
    apply BestScoreOrderFacts.In_comparable_scores.
    exists ti, si, vt, vs. repeat split; auto.
    cbn. apply SimilarityFacts.similarity_of_arrays_sym. }
  assert (E : bestSimilarity sourceImages targetImages
              = bestSimilarity targetImages sourceImages).
  { apply FloatOrderFacts.leb_antisym.
    - apply BestScoreOrderFacts.bestSimilarity_sign.
    - apply BestScoreOrderFacts.bestSimilarity_sign.
    - apply BestScoreOrderFacts.bestSimilarity_le, Hswap.
    - apply BestScoreOrderFacts.bestSimilarity_le, Hswap. }
  split; [exact E|]. unfold accepted. rewrite E. reflexivity.
Qed.

(** X18.  Images added to either report never lower the best similarity:
    when every image of the first pair of reports is among the images of
    the second pair, the best similarity of the second pair is at least
    that of the first, and a match that was accepted stays accepted. *)
Theorem bestSimilarity_monotone
    (sourceImages targetImages moreSourceImages moreTargetImages : list CaseImage) :
  (forall image, In image sourceImages -> In image moreSourceImages) ->
  (forall image, In image targetImages -> In image moreTargetImages) ->
  (bestSimilarity sourceImages targetImages
   <=? bestSimilarity moreSourceImages moreTargetImages)%float = true /\
  (accepted sourceImages targetImages = true ->
   accepted moreSourceImages moreTargetImages = true).
Proof.
  intros HS HT.
  assert (Hle : (bestSimilarity sourceImages targetImages
                 <=? bestSimilarity moreSourceImages moreTargetImages)%float = true).
  { apply BestScoreOrderFacts.bestSimilarity_le. intros s H.
    apply BestScoreOrderFacts.In_comparable_scores in H
      as (si & ti & vs & vt & Hsi & Hti & Es & Et & ->).
    apply BestScoreOrderFacts.In_comparable_scores.
    exists si, ti, vs, vt. repeat split; auto. }
  split; [exact Hle|]. unfold accepted. intros Hacc.
  apply (FloatFacts.leb_trans _ (bestSimilarity sourceImages targetImages)); assumption.
Qed.

Lemma bestSimilarity_monotone_witness :
  (bestSimilarity [image "a1" [1; 0; 0]%float] [image "c1" [0; 1; 0]%float]
   <=? bestSimilarity [image "a1" [1; 0; 0]%float; image "a2" [0; 1; 0]%float]
         [image "c1" [0; 1; 0]%float])%float = true.
Proof.
  refine (proj1 (bestSimilarity_monotone
           [image "a1" [1; 0; 0]%float] [image "c1" [0; 1; 0]%float]
           [image "a1" [1; 0; 0]%float; image "a2" [0; 1; 0]%float]
           [image "c1" [0; 1; 0]%float] _ _)).
  - intros i [<-|[]]. left. reflexivity.
  - intros i H. exact H.
Defined.

(** X19.  When no vector of the source report has the length of a vector
    of the target report (face descriptors of 128 numbers on one side,
    fallback fingerprints of 129 on the other), the best similarity is 0
    and the target report is not accepted. *)
Theorem bestSimilarity_of_mismatched_vectors
    (sourceImages targetImages : list CaseImage) :
  (forall si ti vs vt,
     In si sourceImages -> In ti targetImages ->
     usable_vector si = Some vs -> usable_vector ti = Some vt ->
     List.length vs <> List.length vt) ->
  bestSimilarity sourceImages targetImages = 0%float /\
  accepted sourceImages targetImages = false.
Proof.
  intros Hlen.
  assert (E : bestSimilarity sourceImages targetImages = 0%float).
  { rewrite BestScoreFacts.bestSimilarity_fold.
    assert (Hz : Forall (fun s => s = 0%float)
                   (comparable_scores sourceImages targetImages)).
    { apply Forall_forall. intros s H.
      apply BestScoreOrderFacts.In_comparable_scores in H
        as (si & ti & vs & vt & Hsi & Hti & Es & Et & ->).
      apply SimilarityFacts.calculateSimilarity_length_mismatch. eauto. }
    induction Hz as [|s l -> _ IH]; [reflexivity|exact IH]. }
  split; [exact E|]. unfold accepted. rewrite E. reflexivity.
Qed.

Lemma bestSimilarity_of_mismatched_vectors_witness :
  bestSimilarity [image "a1" [1; 0; 0]%float] [image "b1" [1; 0]%float] = 0%float /\
  accepted [image "a1" [1; 0; 0]%float] [image "b1" [1; 0]%float] = false.
Proof.
  apply (bestSimilarity_of_mismatched_vectors
           [image "a1" [1; 0; 0]%float] [image "b1" [1; 0]%float]).
  intros si ti vs vt [<-|[]] [<-|[]] Es Et.
  cbn in Es, Et. inversion Es. inversion Et. cbn. discriminate.
Defined.

(** * Bulk notifications *)

Module BulkFacts.

Lemma same_records_refl w : same_records w w.
Proof. repeat split. Qed.

Lemma same_records_trans w1 w2 w3 :
  same_records w1 w2 -> same_records w2 w3 -> same_records w1 w3.
Proof.
  intros (A1 & B1 & C1 & D1) (A2 & B2 & C2 & D2). repeat split; congruence.
Qed.

Lemma notify_user_run e template user w :
  exists w',
    notify_user e template user w = (Normal (outcome_for e template user), w') /\
    notifications w' = notifications w ++ sent_to e template [user] /\
    same_records w w'.
Proof.
  unfold notify_user, try_catch, bind, sendNotification, console_error, ret,
    outcome_for, sent_to, inserted.
  cbn [map filter].
  destruct (notify_fails e (notification_for template user)); cbn [negb orb];
    [destruct (stored_on_failure e (notification_for template user))|]; cbn;
    eexists; (split; [reflexivity|]);
    (split; [cbn; rewrite ?app_nil_r; reflexivity|repeat split]).
Qed.

Lemma sent_to_app e template us1 us2 :
  sent_to e template (us1 ++ us2) = sent_to e template us1 ++ sent_to e template us2.
Proof. unfold sent_to. rewrite map_app, filter_app, map_app. reflexivity. Qed.

Lemma notify_batch_run e template : forall batch w,
  exists w',
    notify_batch e template batch w = (Normal (map (outcome_for e template) batch), w') /\
    notifications w' = notifications w ++ sent_to e template batch /\
    same_records w w'.
Proof.
  induction batch as [|user rest IH]; intros w.
  - exists w. cbn. rewrite app_nil_r. repeat split.
  - destruct (notify_user_run e template user w) as (w1 & E1 & N1 & S1).
    destruct (IH w1) as (w2 & E2 & N2 & S2).
    exists w2. cbn [notify_batch map]. unfold bind at 1. rewrite E1.
    unfold bind at 1. rewrite E2. split; [reflexivity|]. split.
    + change (user :: rest) with ([user] ++ rest).
      rewrite sent_to_app, N2, N1, app_assoc. reflexivity.
    + eapply same_records_trans; eassumption.
Qed.

(** The loop, from the index [i] on: the batches are not seen in the
    answer. *)
Lemma bulk_loop_run e template userIds : forall fuel i results w,
  (List.length userIds <= i + 50 * fuel)%nat ->
  exists w',
    bulk_loop e template userIds fuel i results w
    = (Normal (results ++ map (outcome_for e template) (skipn i userIds)), w') /\
    notifications w' = notifications w ++ sent_to e template (skipn i userIds) /\
    same_records w w'.
Proof.
  induction fuel as [|fuel IH]; intros i results w Hfuel.
  - exists w. cbn [bulk_loop]. rewrite skipn_all2 by lia. cbn.
    rewrite !app_nil_r. repeat split.
  - cbn [bulk_loop]. destruct (Nat.ltb i (List.length userIds)) eqn:E.
    + unfold Array_slice. replace (i + 50 - i)%nat with 50%nat by lia.
      destruct (notify_batch_run e template (firstn 50 (skipn i userIds)) w)
        as (w1 & E1 & N1 & S1).
      destruct (IH (i + 50)%nat
                  (results ++ map (outcome_for e template) (firstn 50 (skipn i userIds)))
                  w1) as (w2 & E2 & N2 & S2); [lia|].
      exists w2. unfold bind at 1. rewrite E1, E2.
      assert (Hskip : skipn (i + 50) userIds = skipn 50 (skipn i userIds))
        by (rewrite skipn_skipn; f_equal; lia).
      rewrite Hskip in *. split; [|split].
      * rewrite <- app_assoc, <- map_app, firstn_skipn. reflexivity.
      * rewrite N2, N1, <- app_assoc, <- sent_to_app, firstn_skipn. reflexivity.
      * eapply same_records_trans; eassumption.
    + apply Nat.ltb_ge in E. exists w. rewrite skipn_all2 by lia. cbn.
      rewrite !app_nil_r. repeat split.
Qed.

End BulkFacts.

(** X20.  sendBulkNotification always completes, whatever fails for
    single users.  Its answer has one entry per user id, in the order of
    the ids, the batches of 50 leaving no trace: the notification of the
    user as it is stored, with its type in upper case, or an error entry
    naming the user when the call for that user failed.  The notifications
    recorded during the call are those that were inserted: the ones of
    the users with a notification entry, and the ones of the users whose
    call failed after the insert.  No report or match record changes. *)
Theorem sendBulkNotification_results
    (e : env) (template : Notification) (userIds : list string) (w : world) :
  let run := sendBulkNotification e template userIds w in
  fst run = Normal (map (outcome_for e template) userIds) /\
  notifications (snd run) = notifications w ++ sent_to e template userIds /\
  same_records w (snd run).
Proof.
  intros run.
  destruct (BulkFacts.bulk_loop_run e template userIds (List.length userIds) 0 [] w)
    as (w1 & E & N & S); [lia|].
  assert (Hrun : run = (Normal (map (outcome_for e template) userIds),
                        add_console w1 "Bulk notification sent")).
  { subst run. unfold sendBulkNotification, try_catch, bind at 1. rewrite E.
    reflexivity. }
  rewrite Hrun. cbn. split; [reflexivity|]. split; [exact N|].
  destruct S as (A & B & C & D). repeat split; assumption.
Qed.

(** Two users whose calls fail after the insert: both get an error entry,
    and both notifications are in the store, with the type in upper
    case. *)
Example sendBulkNotification_after_insert :
  let template :=
    {| userId := None; title := "Notice"%string; type := "general"%string;
       matchId := 0%nat; confidence := 0%float |} in
  let run := sendBulkNotification notifications_fail template
               ["u1"; "u2"]%string reports_only in
  fst run = Normal [NotDelivered "notification dispatch failed" "u1";
                    NotDelivered "notification dispatch failed" "u2"]%string /\
  map (fun n => (userId n, type n)) (notifications (snd run))
  = [(Some "u1", "GENERAL"); (Some "u2", "GENERAL")]%string.
Proof. split; vm_compute; reflexivity. Qed.

(** * The fallback fingerprint reads 128 bytes *)

(** X21.  The fallback fingerprint of an image depends on the length of
    the buffer and on the bytes at the 128 sampled positions only: two
    buffers of the same length that agree at these positions have the same
    fingerprint, whatever their other bytes are. *)
Theorem fingerprint_reads_sampled_bytes_only (bytes1 bytes2 : list byte) :
  List.length bytes1 = List.length bytes2 ->
  (forall i, (i < 128)%nat ->
     nth_error bytes1 (Z.to_nat (sample_index i (List.length bytes1)))
     = nth_error bytes2 (Z.to_nat (sample_index i (List.length bytes1)))) ->
  generateSimpleImageFeatures (Buffer bytes1) = generateSimpleImageFeatures (Buffer bytes2).
Proof.
  intros Hlen Hsame.
  unfold generateSimpleImageFeatures, generateSimpleImageFeatures_try. cbv zeta.
  rewrite <- Hlen. f_equal. apply map_ext_in. intros i Hi.
  apply in_seq in Hi. unfold sample. rewrite Hsame by lia. reflexivity.
Qed.

Lemma fingerprint_reads_sampled_bytes_only_witness :
  generateSimpleImageFeatures (Buffer plain_buffer)
  = generateSimpleImageFeatures (Buffer striped_buffer).
Proof.
  apply (fingerprint_reads_sampled_bytes_only plain_buffer striped_buffer).
  - reflexivity.
  - intros i Hi. do 128 (destruct i as [|i]; [reflexivity|]). lia.
Defined.

(** * The sign of a difference of two numbers *)

Module FloatDifferenceFacts.

Import FloatFacts FloatOrderFacts.
Local Open Scope Z_scope.

(** The number of binary digits of a mantissa. *)
Lemma digits2_pos_bounds (p : positive) :
  2 ^ (Z.pos (digits2_pos p) - 1) <= Z.pos p < 2 ^ Z.pos (digits2_pos p).
Proof.
  induction p as [p IH|p IH|]; cbn [digits2_pos].
  - rewrite Pos2Z.inj_succ.
    replace (Z.succ (Z.pos (digits2_pos p)) - 1) with (Z.succ (Z.pos (digits2_pos p) - 1))
      by lia.
    rewrite !Z.pow_succ_r by lia. lia.
  - rewrite Pos2Z.inj_succ.
    replace (Z.succ (Z.pos (digits2_pos p)) - 1) with (Z.succ (Z.pos (digits2_pos p) - 1))
      by lia.
    rewrite !Z.pow_succ_r by lia. lia.
  - cbn. lia.
Qed.

(** One shift halves the mantissa. *)
Lemma shr_1_lower mrs k :
  0 <= k -> 2 ^ (1 + k) <= shr_m mrs -> 2 ^ k <= shr_m (shr_1 mrs).
Proof.
  intros Hk. destruct mrs as [m r s]. cbn [shr_m].
  replace (1 + k) with (Z.succ k) by lia. rewrite Z.pow_succ_r by lia.
  pose proof (Z.pow_pos_nonneg 2 k ltac:(lia) Hk) as Hpos.
  destruct m as [|[p|p|]|p]; cbn [shr_1 shr_m]; lia.
Qed.

Lemma iter_shr_1_lower (n : positive) : forall mrs k,
  0 <= k -> 2 ^ (Z.pos n + k) <= shr_m mrs ->
  2 ^ k <= shr_m (iter_pos shr_1 n mrs).
Proof.
  induction n as [n IH|n IH|]; intros mrs k Hk H; cbn [iter_pos].
  - apply IH; [exact Hk|]. apply IH; [lia|]. apply shr_1_lower; [lia|].
    replace (1 + (Z.pos n + (Z.pos n + k))) with (Z.pos n~1 + k) by lia. exact H.
  - apply IH; [exact Hk|]. apply IH; [lia|].
    replace (Z.pos n + (Z.pos n + k)) with (Z.pos n~0 + k) by lia. exact H.
  - apply shr_1_lower; assumption.
Qed.

Lemma shr_record_of_loc_m m l : shr_m (shr_record_of_loc m l) = m.
Proof. destruct l as [|[]]; reflexivity. Qed.

(** Rounding a positive mantissa to the precision leaves it positive. *)
Lemma shr_fexp_positive (m : positive) e l :
  SpecFloat.emin prec emax <= e ->
  0 < shr_m (fst (shr_fexp prec emax (Z.pos m) e l)) /\
  SpecFloat.emin prec emax <= snd (shr_fexp prec emax (Z.pos m) e l).
Proof.
  intros He. unfold shr_fexp, shr. cbn [Zdigits2].
  pose proof (digits2_pos_bounds m) as [Hlow _].
  set (d := Z.pos (digits2_pos m)) in *.
  assert (Hn : fexp prec emax (d + e) - e < d).
  { unfold fexp, SpecFloat.emin, prec, emax in *. lia. }
  destruct (fexp prec emax (d + e) - e) as [|n|n] eqn:En; cbn [fst snd];
    rewrite ?shr_record_of_loc_m; try (split; [lia|exact He]).
  split; [|lia].
  apply (Z.lt_le_trans _ (2 ^ 0)); [reflexivity|].
  apply iter_shr_1_lower; [lia|]. rewrite shr_record_of_loc_m, Z.add_0_r.
  apply (Z.le_trans _ (2 ^ (d - 1))); [|exact Hlow].
  apply Z.pow_le_mono_r; lia.
Qed.

Lemma round_nearest_even_lower m l : 0 < m -> 0 < round_nearest_even m l.
Proof.
  intros Hm. destruct l as [|[]]; cbn; try lia. destruct (Z.even m); lia.
Qed.

Lemma binary_round_aux_positive (m : positive) e l :
  SpecFloat.emin prec emax <= e ->
  SFltb (S754_zero false) (binary_round_aux prec emax false (Z.pos m) e l) = true.
Proof.
  intros He. unfold binary_round_aux.
  pose proof (shr_fexp_positive m e l He) as [Hm1 He1].
  destruct (shr_fexp prec emax (Z.pos m) e l) as [mrs1 e1]. cbn [fst snd] in *.
  pose proof (round_nearest_even_lower (shr_m mrs1) (loc_of_shr_record mrs1) Hm1) as Hr.
  destruct (round_nearest_even (shr_m mrs1) (loc_of_shr_record mrs1)) as [|m2|m2];
    try lia.
  pose proof (shr_fexp_positive m2 e1 loc_Exact He1) as [Hm2 _].
  destruct (shr_fexp prec emax (Z.pos m2) e1 loc_Exact) as [mrs2 e2]. cbn [fst snd] in *.
  destruct (shr_m mrs2) as [|m3|m3]; try lia.
  destruct (e2 <=? emax - prec); reflexivity.
Qed.

Lemma binary_round_positive (m : positive) e :
  SpecFloat.emin prec emax <= e ->
  SFltb (S754_zero false) (binary_round prec emax false m e) = true.
Proof.
  intros He. unfold binary_round, shl_align.
  destruct (fexp prec emax (Z.pos (digits2_pos m) + e) - e) as [|d|d] eqn:Ed;
    apply binary_round_aux_positive; try exact He.
  unfold fexp. lia.
Qed.

Lemma binary_normalize_positive m e :
  0 < m -> SpecFloat.emin prec emax <= e ->
  SFltb (S754_zero false) (binary_normalize prec emax m e false) = true.
Proof.
  intros Hm He. destruct m as [|m|m]; try lia. apply binary_round_positive, He.
Qed.

(** Aligning a mantissa to a smaller exponent. *)
Lemma iter_xO (m d : positive) : Z.pos (Pos.iter xO m d) = Z.pos m * 2 ^ Z.pos d.
Proof.
  induction d as [|d IH] using Pos.peano_ind.
  - cbn. lia.
  - rewrite Pos.iter_succ, Pos2Z.inj_succ, Z.pow_succ_r by lia.
    rewrite Pos2Z.inj_xO, IH. lia.
Qed.

Lemma shl_align_value m e ez :
  ez <= e -> Z.pos (fst (shl_align m e ez)) = Z.pos m * 2 ^ (e - ez).
Proof.
  intros H. unfold shl_align.
  destruct (ez - e) as [|d|d] eqn:Ed; cbn [fst]; try lia.
  - replace (e - ez) with 0 by lia. lia.
  - rewrite iter_xO. f_equal. f_equal. lia.
Qed.

(** What validity says about a mantissa and its exponent. *)
Lemma bounded_digits m e :
  bounded prec emax m e = true ->
  SpecFloat.emin prec emax <= e /\ Z.pos (digits2_pos m) <= prec /\
  (SpecFloat.emin prec emax < e -> Z.pos (digits2_pos m) = prec).
Proof.
  unfold bounded, canonical_mantissa, fexp. intros H.
  apply andb_prop in H as [H _]. apply Z.eqb_eq in H. lia.
Qed.

(** Of two valid positive numbers the smaller one has the smaller
    aligned mantissa. *)
Lemma aligned_lt m1 e1 m2 e2 :
  bounded prec emax m1 e1 = true -> bounded prec emax m2 e2 = true ->
  SFltb (S754_finite false m1 e1) (S754_finite false m2 e2) = true ->
  Z.pos (fst (shl_align m1 e1 (Z.min e1 e2))) < Z.pos (fst (shl_align m2 e2 (Z.min e1 e2))).
Proof.
  intros B1 B2. unfold SFltb, SFcompare.
  apply bounded_digits in B1 as (Hmin1 & Hd1 & _).
  apply bounded_digits in B2 as (_ & _ & Hd2).
  rewrite !shl_align_value by lia.
  destruct (Z.compare_spec e1 e2) as [E|E|E]; try discriminate.
  - subst e2. rewrite Z.min_id, Z.sub_diag. cbn [Z.pow].
    change (Pos.compare_cont Eq m1 m2) with (Pos.compare m1 m2).
    destruct (Pos.compare_spec m1 m2); try discriminate. lia.
  - intros _. rewrite Z.min_l by lia. rewrite Z.sub_diag. cbn [Z.pow].
    pose proof (digits2_pos_bounds m1) as [_ Hup1].
    pose proof (digits2_pos_bounds m2) as [Hlow2 _].
    rewrite Hd2 in Hlow2 by lia.
    assert (H1 : Z.pos m1 < 2 ^ prec).
    { apply (Z.lt_le_trans _ _ _ Hup1). apply Z.pow_le_mono_r; lia. }
    assert (H2 : 2 ^ 1 <= 2 ^ (e2 - e1)) by (apply Z.pow_le_mono_r; lia).
    assert (H3 : 2 ^ prec = 2 ^ (prec - 1) * 2 ^ 1)
      by (rewrite <- Z.pow_add_r by (unfold prec; lia); f_equal; lia).
    nia.
Qed.

Lemma SFsub_positive x y :
  SpecFloat.valid_binary prec emax x = true -> SpecFloat.valid_binary prec emax y = true ->
  SFltb x y = true ->
  SFltb (S754_zero false) (SFsub prec emax y x) = true.
Proof.
  intros Vx Vy.
  destruct x as [[]|[]| |sx mx ex], y as [[]|[]| |sy my ey];
    try (cbn; intros H; first [reflexivity | discriminate H]).
  - (* zero, finite *)
    destruct sy; cbn; intros H; first [reflexivity | discriminate H].
  - destruct sy; cbn; intros H; first [reflexivity | discriminate H].
  - (* finite, zero *)
    destruct sx; cbn; intros H; first [reflexivity | discriminate H].
  - destruct sx; cbn; intros H; first [reflexivity | discriminate H].
  - (* finite, finite *)
    cbn [SpecFloat.valid_binary] in Vx, Vy. intros Hlt. cbn [SFsub]. cbv zeta.
    pose proof (bounded_digits _ _ Vx) as (Hex & _).
    pose proof (bounded_digits _ _ Vy) as (Hey & _).
    apply binary_normalize_positive; [|lia].
    destruct sx, sy; cbn [cond_Zopp].
    + (* both negative: the order of the magnitudes is reversed *)
      assert (Hlt' : SFltb (S754_finite false my ey) (S754_finite false mx ex) = true).
      { revert Hlt. unfold SFltb, SFcompare. rewrite (Z.compare_antisym ex ey).
        change (Pos.compare_cont Eq my mx) with (Pos.compare my mx).
        change (Pos.compare_cont Eq mx my) with (Pos.compare mx my).
        rewrite (Pos.compare_antisym mx my).
        destruct (ex ?= ey); cbn; try discriminate; try reflexivity.
        destruct (mx ?= my)%positive; cbn; try discriminate; reflexivity. }
      pose proof (aligned_lt _ _ _ _ Vy Vx Hlt') as H.
      rewrite (Z.min_comm ey ex) in H |- *. lia.
    + lia.
    + cbn in Hlt. discriminate.
    + pose proof (aligned_lt _ _ _ _ Vx Vy Hlt) as H.
      rewrite (Z.min_comm ey ex). lia.
Qed.

Local Open Scope float_scope.

(** The difference of a number and a smaller one is positive. *)
Lemma sub_positive (x y : float) : (x <? y) = true -> (0 <? y - x) = true.
Proof.
  rewrite !ltb_spec, sub_spec. apply SFsub_positive; apply Prim2SF_valid.
Qed.

(** For two numbers, the comparator of the sort and the order agree. *)
Lemma sub_not_positive (x y : float) :
  is_nan x = false -> is_nan y = false ->
  (0 <? y - x) = false -> (y <=? x) = true.
Proof.
  intros Hx Hy H. destruct (x <? y) eqn:Hlt.
  - apply sub_positive in Hlt. congruence.
  - apply leb_total; assumption.
Qed.

End FloatDifferenceFacts.

Module BestFirstFacts.

Import FloatFacts FloatDifferenceFacts.
Local Open Scope float_scope.

Lemma leb_not_nan_r (x y : float) : (x <=? y) = true -> is_nan y = false.
Proof.
  rewrite leb_spec, is_nan_spec. unfold SFleb, SFcompare.
  destruct (Prim2SF x), (Prim2SF y); try reflexivity; discriminate.
Qed.

(** A list in which no entry is followed by one that the comparator puts
    before it is in the order of decreasing similarity, when no
    similarity is NaN. *)
Lemma Sorted_by_similarity l :
  Forall (fun m => is_nan (found_similarity m) = false) l ->
  Sorted (fun a b => (0 <? by_similarity_descending a b) = false) l ->
  StronglySorted (fun a b => (found_similarity b <=? found_similarity a) = true) l.
Proof.
  intros Hnan Hs. apply Sorted_StronglySorted.
  - intros a b c Hab Hbc. apply (leb_trans _ (found_similarity b)); assumption.
  - induction Hs as [|a l Hs IH Hhd]; [constructor|].
    inversion Hnan as [|? ? Ha Hl]; subst. constructor; [apply IH, Hl|].
    destruct Hhd as [|b l Hab]; constructor.
    inversion Hl; subst. apply sub_not_positive; assumption.
Qed.

Lemma StronglySorted_app_inv {A} (R : A -> A -> Prop) l1 : forall l2,
  StronglySorted R (l1 ++ l2) ->
  StronglySorted R l1 /\ Forall (fun a => Forall (R a) l2) l1.
Proof.
  induction l1 as [|a l1 IH]; intros l2 H; [split; constructor|].
  cbn in H. inversion H as [|? ? Hs Hall]; subst.
  destruct (IH _ Hs) as [H1 H2]. apply Forall_app in Hall as [Ha1 Ha2].
  split; constructor; assumption.
Qed.

End BestFirstFacts.

(** X22.  findBestMatches, for a non-negative [topK], answers best first:
    the similarities of its answer never increase from one entry to the
    next, and the entries that reach the threshold but are left out of the
    answer have similarities that are at most that of every entry of the
    answer. *)
Theorem findBestMatches_best_first
    (query : value) (database : list db_item) (threshold : number) (topK : Z) :
  (0 <= topK)%Z ->
  let answer := findBestMatches query database threshold topK in
  StronglySorted
    (fun a b => (found_similarity b <=? found_similarity a)%float = true) answer /\
  exists left_out,
    Permutation (answer ++ left_out) (matches_above query database threshold) /\
    Forall (fun kept =>
              Forall (fun other =>
                        (found_similarity other <=? found_similarity kept)%float = true)
                left_out)
      answer.
Proof.
  intros HK answer. unfold answer, findBestMatches, Array_slice_from_0.
  destruct (Z.ltb_spec topK 0) as [Hneg|_]; [lia|].
  set (ms := matches_above query database threshold).
  set (sorted := Array_sort by_similarity_descending ms).
  assert (Hanti : forall a b : found_match,
             (0 <? by_similarity_descending a b)%float = true ->
             (0 <? by_similarity_descending b a)%float = false)
    by (intros a b; apply FloatOrderFacts.sub_sign).
  pose proof (SearchFacts.Array_sort_sorted by_similarity_descending ms Hanti) as Hsorted.
  pose proof (SearchFacts.Array_sort_perm by_similarity_descending ms) as Hperm.
  fold sorted in Hsorted, Hperm.
  assert (Hnan : Forall (fun m => PrimFloat.is_nan (found_similarity m) = false) sorted).
  { apply Forall_forall. intros m Hm. apply (Permutation_in _ Hperm) in Hm.
    apply SearchFacts.matches_above_spec in Hm as [Hm _].
    apply (BestFirstFacts.leb_not_nan_r _ _ Hm). }
  pose proof (BestFirstFacts.Sorted_by_similarity sorted Hnan Hsorted) as Hstrong.
  rewrite <- (firstn_skipn (Z.to_nat topK) sorted) in Hstrong, Hperm.
  apply BestFirstFacts.StronglySorted_app_inv in Hstrong as [H1 H2].
  split; [exact H1|]. exists (skipn (Z.to_nat topK) sorted). split; [exact Hperm|].
  exact H2.
Qed.

Lemma findBestMatches_best_first_witness :
  StronglySorted
    (fun a b => (found_similarity b <=? found_similarity a)%float = true)
    (findBestMatches (JArray [1; 0; 0]%float) three_embeddings 0.7%float 1).
Proof.
  refine (proj1 (findBestMatches_best_first (JArray [1; 0; 0]%float) three_embeddings
                   0.7%float 1 _)).
  lia.
Defined.

(** X23.  batchProcessImages gives all or nothing: either one embedding
    per image, in which case every image was downloaded and decoded, or
    the ReferenceError of processImageForMatching, whichever image failed
    and however many others were processed. *)
Theorem batchProcessImages_all_or_nothing (envs : list image_env) (modelsLoaded : bool) :
  match fst (batchProcessImages envs modelsLoaded) with
  | Normal embeddings =>
      List.length embeddings = List.length envs /\
      Forall (fun env => exists buffer,
                fetch_buffer env = Normal buffer /\
                decode_image env buffer = Normal tt) envs
  | Throw error => error = "ReferenceError: buffer is not defined"%string
  end.
Proof.
  revert modelsLoaded. induction envs as [|env rest IH]; intros modelsLoaded.
  - cbn. split; [reflexivity|constructor].
  - cbn [batchProcessImages].
    pose proof (CompareImagesFacts.processImageForMatching_result env modelsLoaded) as Hr.
    destruct (processImageForMatching env modelsLoaded) as [r loaded]. cbn [fst] in Hr.
    specialize (IH loaded).
    destruct (batchProcessImages rest loaded) as [rs loaded']. cbn [fst] in *.
    unfold processImageForMatching_try, processImageForMatching_catch in Hr.
    destruct (fetch_buffer env) as [buffer|e1] eqn:EF; [|subst r; reflexivity].
    destruct (decode_image env buffer) as [[]|e2] eqn:ED; [|subst r; reflexivity].
    assert (Hr' : r = Throw "ReferenceError: buffer is not defined" \/
                  exists v, r = Normal v).
    { destruct (negb _); [right; eauto|].
      destruct (detect_faces env buffer) as [[|d ds]|e3]; subst r; eauto. }
    destruct Hr' as [->|[v ->]]; [reflexivity|].
    destruct rs as [vs|err]; [|exact IH].
    destruct IH as [Hlen Hall]. split; [cbn; congruence|].
    constructor; [exists buffer; auto|exact Hall].
Qed.
